(** * Etherwall: the Ethereum IPC client ([src/etheripc.cpp])

    A shallow embedding of [Etherwall::RequestIPC] and [Etherwall::EtherIPC]
    and the properties of the request queue, the reply dispatcher and the
    decimal renderer.

    Conventions.
    - Every member function [f] of [EtherIPC] becomes a function on the
      record [EtherIPC] (explicit state passing); a function that returns a
      value returns it next to the new state.
    - What the object does to the outside world is appended, in program
      order, to the field [trace]: the signals it emits and the calls it
      makes on [fSocket] and [QTimer].
    - The headers [etheripc.h], [types.h] and [bigint.h] are not available;
      what is taken from them is marked where it is declared. *)

From Stdlib Require Import ZArith String Ascii List Bool Lia Floats.
From Stdlib Require DecimalString HexadecimalString.
From stdpp Require Import base list.
Import ListNotations.

#[local] Set Warnings "-register-all".
#[local] Open Scope string_scope.
#[local] Open Scope Z_scope.

(** ** Machine integers *)

(** [int] is 32 bits wide; [wrap_int] is the value an [int] holds after an
    arithmetic result is stored in it (two's complement). *)
Definition int_min : Z := - 2 ^ 31.
Definition int_max : Z := 2 ^ 31 - 1.
Definition wrap_int (z : Z) : Z := (z + 2 ^ 31) mod 2 ^ 32 - 2 ^ 31.
Definition in_int (z : Z) : bool := (int_min <=? z) && (z <=? int_max).

(** ** QString *)

(** [QString::remove(0, n)]: drops the first [n] characters, or all of them
    when the string is shorter. *)
Fixpoint QString_remove0 (n : nat) (s : string) : string :=
  match n, s with
  | O, _ => s
  | S _, EmptyString => EmptyString
  | S n', String _ rest => QString_remove0 n' rest
  end.

(** [QString(n, ch)]: [n] copies of [ch] (empty when [n <= 0]). *)
Fixpoint QString_fill (n : nat) (ch : ascii) : string :=
  match n with
  | O => EmptyString
  | S n' => String ch (QString_fill n' ch)
  end.

(** [QString::insert(pos, ch)] for [0 <= pos <= length]. *)
Fixpoint QString_insert (pos : nat) (ch : ascii) (s : string) : string :=
  match pos, s with
  | O, _ => String ch s
  | S _, EmptyString => String ch EmptyString
  | S p, String c rest => String c (QString_insert p ch rest)
  end.

(** ** QJsonValue *)

(** A JSON number is a double. The client only converts numbers with
    [toInt], which yields the default for every number that is not an
    integer, so the integral doubles carry their value and the others are
    one constructor. *)
Inductive QJsonValue : Type :=
| JUndefined
| JNull
| JBool (b : bool)
| JNumber (n : Z)
| JNonIntegral
| JString (s : string)
| JArray (items : list QJsonValue)
| JObject (members : list (string * QJsonValue)).

Definition QJsonArray : Type := list QJsonValue.
Definition QJsonObject : Type := list (string * QJsonValue).

Definition isUndefined (v : QJsonValue) : bool :=
  match v with JUndefined => true | _ => false end.
Definition isNull (v : QJsonValue) : bool :=
  match v with JNull => true | _ => false end.

(** [QJsonValue::toInt(defaultValue)] *)
Definition toInt (v : QJsonValue) (defaultValue : Z) : Z :=
  match v with
  | JNumber n => if in_int n then n else defaultValue
  | _ => defaultValue
  end.
(** [QJsonValue::toString(defaultValue)] *)
Definition toString (v : QJsonValue) (defaultValue : string) : string :=
  match v with JString s => s | _ => defaultValue end.
(** [QJsonValue::toBool(defaultValue)] *)
Definition toBool (v : QJsonValue) (defaultValue : bool) : bool :=
  match v with JBool b => b | _ => defaultValue end.
(** [QJsonValue::toArray()] *)
Definition toArray (v : QJsonValue) : QJsonArray :=
  match v with JArray items => items | _ => [] end.
(** [QJsonValue::toObject()] *)
Definition toObject (v : QJsonValue) : QJsonObject :=
  match v with JObject members => members | _ => [] end.

(** [QJsonObject::operator[](key) const]: the member, or undefined. *)
Fixpoint value (o : QJsonObject) (key : string) : QJsonValue :=
  match o with
  | [] => JUndefined
  | (k, v) :: rest => if String.eqb k key then v else value rest key
  end.
(** [QJsonObject::contains(key)] *)
Fixpoint contains (o : QJsonObject) (key : string) : bool :=
  match o with
  | [] => false
  | (k, _) :: rest => if String.eqb k key then true else contains rest key
  end.

(** ** BigInt::Vin *)

(** The arbitrary-precision integer of [bigint.h], which is not among the
    sources: the client is written against this interface. *)
Class BigInt : Type := {
  Vin : Type;
  (** [Vin(str, base)] *)
  Vin_ofString : string -> Z -> Vin;
  (** [Vin(int)] *)
  Vin_ofInt : Z -> Vin;
  (** [Vin::fromDouble(d)] *)
  fromDouble : float -> Vin;
  (** [toUlong()], a [quint64] *)
  toUlong : Vin -> Z;
  (** [toStrDec()] *)
  toStrDec : Vin -> string;
  (** [toStr0xHex()] *)
  toStr0xHex : Vin -> string
}.

(** ** RequestIPC *)

(** Modelled from the spec: the [RequestTypes] enumeration of [etheripc.h],
    "one of a closed enumeration {ListAccounts, GetBalance,
    GetTransactionCount, NewAccount, DeleteAccount, SendTransaction,
    UnlockAccount, GetBlockNumber, GetPeerCount, GetGasPrice,
    NewPendingTransactionFilter}", under the names the source uses
    ([GetAccountRefs] for ListAccounts). *)
Inductive RequestTypes : Type :=
| NewAccount | DeleteAccount | GetBlockNumber | GetAccountRefs | GetBalance
| GetTransactionCount | GetPeerCount | SendTransaction | UnlockAccount
| GetGasPrice | NewPendingTransactionFilter.

Record RequestIPC : Type := mkRequestIPC {
  fCallID : Z;
  fType : RequestTypes;
  fMethod : string;
  fParams : QJsonArray;
  fIndex : Z;
  fEmpty : bool
}.

(** The constructors [RequestIPC(bool)] and [RequestIPC()] initialise
    [fEmpty] only (the strings and arrays are default-constructed):
    [fCallID], [fType] and [fIndex] keep whatever the memory held. That
    content is a parameter of the development, so every result holds for
    all of it. *)
Record Indeterminate : Type := mkIndeterminate {
  indet_callID : Z;
  indet_type : RequestTypes;
  indet_index : Z
}.

(** Modelled from the spec: the default of the constructor's [index]
    argument, declared in [etheripc.h] ("-1/absent when irrelevant"). *)
Definition default_index : Z := -1.

(** ** AccountInfo *)

(** Modelled from the spec: [AccountInfo] of [types.h], "hash: address
    string; balance: decimal string; transactionCount: unsigned integer",
    built by [AccountInfo(hash, balance, transactionCount)] and updated by
    the two setters the client calls. The source passes -1 as the initial
    count, kept as passed. *)
Record AccountInfo : Type := mkAccountInfo {
  hash : string;
  balance : string;
  transactionCount : Z
}.
Definition setBalance (b : string) (a : AccountInfo) : AccountInfo :=
  mkAccountInfo (hash a) b (transactionCount a).
Definition setTransactionCount (c : Z) (a : AccountInfo) : AccountInfo :=
  mkAccountInfo (hash a) (balance a) c.

(** ** The local socket, the signals and the trace *)

Inductive LocalSocketState : Type :=
| UnconnectedState | ConnectingState | ConnectedState | ClosingState.

Definition LocalSocketState_eqb (a b : LocalSocketState) : bool :=
  match a, b with
  | UnconnectedState, UnconnectedState | ConnectingState, ConnectingState
  | ConnectedState, ConnectedState | ClosingState, ClosingState => true
  | _, _ => false
  end.

(** What the client sees of [QLocalSocket]: its state, its error string and
    what [write] returns. [sock_sent k] is the return value of the [k]-th
    call of [write] (any value: the environment chooses), [sock_writes]
    counts the calls so far. *)
Record QLocalSocket : Type := mkQLocalSocket {
  sock_state : LocalSocketState;
  sock_errorString : string;
  sock_sent : nat -> Z;
  sock_writes : nat
}.

(** [QIODevice::isWritable()]: a local socket is open for writing exactly
    while it is connected. *)
Definition isWritable (k : QLocalSocket) : bool :=
  LocalSocketState_eqb (sock_state k) ConnectedState.

(** What [fSocket.read(4096)] followed by [QJsonDocument::fromJson] gives:
    no bytes, bytes that do not parse (with the parser's message), or a
    document. [resDoc.object()] of a document that is not an object is the
    empty object ([toObject]). *)
Inductive Received : Type :=
| RecvNothing
| RecvUnparsable (errorString : string)
| RecvDocument (doc : QJsonValue).

Inductive Signal : Type :=
| busyChanged (busy : bool)
| error (msg : string) (code : Z)
| connectionStateChanged
| connectToServerDone
| getAccountsDone (accounts : list AccountInfo)
| newAccountDone (result : string) (index : Z)
| deleteAccountDone (result : bool) (index : Z)
| getBlockNumberDone (num : Z)
| peerCountChanged (num : Z)
| sendTransactionDone (h : string)
| unlockAccountDone (result : bool) (index : Z)
| getGasPriceDone (price : string).

(** One entry per effect, in program order. [Queued r] is a history entry:
    it notes that [queueRequest] was entered with [r]. *)
Inductive Effect : Type :=
| Emit (sig : Signal)
| SockConnect (path : string)
| SockWrite (msg : QJsonObject) (sent : Z)
| SockRead (data : Received)
| SingleShot (msec : Z)
| Queued (r : RequestIPC).

(** ** EtherIPC *)

Record EtherIPC : Type := mkEtherIPC {
  fSocket : QLocalSocket;
  fPath : string;
  fError : string;
  fCode : Z;
  fActiveRequest : RequestIPC;
  fRequestQueue : list RequestIPC;
  fAccountList : list AccountInfo;
  fPeerCount : Z;
  fPendingTransactionsFilterID : Z;
  (** [fLocale.decimalPoint()] *)
  fLocale_decimalPoint : ascii;
  (** the static [RequestIPC::sCallID] *)
  sCallID : Z;
  trace : list Effect
}.

Definition set_fSocket (k : QLocalSocket) (s : EtherIPC) : EtherIPC :=
  mkEtherIPC k (fPath s) (fError s) (fCode s) (fActiveRequest s)
    (fRequestQueue s) (fAccountList s) (fPeerCount s)
    (fPendingTransactionsFilterID s) (fLocale_decimalPoint s) (sCallID s)
    (trace s).
Definition set_fPath (p : string) (s : EtherIPC) : EtherIPC :=
  mkEtherIPC (fSocket s) p (fError s) (fCode s) (fActiveRequest s)
    (fRequestQueue s) (fAccountList s) (fPeerCount s)
    (fPendingTransactionsFilterID s) (fLocale_decimalPoint s) (sCallID s)
    (trace s).
Definition set_fError (e : string) (s : EtherIPC) : EtherIPC :=
  mkEtherIPC (fSocket s) (fPath s) e (fCode s) (fActiveRequest s)
    (fRequestQueue s) (fAccountList s) (fPeerCount s)
    (fPendingTransactionsFilterID s) (fLocale_decimalPoint s) (sCallID s)
    (trace s).
Definition set_fCode (c : Z) (s : EtherIPC) : EtherIPC :=
  mkEtherIPC (fSocket s) (fPath s) (fError s) c (fActiveRequest s)
    (fRequestQueue s) (fAccountList s) (fPeerCount s)
    (fPendingTransactionsFilterID s) (fLocale_decimalPoint s) (sCallID s)
    (trace s).
Definition set_fActiveRequest (r : RequestIPC) (s : EtherIPC) : EtherIPC :=
  mkEtherIPC (fSocket s) (fPath s) (fError s) (fCode s) r
    (fRequestQueue s) (fAccountList s) (fPeerCount s)
    (fPendingTransactionsFilterID s) (fLocale_decimalPoint s) (sCallID s)
    (trace s).
Definition set_fRequestQueue (q : list RequestIPC) (s : EtherIPC) : EtherIPC :=
  mkEtherIPC (fSocket s) (fPath s) (fError s) (fCode s) (fActiveRequest s)
    q (fAccountList s) (fPeerCount s)
    (fPendingTransactionsFilterID s) (fLocale_decimalPoint s) (sCallID s)
    (trace s).
Definition set_fAccountList (l : list AccountInfo) (s : EtherIPC) : EtherIPC :=
  mkEtherIPC (fSocket s) (fPath s) (fError s) (fCode s) (fActiveRequest s)
    (fRequestQueue s) l (fPeerCount s)
    (fPendingTransactionsFilterID s) (fLocale_decimalPoint s) (sCallID s)
    (trace s).
Definition set_fPeerCount (n : Z) (s : EtherIPC) : EtherIPC :=
  mkEtherIPC (fSocket s) (fPath s) (fError s) (fCode s) (fActiveRequest s)
    (fRequestQueue s) (fAccountList s) n
    (fPendingTransactionsFilterID s) (fLocale_decimalPoint s) (sCallID s)
    (trace s).
Definition set_fPendingTransactionsFilterID (n : Z) (s : EtherIPC) : EtherIPC :=
  mkEtherIPC (fSocket s) (fPath s) (fError s) (fCode s) (fActiveRequest s)
    (fRequestQueue s) (fAccountList s) (fPeerCount s)
    n (fLocale_decimalPoint s) (sCallID s)
    (trace s).
Definition set_sCallID (n : Z) (s : EtherIPC) : EtherIPC :=
  mkEtherIPC (fSocket s) (fPath s) (fError s) (fCode s) (fActiveRequest s)
    (fRequestQueue s) (fAccountList s) (fPeerCount s)
    (fPendingTransactionsFilterID s) (fLocale_decimalPoint s) n
    (trace s).
(** Appends one effect to the trace. *)
Definition effect (e : Effect) (s : EtherIPC) : EtherIPC :=
  mkEtherIPC (fSocket s) (fPath s) (fError s) (fCode s) (fActiveRequest s)
    (fRequestQueue s) (fAccountList s) (fPeerCount s)
    (fPendingTransactionsFilterID s) (fLocale_decimalPoint s) (sCallID s)
    (trace s ++ [e]).
Definition emit (sig : Signal) : EtherIPC -> EtherIPC := effect (Emit sig).

(** [QJsonObject::insert(key, value)]: replaces the member or adds it. *)
Fixpoint QJsonObject_insert (key : string) (v : QJsonValue) (o : QJsonObject)
  : QJsonObject :=
  match o with
  | [] => [(key, v)]
  | (k, x) :: rest =>
      if String.eqb k key then (key, v) :: rest
      else (k, x) :: QJsonObject_insert key v rest
  end.

Section Client.

Context {bigint : BigInt}.
Variable indet : Indeterminate.

(** *** RequestIPC constructors *)

(** [RequestIPC(type, method, params, index)]: takes the next call id,
    [fCallID(sCallID++)]. *)
Definition RequestIPC_new (type : RequestTypes) (method : string)
    (params : QJsonArray) (index : Z) (s : EtherIPC) : RequestIPC * EtherIPC :=
  (mkRequestIPC (sCallID s) type method params index false,
   set_sCallID (wrap_int (sCallID s + 1)) s).

(** [RequestIPC(bool empty)] *)
Definition RequestIPC_flag (empty : bool) : RequestIPC :=
  mkRequestIPC (indet_callID indet) (indet_type indet) "" []
    (indet_index indet) empty.

(** [RequestIPC()] *)
Definition RequestIPC_none : RequestIPC := RequestIPC_flag true.

(** *** The queue *)

Definition getBusy (s : EtherIPC) : bool := negb (fEmpty (fActiveRequest s)).

Definition methodToJSON (request : RequestIPC) : QJsonObject :=
  let result := [] in
  let result := QJsonObject_insert "jsonrpc" (JString "2.0") result in
  let result := QJsonObject_insert "method" (JString (fMethod request)) result in
  let result := QJsonObject_insert "id" (JNumber (fCallID request)) result in
  let result := QJsonObject_insert "params" (JArray (fParams request)) result in
  result.

(** The message is the JSON object itself; its text ([doc.toJson()],
    [msg.toUtf8()]) is not modelled. *)
Definition writeRequest (s : EtherIPC) : bool * EtherIPC :=
  let msg := methodToJSON (fActiveRequest s) in
  if negb (isWritable (fSocket s)) then
    (false, set_fCode 0 (set_fError "Socket not writeable" s))
  else
    let k := fSocket s in
    let sent := sock_sent k (sock_writes k) in
    let s := set_fSocket (mkQLocalSocket (sock_state k) (sock_errorString k)
                            (sock_sent k) (S (sock_writes k))) s in
    let s := effect (SockWrite msg sent) s in
    if sent <=? 0 then
      (false,
       set_fCode 0
         (set_fError
            (String.append "Error on socket write: "
               (sock_errorString (fSocket s))) s))
    else (true, s).

Definition queueRequest (request : RequestIPC) (s : EtherIPC)
  : bool * EtherIPC :=
  let s := effect (Queued request) s in
  if fEmpty (fActiveRequest s) then
    let s := set_fActiveRequest request s in
    let s := emit (busyChanged (getBusy s)) s in
    writeRequest s
  else
    (true, set_fRequestQueue (fRequestQueue s ++ [request]) s).

(** [done()] drops what [writeRequest] returns. *)
Definition done (s : EtherIPC) : EtherIPC :=
  match fRequestQueue s with
  | first :: rest =>
      let s := set_fActiveRequest first s in
      let s := set_fRequestQueue rest s in
      snd (writeRequest s)
  | [] =>
      let s := set_fActiveRequest RequestIPC_none s in
      emit (busyChanged (getBusy s)) s
  end.

Definition bail (s : EtherIPC) : EtherIPC :=
  let s := set_fActiveRequest RequestIPC_none s in
  let s := set_fRequestQueue [] s in
  let s := emit (error (fError s) (fCode s)) s in
  let s := emit connectionStateChanged s in
  done s.

(** *** Reading a reply *)

(** [readReply(result)]: the middle component is [result] after the call;
    every caller passes a fresh (null) [QJsonValue], which is what is left
    in it on the paths that return before the assignment. *)
Definition readReply (data : Received) (s : EtherIPC)
  : bool * QJsonValue * EtherIPC :=
  let s := effect (SockRead data) s in
  match data with
  | RecvNothing =>
      (false, JNull,
       set_fCode 0
         (set_fError
            (String.append "Error on socket read: "
               (sock_errorString (fSocket s))) s))
  | RecvUnparsable errorString =>
      (false, JNull,
       set_fCode 0
         (set_fError (String.append "Response parse error: " errorString) s))
  | RecvDocument doc =>
      let obj := toObject doc in
      let objID := toInt (value obj "id") (-1) in
      if negb (objID =? fCallID (fActiveRequest s)) then
        (false, JNull, set_fCode 0 (set_fError "Call number mismatch" s))
      else
        let result := value obj "result" in
        if isUndefined result || isNull result then
          if contains obj "error" then
            let err := toObject (value obj "error") in
            let s :=
              if contains err "message"
              then set_fError (toString (value err "message") "") s
              else s in
            let s :=
              if contains err "code"
              then set_fCode (toInt (value err "code") 0) s
              else s in
            (false, result, s)
          else
            (false, result,
             set_fError "Result object undefined in IPC response" s)
        else (true, result, s)
  end.

(** [readNumber(result)]: [Some] of the number when it returns true. *)
Definition readNumber (data : Received) (s : EtherIPC)
  : option Z * EtherIPC :=
  let '(ok, jv, s) := readReply data s in
  if negb ok then (None, s)
  else
    let hexStr := QString_remove0 2 (toString jv "0x0") in
    let bv := Vin_ofString hexStr 16 in
    (Some (toUlong bv), s).

Definition toDecStr (s : EtherIPC) (jv : QJsonValue) : string :=
  let hexStr := QString_remove0 2 (toString jv "0x0") in
  let bv := Vin_ofString hexStr 16 in
  let decStr := toStrDec bv in
  let dsl := Z.of_nat (String.length decStr) in
  let '(decStr, dsl) :=
    if dsl <=? 18 then
      let decStr :=
        String.append (QString_fill (Z.to_nat (19 - dsl)) "0"%char) decStr in
      (decStr, Z.of_nat (String.length decStr))
    else (decStr, dsl) in
  QString_insert (Z.to_nat (dsl - 18)) (fLocale_decimalPoint s) decStr.

(** *** QList *)

(** [list[i]] used as an lvalue: the element at [i] is replaced by [f] of
    it. [QList::operator[]] asserts [0 <= i < size()]; outside that range
    the source has no defined behaviour, and the list is left as it is. *)
Definition QList_modify {A : Type} (i : Z) (f : A -> A) (l : list A) : list A :=
  if 0 <=? i then alter f (Z.to_nat i) l else l.

(** *** Connecting *)

Definition set_sock_state (st : LocalSocketState) (s : EtherIPC) : EtherIPC :=
  let k := fSocket s in
  set_fSocket
    (mkQLocalSocket st (sock_errorString k) (sock_sent k) (sock_writes k)) s.
Definition set_sock_errorString (e : string) (s : EtherIPC) : EtherIPC :=
  let k := fSocket s in
  set_fSocket (mkQLocalSocket (sock_state k) e (sock_sent k) (sock_writes k)) s.

(** [fSocket.connectToServer(path)] leaves the socket connecting; whether
    it connects is reported later, by a signal. *)
Definition connectToServer (path : string) (s : EtherIPC) : EtherIPC :=
  let s := set_fActiveRequest (RequestIPC_flag false) s in
  let s := emit (busyChanged (getBusy s)) s in
  let s := set_fPath path s in
  if negb (LocalSocketState_eqb (sock_state (fSocket s)) UnconnectedState) then
    bail (set_fError "Already connected" s)
  else
    let s := effect (SockConnect path) (set_sock_state ConnectingState s) in
    effect (SingleShot 2000) s.

Definition newPendingTransactionFilter (s : EtherIPC) : EtherIPC :=
  let '(r, s) :=
    RequestIPC_new NewPendingTransactionFilter
      "eth_newPendingTransactionFilter" [] default_index s in
  let '(ok, s) := queueRequest r s in
  if negb ok then bail s else s.

Definition connectedToServer (s : EtherIPC) : EtherIPC :=
  let s := done s in
  let s := newPendingTransactionFilter s in
  let s := emit connectToServerDone s in
  emit connectionStateChanged s.

Definition disconnectedFromServer (s : EtherIPC) : EtherIPC :=
  if LocalSocketState_eqb (sock_state (fSocket s)) UnconnectedState then
    bail (set_fError (sock_errorString (fSocket s)) s)
  else s.

Definition onSocketError (err : Z) (s : EtherIPC) : EtherIPC :=
  set_fCode err (set_fError (sock_errorString (fSocket s)) s).

(** *** Accounts *)

Definition getAccounts (s : EtherIPC) : EtherIPC :=
  let '(r, s) :=
    RequestIPC_new GetAccountRefs "personal_listAccounts" [] default_index s in
  let '(ok, s) := queueRequest r s in
  if negb ok then bail s else s.

(** The [foreach] of [handleAccountDetails], from position [i] on: [false]
    when a [queueRequest] failed (the handler then bails). *)
Fixpoint handleAccountDetails_loop (refs : QJsonArray) (i : Z) (s : EtherIPC)
  : bool * EtherIPC :=
  match refs with
  | [] => (true, s)
  | r :: refs' =>
      let hash := toString r "INVALID" in
      let s :=
        set_fAccountList (fAccountList s ++ [mkAccountInfo hash "" (-1)]) s in
      let params := [JString hash; JString "latest"] in
      let '(q, s) := RequestIPC_new GetBalance "eth_getBalance" params i s in
      let '(ok, s) := queueRequest q s in
      if negb ok then (false, s)
      else
        let '(q, s) :=
          RequestIPC_new GetTransactionCount "eth_getTransactionCount"
            params i s in
        let '(ok, s) := queueRequest q s in
        if negb ok then (false, s)
        else handleAccountDetails_loop refs' (wrap_int (i + 1)) s
  end.

Definition handleAccountDetails (data : Received) (s : EtherIPC) : EtherIPC :=
  let '(ok, jv, s) := readReply data s in
  if negb ok then bail s
  else
    let refs := toArray jv in
    let '(ok, s) := handleAccountDetails_loop refs 0 s in
    if negb ok then bail s else done s.

Definition handleAccountBalance (data : Received) (s : EtherIPC) : EtherIPC :=
  let '(ok, jv, s) := readReply data s in
  if negb ok then bail s
  else
    let decStr := toDecStr s jv in
    let s :=
      set_fAccountList
        (QList_modify (fIndex (fActiveRequest s)) (setBalance decStr)
           (fAccountList s)) s in
    done s.

Definition handleAccountTransactionCount (data : Received) (s : EtherIPC)
  : EtherIPC :=
  let '(ok, jv, s) := readReply data s in
  if negb ok then bail s
  else
    let hexStr := QString_remove0 2 (toString jv "0x0") in
    let bv := Vin_ofString hexStr 16 in
    let count := toUlong bv in
    let s :=
      set_fAccountList
        (QList_modify (fIndex (fActiveRequest s)) (setTransactionCount count)
           (fAccountList s)) s in
    let s :=
      if wrap_int (fIndex (fActiveRequest s) + 1)
         =? Z.of_nat (length (fAccountList s))
      then emit (getAccountsDone (fAccountList s)) s
      else s in
    done s.

Definition newAccount (password : string) (index : Z) (s : EtherIPC)
  : EtherIPC :=
  let params := [JString password] in
  let '(r, s) := RequestIPC_new NewAccount "personal_newAccount" params index s in
  let '(ok, s) := queueRequest r s in
  if negb ok then bail s else s.

Definition handleNewAccount (data : Received) (s : EtherIPC) : EtherIPC :=
  let '(ok, jv, s) := readReply data s in
  if negb ok then bail s
  else
    let result := toString jv "" in
    let s := emit (newAccountDone result (fIndex (fActiveRequest s))) s in
    done s.

Definition deleteAccount (hash password : string) (index : Z) (s : EtherIPC)
  : EtherIPC :=
  let params := [JString hash; JString password] in
  let '(r, s) :=
    RequestIPC_new DeleteAccount "personal_deleteAccount" params index s in
  let '(ok, s) := queueRequest r s in
  if negb ok then bail s else s.

Definition handleDeleteAccount (data : Received) (s : EtherIPC) : EtherIPC :=
  let '(ok, jv, s) := readReply data s in
  if negb ok then bail s
  else
    let result := toBool jv false in
    let s := emit (deleteAccountDone result (fIndex (fActiveRequest s))) s in
    done s.

(** *** Block number, peer count, gas price, pending-transaction filter *)

Definition getBlockNumber (s : EtherIPC) : EtherIPC :=
  let '(r, s) :=
    RequestIPC_new GetBlockNumber "eth_blockNumber" [] default_index s in
  let '(ok, s) := queueRequest r s in
  if negb ok then bail s else s.

Definition handleGetBlockNumber (data : Received) (s : EtherIPC) : EtherIPC :=
  let '(result, s) := readNumber data s in
  match result with
  | None => bail s
  | Some result => done (emit (getBlockNumberDone result) s)
  end.

Definition getPeerCount (s : EtherIPC) : EtherIPC :=
  let '(r, s) := RequestIPC_new GetPeerCount "net_peerCount" [] default_index s in
  let '(ok, s) := queueRequest r s in
  if negb ok then bail s else s.

Definition handleGetPeerCount (data : Received) (s : EtherIPC) : EtherIPC :=
  let '(result, s) := readNumber data s in
  match result with
  | None => bail s
  | Some result =>
      let s := set_fPeerCount result s in
      done (emit (peerCountChanged (fPeerCount s)) s)
  end.

Definition getGasPrice (s : EtherIPC) : EtherIPC :=
  let '(r, s) := RequestIPC_new GetGasPrice "eth_gasPrice" [] default_index s in
  let '(ok, s) := queueRequest r s in
  if negb ok then bail s else s.

Definition handleGetGasPrice (data : Received) (s : EtherIPC) : EtherIPC :=
  let '(ok, jv, s) := readReply data s in
  if negb ok then bail s
  else
    let decStr := toDecStr s jv in
    done (emit (getGasPriceDone decStr) s).

Definition handleNewPendingTransactionFilter (data : Received) (s : EtherIPC)
  : EtherIPC :=
  let '(result, s) := readNumber data s in
  match result with
  | None => bail s
  | Some result => done (set_fPendingTransactionsFilterID result s)
  end.

(** *** Transactions and unlocking *)

(** [value] is a [double]; the literal [1000000000000000000] converts to
    the double [1e18] exactly. *)
Definition sendTransaction (from to : string) (value : float) (s : EtherIPC)
  : EtherIPC :=
  if (value <=? 0)%float then
    bail (set_fError "Invalid transaction value" s)
  else
    let vinVal := fromDouble (value * 1e18)%float in
    let strHex := toStr0xHex vinVal in
    let p := [] in
    let p := QJsonObject_insert "from" (JString from) p in
    let p := QJsonObject_insert "to" (JString to) p in
    let p := QJsonObject_insert "value" (JString strHex) p in
    let params := [JObject p] in
    let '(r, s) :=
      RequestIPC_new SendTransaction "eth_sendTransaction" params
        default_index s in
    let '(ok, s) := queueRequest r s in
    if negb ok then bail s else s.

Definition handleSendTransaction (data : Received) (s : EtherIPC) : EtherIPC :=
  let '(ok, jv, s) := readReply data s in
  if negb ok then bail s
  else
    let h := toString jv "" in
    done (emit (sendTransactionDone h) s).

Definition unlockAccount (hash password : string) (duration index : Z)
    (s : EtherIPC) : EtherIPC :=
  let vinVal := Vin_ofInt duration in
  let strHex := toStr0xHex vinVal in
  let params := [JString hash; JString password; JString strHex] in
  let '(r, s) :=
    RequestIPC_new UnlockAccount "personal_unlockAccount" params index s in
  let '(ok, s) := queueRequest r s in
  if negb ok then bail s else s.

Definition handleUnlockAccount (data : Received) (s : EtherIPC) : EtherIPC :=
  let '(ok, jv, s) := readReply data s in
  if negb ok then bail s
  else
    let result := toBool jv false in
    let s := emit (unlockAccountDone result (fIndex (fActiveRequest s))) s in
    done s.

(** *** Dispatch *)

(** The [switch] has no case for [GetPeerCount]: it takes [default]. *)
Definition onSocketReadyRead (data : Received) (s : EtherIPC) : EtherIPC :=
  match fType (fActiveRequest s) with
  | NewAccount => handleNewAccount data s
  | DeleteAccount => handleDeleteAccount data s
  | GetBlockNumber => handleGetBlockNumber data s
  | GetAccountRefs => handleAccountDetails data s
  | GetBalance => handleAccountBalance data s
  | GetTransactionCount => handleAccountTransactionCount data s
  | SendTransaction => handleSendTransaction data s
  | UnlockAccount => handleUnlockAccount data s
  | GetGasPrice => handleGetGasPrice data s
  | NewPendingTransactionFilter => handleNewPendingTransactionFilter data s
  | GetPeerCount => s
  end.

(** ** The client in its environment *)

(** What reaches the object: a call of its interface, or a signal of the
    socket or of the timer that [connectToServer] arms. *)
Inductive Input : Type :=
| Call_connectToServer (path : string)
| Call_getAccounts
| Call_newAccount (password : string) (index : Z)
| Call_deleteAccount (hash password : string) (index : Z)
| Call_getBlockNumber
| Call_getPeerCount
| Call_sendTransaction (from to : string) (value : float)
| Call_unlockAccount (hash password : string) (duration index : Z)
| Call_getGasPrice
| Sig_connected
| Sig_disconnected
| Sig_error (errorString : string) (err : Z)
| Sig_readyRead (data : Received)
| Sig_timeout.

(** One input handled to completion (the object lives on one thread). The
    socket changes state with the signal that reports it: [connected]
    arrives with the socket connected, [disconnected] with it unconnected,
    and an [error] while connecting ends the attempt. *)
Definition step (s : EtherIPC) (i : Input) : EtherIPC :=
  match i with
  | Call_connectToServer path => connectToServer path s
  | Call_getAccounts => getAccounts s
  | Call_newAccount password index => newAccount password index s
  | Call_deleteAccount hash password index =>
      deleteAccount hash password index s
  | Call_getBlockNumber => getBlockNumber s
  | Call_getPeerCount => getPeerCount s
  | Call_sendTransaction from to value => sendTransaction from to value s
  | Call_unlockAccount hash password duration index =>
      unlockAccount hash password duration index s
  | Call_getGasPrice => getGasPrice s
  | Sig_connected => connectedToServer (set_sock_state ConnectedState s)
  | Sig_disconnected =>
      disconnectedFromServer (set_sock_state UnconnectedState s)
  | Sig_error errorString err =>
      let s := set_sock_errorString errorString s in
      let s :=
        if LocalSocketState_eqb (sock_state (fSocket s)) ConnectingState
        then set_sock_state UnconnectedState s else s in
      onSocketError err s
  | Sig_readyRead data => onSocketReadyRead data s
  | Sig_timeout => disconnectedFromServer s
  end.

(** When the environment can deliver an input: the socket reports
    [connected] only while connecting and [disconnected] only while
    connected, and the daemon answers only requests, so data arrives only
    on a connected socket while a call is active. *)
Definition enabled (s : EtherIPC) (i : Input) : bool :=
  match i with
  | Sig_connected =>
      LocalSocketState_eqb (sock_state (fSocket s)) ConnectingState
  | Sig_disconnected =>
      LocalSocketState_eqb (sock_state (fSocket s)) ConnectedState
  | Sig_readyRead _ =>
      LocalSocketState_eqb (sock_state (fSocket s)) ConnectedState
      && getBusy s
  | _ => true
  end.

Definition run (s : EtherIPC) (inputs : list Input) : EtherIPC :=
  fold_left step inputs s.

(** Every input of the run is enabled when it arrives. *)
Fixpoint admissible (s : EtherIPC) (inputs : list Input) : bool :=
  match inputs with
  | [] => true
  | i :: rest => enabled s i && admissible (step s i) rest
  end.

End Client.

#[local] Open Scope list_scope.

(** ** Reading the trace *)

(** The messages the transport accepted ([write] returned a positive
    count), oldest first. *)
Definition written_of (e : Effect) : list QJsonObject :=
  match e with
  | SockWrite msg sent => if 0 <? sent then [msg] else []
  | _ => []
  end.
Definition written (tr : list Effect) : list QJsonObject :=
  flat_map written_of tr.

(** The requests [queueRequest] was called with, oldest first. *)
Definition queued_of (e : Effect) : list RequestIPC :=
  match e with
  | Queued r => [r]
  | _ => []
  end.
Definition queued (tr : list Effect) : list RequestIPC :=
  flat_map queued_of tr.

(** A call is in flight from the moment the transport accepts its request
    until the next read of the socket (its reply is processed) or the next
    error signal ([bail]). *)
Definition in_flight_after (b : bool) (e : Effect) : bool :=
  match e with
  | SockWrite _ sent => if 0 <? sent then true else b
  | SockRead _ => false
  | Emit (error _ _) => false
  | _ => b
  end.
Definition in_flight (tr : list Effect) : bool :=
  fold_left in_flight_after tr false.

(** No [write] is called on the socket while a call is in flight; [b] says
    whether one is in flight before [tr]. *)
Fixpoint one_at_a_time_from (b : bool) (tr : list Effect) : bool :=
  match tr with
  | [] => true
  | e :: tr' =>
      match e with SockWrite _ _ => negb b | _ => true end
      && one_at_a_time_from (in_flight_after b e) tr'
  end.
Definition one_at_a_time (tr : list Effect) : bool :=
  one_at_a_time_from false tr.

Definition is_getAccountsDone (e : Effect) : bool :=
  match e with
  | Emit (getAccountsDone _) => true
  | _ => false
  end.
(** How often [getAccountsDone] was emitted. *)
Definition getAccountsDone_count (tr : list Effect) : nat :=
  length (List.filter is_getAccountsDone tr).

Definition is_SockOp (e : Effect) : bool :=
  match e with
  | SockConnect _ | SockWrite _ _ | SockRead _ => true
  | _ => false
  end.
(** The calls made on the socket. *)
Definition transport_operations (tr : list Effect) : list Effect :=
  List.filter is_SockOp tr.

(** A client as its constructor leaves it: nothing done yet, no call
    active, nothing pending, the socket unconnected. The members the
    constructor does not initialise are arbitrary. *)
Definition fresh (s : EtherIPC) : Prop :=
  trace s = []
  /\ fEmpty (fActiveRequest s) = true
  /\ fRequestQueue s = []
  /\ sock_state (fSocket s) = UnconnectedState.

(** ** Invariants of the queue *)

(** The requests handed to [queueRequest] so far are those no longer
    pending followed by the pending queue, and what the transport accepted
    is, in order, among the former. *)
Definition ordered (s : EtherIPC) : Prop :=
  exists taken : list RequestIPC,
    queued (trace s) = taken ++ fRequestQueue s
    /\ sublist (written (trace s)) (map methodToJSON taken).

Definition queue_sound (s : EtherIPC) : Prop :=
  ordered s
  /\ one_at_a_time (trace s) = true
  /\ Forall (fun r => fEmpty r = false) (fRequestQueue s).

(** Sound, and no call in flight. *)
Definition settled (s : EtherIPC) : Prop :=
  queue_sound s /\ in_flight (trace s) = false.

(** Sound; a call in flight is on a connected socket and is the active
    call; an idle client has nothing pending. *)
Definition consistent (s : EtherIPC) : Prop :=
  queue_sound s
  /\ (in_flight (trace s) = true ->
      sock_state (fSocket s) = ConnectedState
      /\ fEmpty (fActiveRequest s) = false)
  /\ (fEmpty (fActiveRequest s) = true -> fRequestQueue s = []).

(** [s'] is [s] after the effects [w], with the same active call, pending
    queue, account list and socket state. *)
Definition frame (s s' : EtherIPC) (w : list Effect) : Prop :=
  trace s' = trace s ++ w
  /\ fActiveRequest s' = fActiveRequest s
  /\ fRequestQueue s' = fRequestQueue s
  /\ fAccountList s' = fAccountList s
  /\ sock_state (fSocket s') = sock_state (fSocket s).

(** Effects that are neither a write nor an entry of [queueRequest]. *)
Definition passive (e : Effect) : bool :=
  match e with
  | SockWrite _ _ | Queued _ => false
  | _ => true
  end.

Definition all_passive (w : list Effect) : Prop :=
  Forall (fun e => passive e = true) w.

(** The decimal digits as [toDecStr] pads them: to 19 characters when they
    are 18 or fewer. *)
Definition padded (decStr : string) : string :=
  if Z.of_nat (String.length decStr) <=? 18 then
    String.append
      (QString_fill (Z.to_nat (19 - Z.of_nat (String.length decStr)))
         "0"%char) decStr
  else decStr.

(** The classification of a reply as the specification words it: its
    [result] is present and not null; otherwise it has an [error] member;
    otherwise neither. [readReply] is compared with it below. *)
Inductive ReplyClass : Type :=
| ReplySuccess | ReplyDaemonError | ReplyResultUndefined.

Definition classify (obj : QJsonObject) : ReplyClass :=
  if negb (isUndefined (value obj "result") || isNull (value obj "result"))
  then ReplySuccess
  else if contains obj "error" then ReplyDaemonError
  else ReplyResultUndefined.

(** The envelope [sendTransaction] builds when it takes call id [id]. *)
Definition sendTransaction_envelope {bigint : BigInt} (from to : string)
    (value : float) (id : Z) : RequestIPC :=
  mkRequestIPC id SendTransaction "eth_sendTransaction"
    [JObject [("from", JString from); ("to", JString to);
              ("value",
               JString (toStr0xHex (fromDouble (value * 1e18)%float)))]]
    default_index false.

(** What [s'] added to the trace of [s]. *)
Definition added (s s' : EtherIPC) : list Effect :=
  skipn (length (trace s)) (trace s').

(** "Only when the socket is unconnected does [connectToServer] store the
    path and flag busy": on any other socket the path stays and no
    [busyChanged(true)] is emitted. *)
Definition connect_stores_only_when_unconnected (indet : Indeterminate)
    (path : string) (s : EtherIPC) : Prop :=
  sock_state (fSocket s) <> UnconnectedState ->
  fPath (connectToServer indet path s) = fPath s
  /\ ~ In (Emit (busyChanged true)) (added s (connectToServer indet path s)).

(** The reply to the active call carrying [result]. *)
Definition reply_to (s : EtherIPC) (result : QJsonValue) : Received :=
  RecvDocument
    (JObject [("id", JNumber (fCallID (fActiveRequest s)));
              ("result", result)]).

(** ** The codec of [bigint.h], from its description *)

Module SpecCodec.

Definition digit_of (c : ascii) : option Z :=
  let n := Z.of_N (N_of_ascii c) in
  if (48 <=? n) && (n <=? 57) then Some (n - 48)
  else if (97 <=? n) && (n <=? 102) then Some (n - 87)
  else if (65 <=? n) && (n <=? 70) then Some (n - 55)
  else None.

Fixpoint parse_from (base acc : Z) (s : string) : option Z :=
  match s with
  | EmptyString => Some acc
  | String c rest =>
      match digit_of c with
      | Some d =>
          if d <? base then parse_from base (base * acc + d) rest else None
      | None => None
      end
  end.

(** Modelled from the spec: [BigInt::Vin(str, base)], missing with
    [bigint.h]: "parses arbitrary-length hexadecimal strings into an
    arbitrary-precision integer" and "treats non-hex content as value 0
    rather than raising". *)
Definition parse (s : string) (base : Z) : Z :=
  match parse_from base 0 s with
  | Some z => z
  | None => 0
  end.

(** Modelled from the spec: [toStrDec()], missing with [bigint.h]:
    "renders it as decimal". *)
Definition toStrDec (z : Z) : string :=
  DecimalString.NilZero.string_of_uint (N.to_uint (Z.to_N z)).

(** Modelled from the spec: [toStr0xHex()], missing with [bigint.h]:
    renders it "as a 0x-prefixed hex string". *)
Definition toStr0xHex (z : Z) : string :=
  String.append "0x"
    (HexadecimalString.NilZero.string_of_uint (N.to_hex_uint (Z.to_N z))).

(** Modelled from the spec: [fromDouble(d)], missing with [bigint.h]:
    "converting a floating transaction amount scaled by 10^18 into an exact
    integer of wei". The integer part of a finite positive double; the
    client passes no other. *)
Definition fromDouble (d : float) : Z :=
  match Prim2SF d with
  | S754_finite false m e =>
      if 0 <=? e then Z.pos m * 2 ^ e else Z.pos m / 2 ^ (- e)
  | _ => 0
  end.

(** Modelled from the spec: [toUlong()], missing with [bigint.h]:
    "toUnsignedInteger() -> u64"; a value that does not fit is reduced
    modulo 2^64. *)
Definition toUlong (z : Z) : Z := z mod 2 ^ 64.

Definition codec : BigInt :=
  Build_BigInt Z parse (fun z => z) fromDouble toUlong toStrDec toStr0xHex.

End SpecCodec.

(** ** Rounds of account listing *)

(** The records a [personal_listAccounts] reply adds, one per entry. *)
Definition new_accounts (refs : QJsonArray) : list AccountInfo :=
  map (fun r => mkAccountInfo (toString r "INVALID") "" (-1)) refs.

(** The envelopes [handleAccountDetails] builds for the entries [refs],
    the first entry at position [i] and the next call id being [id]: for
    each entry a [GetBalance] and a [GetTransactionCount] carrying its
    position. *)
Fixpoint follow_ups (refs : QJsonArray) (i id : Z) : list RequestIPC :=
  match refs with
  | [] => []
  | r :: refs' =>
      let params := [JString (toString r "INVALID"); JString "latest"] in
      mkRequestIPC id GetBalance "eth_getBalance" params i false
      :: mkRequestIPC (wrap_int (id + 1)) GetTransactionCount
           "eth_getTransactionCount" params i false
      :: follow_ups refs' (wrap_int (i + 1))
           (wrap_int (wrap_int (id + 1) + 1))
  end.

(** What identifies a follow-up call: its type, its index, its parameters. *)
Definition follow_up_of (r : RequestIPC) : RequestTypes * Z * QJsonArray :=
  (fType r, fIndex r, fParams r).

Section Answers.

Context {bigint : BigInt}.
Variable indet : Indeterminate.

(** The daemon answers the active call with [result], and the client
    handles the reply. *)
Definition answer (s : EtherIPC) (result : QJsonValue) : EtherIPC :=
  onSocketReadyRead indet (reply_to s result) s.

Definition answers (s : EtherIPC) (results : list QJsonValue) : EtherIPC :=
  fold_left answer results s.

End Answers.

(** The reply to [r] cannot announce the accounts while the list has [len]
    records: [r] is no [GetTransactionCount] call, or its index + 1 is
    below [len]. *)
Definition cannot_complete (len : nat) (r : RequestIPC) : Prop :=
  fType r = GetTransactionCount -> wrap_int (fIndex r + 1) < Z.of_nat len.

(** There are accounts already, and no pending call can announce them. *)
Definition pending_cannot_complete (s : EtherIPC) : Prop :=
  (1 <= length (fAccountList s))%nat
  /\ Forall (cannot_complete (length (fAccountList s))) (fRequestQueue s).

(** The state of a client from the end of its first round of account
    listing on: there are accounts, and neither a pending call nor the call
    active on a connected socket can announce them. *)
Definition past_first_round (s : EtherIPC) : Prop :=
  pending_cannot_complete s
  /\ (sock_state (fSocket s) = ConnectedState ->
      fEmpty (fActiveRequest s) = false ->
      cannot_complete (length (fAccountList s)) (fActiveRequest s)).

(** [s'] has the accounts of [s] and has announced them as often. *)
Definition stable (s s' : EtherIPC) : Prop :=
  fAccountList s' = fAccountList s
  /\ getAccountsDone_count (trace s') = getAccountsDone_count (trace s).

(** [s'] has the records of [s], possibly updated, followed by new ones,
    and has announced the accounts as often. *)
Definition grown (s s' : EtherIPC) : Prop :=
  map hash (fAccountList s) `prefix_of` map hash (fAccountList s')
  /\ getAccountsDone_count (trace s') = getAccountsDone_count (trace s).

(** Effects among which the accounts are not announced. *)
Definition silent (w : list Effect) : Prop := getAccountsDone_count w = 0%nat.

(** A usable result: present and not null. *)
Definition usable (v : QJsonValue) : Prop :=
  isUndefined v || isNull v = false.

(** "The replies to the follow-up calls of a second round mutate the
    records of the first round": the records the second round added for
    [refs] are, after those replies, as they were added. *)
Definition second_round_mutates_first_round_only
    (before : EtherIPC) (refs : QJsonArray) (after : EtherIPC) : Prop :=
  drop (length (fAccountList before)) (fAccountList after) = new_accounts refs.

(** ** Concrete clients *)

Definition sample_indet : Indeterminate := mkIndeterminate 7 GetAccountRefs 3.

(** A socket whose [write] always reports 64 bytes sent. *)
Definition sample_socket (st : LocalSocketState) : QLocalSocket :=
  mkQLocalSocket st "" (fun _ => 64) 0.

(** A client just constructed. *)
Definition new_client : EtherIPC :=
  mkEtherIPC (sample_socket UnconnectedState) "" "" 0
    (RequestIPC_none sample_indet) [] [] 0 0 "."%char 0 [].

(** An idle client connected to "old.ipc". *)
Definition connected_client : EtherIPC :=
  mkEtherIPC (sample_socket ConnectedState) "old.ipc" "" 0
    (RequestIPC_none sample_indet) [] [] 0 0 "."%char 0 [].

(** The reply with [id] carrying [result]. *)
Definition reply (id : Z) (result : QJsonValue) : Received :=
  RecvDocument (JObject [("id", JNumber id); ("result", result)]).

(** Connecting, then a first round of account listing with one account. *)
Definition first_round : list Input :=
  [Call_connectToServer "geth.ipc"; Sig_connected;
   Sig_readyRead (reply 0 (JString "0x1"));
   Call_getAccounts;
   Sig_readyRead (reply 1 (JArray [JString "0xA"]));
   Sig_readyRead (reply 2 (JString "0x5"));
   Sig_readyRead (reply 3 (JString "0x1"))].

(** A second round, with two accounts. *)
Definition second_round : list Input :=
  [Call_getAccounts;
   Sig_readyRead (reply 4 (JArray [JString "0xB"; JString "0xC"]));
   Sig_readyRead (reply 5 (JString "0x6"));
   Sig_readyRead (reply 6 (JString "0x2"));
   Sig_readyRead (reply 7 (JString "0x7"));
   Sig_readyRead (reply 8 (JString "0x3"))].

(** The sample client after the first round. *)
Definition after_first_round : EtherIPC :=
  @run SpecCodec.codec sample_indet new_client first_round.

(** The sample client connected, its filter installed, with a
    [personal_listAccounts] call written and awaiting its reply. *)
Definition listing_client : EtherIPC :=
  @run SpecCodec.codec sample_indet new_client
    [Call_connectToServer "geth.ipc"; Sig_connected;
     Sig_readyRead (reply 0 (JString "0x1"));
     Call_getAccounts].

(** The same with a [net_peerCount] call awaiting its reply. *)
Definition peer_count_client : EtherIPC :=
  @run SpecCodec.codec sample_indet new_client
    [Call_connectToServer "geth.ipc"; Sig_connected;
     Sig_readyRead (reply 0 (JString "0x1"));
     Call_getPeerCount].

(** An envelope as [getGasPrice] builds it. *)
Definition sample_request : RequestIPC :=
  mkRequestIPC 9 GetGasPrice "eth_gasPrice" [] default_index false.

(** ** Queries *)

Definition getError (s : EtherIPC) : string := fError s.

Definition getCode (s : EtherIPC) : Z := fCode s.

Definition peerCount (s : EtherIPC) : Z := fPeerCount s.

Definition getConnectionState (s : EtherIPC) : Z :=
  if LocalSocketState_eqb (sock_state (fSocket s)) ConnectedState then 1
  else 0.

Definition getConnectionStateStr (s : EtherIPC) : string :=
  match getConnectionState s with
  | 0 => "Disconnected"
  | 1 => "Connected (poor peer count)"
  | 2 => "Connected (fair peer count)"
  | 3 => "Connected (good peer count)"
  | _ => "Invalid"
  end.

(** ** More readings of the trace *)

Definition emitted_of (e : Effect) : list Signal :=
  match e with
  | Emit sig => [sig]
  | _ => []
  end.
(** The signals emitted, oldest first. *)
Definition emitted (tr : list Effect) : list Signal :=
  flat_map emitted_of tr.

Definition is_peerCountChanged (e : Effect) : bool :=
  match e with
  | Emit (peerCountChanged _) => true
  | _ => false
  end.

(** The reply that echoes the id member of the message written for [r]
    and carries [result]. *)
Definition echo (r : RequestIPC) (result : QJsonValue) : Received :=
  RecvDocument
    (JObject [("id", value (methodToJSON r) "id"); ("result", result)]).

(** ** The envelopes of the interface *)

Section Envelopes.

Context {bigint : BigInt}.

(** The envelope a call of the interface builds when the next call id is
    [id]; [None] for the calls that build none ([connectToServer], and
    [sendTransaction] with a value it refuses) and for the signals. *)
Definition request_of (i : Input) (id : Z) : option RequestIPC :=
  match i with
  | Call_getAccounts =>
      Some (mkRequestIPC id GetAccountRefs "personal_listAccounts" []
              default_index false)
  | Call_newAccount password index =>
      Some (mkRequestIPC id NewAccount "personal_newAccount"
              [JString password] index false)
  | Call_deleteAccount h password index =>
      Some (mkRequestIPC id DeleteAccount "personal_deleteAccount"
              [JString h; JString password] index false)
  | Call_getBlockNumber =>
      Some (mkRequestIPC id GetBlockNumber "eth_blockNumber" []
              default_index false)
  | Call_getPeerCount =>
      Some (mkRequestIPC id GetPeerCount "net_peerCount" []
              default_index false)
  | Call_sendTransaction from to value =>
      if (value <=? 0)%float then None
      else Some (sendTransaction_envelope from to value id)
  | Call_unlockAccount h password duration index =>
      Some (mkRequestIPC id UnlockAccount "personal_unlockAccount"
              [JString h; JString password;
               JString (toStr0xHex (Vin_ofInt duration))] index false)
  | Call_getGasPrice =>
      Some (mkRequestIPC id GetGasPrice "eth_gasPrice" []
              default_index false)
  | _ => None
  end.

End Envelopes.

(** The method each call type is sent under. *)
Definition method_of (t : RequestTypes) : string :=
  match t with
  | NewAccount => "personal_newAccount"
  | DeleteAccount => "personal_deleteAccount"
  | GetBlockNumber => "eth_blockNumber"
  | GetAccountRefs => "personal_listAccounts"
  | GetBalance => "eth_getBalance"
  | GetTransactionCount => "eth_getTransactionCount"
  | GetPeerCount => "net_peerCount"
  | SendTransaction => "eth_sendTransaction"
  | UnlockAccount => "personal_unlockAccount"
  | GetGasPrice => "eth_gasPrice"
  | NewPendingTransactionFilter => "eth_newPendingTransactionFilter"
  end.

(** An envelope as the four-argument constructor leaves it, under the
    method of its type. *)
Definition envelope_ok (r : RequestIPC) : Prop :=
  fEmpty r = false /\ fMethod r = method_of (fType r).

(** The value of [sCallID] after [n] constructions. *)
Definition next_id (n : nat) (id : Z) : Z :=
  Nat.iter n (fun z => wrap_int (z + 1)) id.

(** The call ids [n] successive constructions take, the first being [id]. *)
Fixpoint ids_from (id : Z) (n : nat) : list Z :=
  match n with
  | O => []
  | S n' => id :: ids_from (wrap_int (id + 1)) n'
  end.

(** Effects that neither enter [queueRequest] nor announce a peer count. *)
Definition quiet (e : Effect) : bool :=
  match e with
  | Queued _ | Emit (peerCountChanged _) => false
  | _ => true
  end.

(** [s'] is [s] after quiet effects, with the same next call id and the
    same stored peer count. *)
Definition still (s s' : EtherIPC) : Prop :=
  exists w : list Effect,
    trace s' = trace s ++ w
    /\ Forall (fun e => quiet e = true) w
    /\ sCallID s' = sCallID s
    /\ fPeerCount s' = fPeerCount s.

(** The history of a client that started with next call id [id0] and
    stored peer count [p0]: no peer count was announced, every envelope
    handed to [queueRequest] is a proper one, the envelopes carry the
    successive call ids from [id0] on, and the stored peer count is still
    [p0]. *)
Definition tidy (id0 p0 : Z) (s : EtherIPC) : Prop :=
  Forall (fun e => is_peerCountChanged e = false) (trace s)
  /\ Forall envelope_ok (queued (trace s))
  /\ map fCallID (queued (trace s))
     = ids_from id0 (length (queued (trace s)))
  /\ sCallID s = next_id (length (queued (trace s))) id0
  /\ fPeerCount s = p0.

(** ** What the handler of a call reports *)

Section Completion.

Context {bigint : BigInt}.

(** The calls whose handler only reports the result. *)
Definition plain_call (t : RequestTypes) : bool :=
  match t with
  | NewAccount | DeleteAccount | GetBlockNumber | SendTransaction
  | UnlockAccount | GetGasPrice | NewPendingTransactionFilter => true
  | GetAccountRefs | GetBalance | GetTransactionCount | GetPeerCount => false
  end.

(** The number a reply carries, as [readNumber] decodes it. *)
Definition number_of (v : QJsonValue) : Z :=
  toUlong (Vin_ofString (QString_remove0 2 (toString v "0x0")) 16).

(** The signal the handler of the active call emits for the result [v]. *)
Definition reported (s : EtherIPC) (v : QJsonValue) : list Signal :=
  match fType (fActiveRequest s) with
  | NewAccount => [newAccountDone (toString v "") (fIndex (fActiveRequest s))]
  | DeleteAccount =>
      [deleteAccountDone (toBool v false) (fIndex (fActiveRequest s))]
  | GetBlockNumber => [getBlockNumberDone (number_of v)]
  | SendTransaction => [sendTransactionDone (toString v "")]
  | UnlockAccount =>
      [unlockAccountDone (toBool v false) (fIndex (fActiveRequest s))]
  | GetGasPrice => [getGasPriceDone (toDecStr s v)]
  | _ => []
  end.

End Completion.

(** ** Connecting *)

(** The envelope [newPendingTransactionFilter] builds when it takes call
    id [id]. *)
Definition filter_request (id : Z) : RequestIPC :=
  mkRequestIPC id NewPendingTransactionFilter
    "eth_newPendingTransactionFilter" [] default_index false.

(** The calls of the interface that build an envelope. *)
Definition is_request {bigint : BigInt} (i : Input) : bool :=
  match request_of i 0 with Some _ => true | None => false end.

(** What a client with a call in flight can receive without the socket
    changing state: a call of the interface that builds an envelope, or
    data. *)
Definition call_or_data {bigint : BigInt} (i : Input) : bool :=
  is_request i || match i with Sig_readyRead _ => true | _ => false end.

(** ** More concrete clients *)

(** The sample client connecting, with a gas-price call queued meanwhile. *)
Definition connecting_client : EtherIPC :=
  @run SpecCodec.codec sample_indet new_client
    [Call_connectToServer "geth.ipc"; Call_getGasPrice].

(** The sample client connected with its filter installed, idle. *)
Definition ready_client : EtherIPC :=
  @run SpecCodec.codec sample_indet new_client
    [Call_connectToServer "geth.ipc"; Sig_connected;
     Sig_readyRead (reply 0 (JString "0x1"))].

(** A client awaiting the reply to a gas-price call while a block-number
    call is pending, its socket no longer connected. *)
Definition cut_off_client : EtherIPC :=
  set_sock_state UnconnectedState
    (@run SpecCodec.codec sample_indet ready_client
       [Call_getGasPrice; Call_getBlockNumber]).

(** The sample client connected, awaiting the reply to a gas-price call. *)
Definition gas_price_client : EtherIPC :=
  @run SpecCodec.codec sample_indet ready_client [Call_getGasPrice].

(** ** Data that arrives while no call is active *)

(** [onSocketReadyRead] does not test whether a call is active. When none
    is, it dispatches on the type of the empty request and [readReply]
    compares with its call id: the members that [RequestIPC()] leaves
    uninitialised. [stray_listing s data] says that [data], arriving at the
    idle client [s], is taken for the reply to a listing call, and that its
    result has entries. *)
Definition stray_listing (s : EtherIPC) (data : Received) : bool :=
  fEmpty (fActiveRequest s)
  && match fType (fActiveRequest s) with
     | GetAccountRefs => true
     | _ => false
     end
  && fst (fst (readReply data s))
  && match toArray (snd (fst (readReply data s))) with
     | [] => false
     | _ :: _ => true
     end.

(** What the socket and the daemon can deliver: as [enabled], but data may
    also reach a client with no call active (the late reply to a call that
    [bail] dropped), unless it is a stray listing. *)
Definition deliverable (s : EtherIPC) (i : Input) : bool :=
  match i with
  | Sig_readyRead data =>
      LocalSocketState_eqb (sock_state (fSocket s)) ConnectedState
      && negb (stray_listing s data)
  | _ => enabled s i
  end.

Section Tolerated.

Context {bigint : BigInt}.
Variable indet : Indeterminate.

(** Every input of the run is deliverable when it arrives. *)
Fixpoint tolerated (s : EtherIPC) (inputs : list Input) : bool :=
  match inputs with
  | [] => true
  | i :: rest => deliverable s i && tolerated (step indet s i) rest
  end.

End Tolerated.

(** ** Runs without a failure *)

(** Effects that record no failure: no [error] signal, no write that the
    transport refused. *)
Definition unfailing (e : Effect) : bool :=
  match e with
  | Emit (error _ _) => false
  | SockWrite _ sent => 0 <? sent
  | _ => true
  end.
Definition clean (tr : list Effect) : bool := forallb unfailing tr.

(** As long as nothing failed, what was handed to [queueRequest] is what
    the transport accepted followed by what is pending. *)
Definition complete (s : EtherIPC) : Prop :=
  clean (trace s) = true ->
  map methodToJSON (queued (trace s))
  = written (trace s) ++ map methodToJSON (fRequestQueue s).

(** The call in flight is the active call, and its request is the last
    one written. *)
Definition active_in_flight (s : EtherIPC) : Prop :=
  in_flight (trace s) = true ->
  last (written (trace s)) = Some (methodToJSON (fActiveRequest s)).

Definition faithful (s : EtherIPC) : Prop :=
  complete s /\ active_in_flight s.

(** Complete, with the reply read or the call dropped, on a connected
    socket: the state in which a handler calls [done]. *)
Definition ready (s : EtherIPC) : Prop :=
  complete s
  /\ in_flight (trace s) = false
  /\ sock_state (fSocket s) = ConnectedState.

(** ** A listing reply and what is pending *)

(** A pending call whose handler only reports the result. *)
Definition plain_pending (r : RequestIPC) : Prop :=
  plain_call (fType r) = true /\ in_int (fCallID r) = true.

(** The two addresses of the listing reply. *)
Definition two_accounts : QJsonArray := [JString "0xA"; JString "0xB"].

Section Announced.

Context {bigint : BigInt}.
Variable indet : Indeterminate.

(** "Processing a ListAccounts reply with these addresses, the
    accountsReadyEvent is emitted exactly once": when the reply and then
    the replies [results] to the calls pending have been processed,
    [getAccountsDone] has been emitted once. *)
Definition listing_announced_once (s : EtherIPC) (results : list QJsonValue)
  : Prop :=
  getAccountsDone_count
    (trace (answers indet (answer indet s (JArray two_accounts)) results))
  = S (getAccountsDone_count (trace s)).

End Announced.

(** ** Further concrete clients *)

(** The sample client with two listing calls made in a row: the first
    awaits its reply, the second is pending. *)
Definition double_listing_client : EtherIPC :=
  @run SpecCodec.codec sample_indet new_client
    [Call_connectToServer "geth.ipc"; Sig_connected;
     Sig_readyRead (reply 0 (JString "0x1"));
     Call_getAccounts; Call_getAccounts].

(** The replies to the second listing call and to the eight follow-up
    calls of the two. *)
Definition double_listing_results : list QJsonValue :=
  [JArray two_accounts;
   JString "0x5"; JString "0x1"; JString "0x6"; JString "0x2";
   JString "0x5"; JString "0x1"; JString "0x6"; JString "0x2"].

(** The uninitialised members of an empty request holding what a listing
    call with call id 1 had. *)
Definition stale_indet : Indeterminate := mkIndeterminate 1 GetAccountRefs (-1).

(** A client just constructed, with these members. *)
Definition stale_client : EtherIPC :=
  mkEtherIPC (sample_socket UnconnectedState) "" "" 0
    (RequestIPC_none stale_indet) [] [] 0 0 "."%char 0 [].

(** A listing call is written; a transaction with no value is refused,
    which drops the listing call. *)
Definition listing_dropped : list Input :=
  [Call_connectToServer "geth.ipc"; Sig_connected;
   Sig_readyRead (reply 0 (JString "0x1"));
   Call_getAccounts;
   Call_sendTransaction "0xA" "0xB" 0%float].

(** The daemon's reply to the listing call, which arrives all the same. *)
Definition late_listing : Received := reply 1 (JArray [JString "0xA"]).

(** A block-number call is written; a transaction with no value is
    refused, which drops it; a gas-price call is written; the daemon's
    replies to both arrive, the second at an idle client. *)
Definition late_replies : list Input :=
  [Call_connectToServer "geth.ipc"; Sig_connected;
   Sig_readyRead (reply 0 (JString "0x1"));
   Call_getBlockNumber;
   Call_sendTransaction "0xA" "0xB" 0%float;
   Call_getGasPrice;
   Sig_readyRead (reply 1 (JString "0x10"));
   Sig_readyRead (reply 2 (JString "0x3b9aca00"))].

(** Two calls on the connected client and nothing failing: the
    block-number call is written, the gas-price call waits. *)
Definition two_calls : list Input :=
  [Call_connectToServer "geth.ipc"; Sig_connected;
   Sig_readyRead (reply 0 (JString "0x1"));
   Call_getBlockNumber; Call_getGasPrice].

(** ** When the accounts are announced *)

(** The emitting condition of [handleAccountTransactionCount]: the active
    call is a transaction-count call, its reply [data] is accepted, and its
    index + 1 is the length of the account list. *)
Definition announces (s : EtherIPC) (data : Received) : bool :=
  match fType (fActiveRequest s) with
  | GetTransactionCount =>
      fst (fst (readReply data s))
      && (wrap_int (fIndex (fActiveRequest s) + 1)
          =? Z.of_nat (length (fAccountList s)))
  | _ => false
  end.

(** The calls whose accepted reply makes [done] move on with the account
    list as long as it was: every dispatched call but the listing call. *)
Definition advancing (t : RequestTypes) : bool :=
  match t with
  | GetAccountRefs | GetPeerCount => false
  | _ => true
  end.

Section Updated.

Context {bigint : BigInt}.

(** The account list after the handler of the active call took the result
    [v]: a balance or a transaction count goes to the record at the call's
    index. *)
Definition updated (s : EtherIPC) (v : QJsonValue) : list AccountInfo :=
  match fType (fActiveRequest s) with
  | GetBalance =>
      QList_modify (fIndex (fActiveRequest s)) (setBalance (toDecStr s v))
        (fAccountList s)
  | GetTransactionCount =>
      QList_modify (fIndex (fActiveRequest s))
        (setTransactionCount (number_of v)) (fAccountList s)
  | _ => fAccountList s
  end.

End Updated.

(** The sample client awaiting the reply to a listing call, with a
    gas-price call pending. *)
Definition listing_with_pending_client : EtherIPC :=
  @run SpecCodec.codec sample_indet listing_client [Call_getGasPrice].

(** * Properties *)

#[local] Arguments written : simpl never.
#[local] Arguments queued : simpl never.
#[local] Arguments in_flight : simpl never.
#[local] Arguments one_at_a_time : simpl never.
#[local] Arguments getAccountsDone_count : simpl never.
#[local] Arguments methodToJSON : simpl never.
#[local] Arguments wrap_int : simpl never.
#[local] Arguments bail : simpl never.
#[local] Arguments done : simpl never.
#[local] Arguments queueRequest : simpl never.
#[local] Arguments writeRequest : simpl never.
#[local] Arguments readReply : simpl never.
#[local] Arguments readNumber : simpl never.

Section Queue.

Context {bigint : BigInt}.
Variable indet : Indeterminate.

(** ** [bail] *)

(** C2. After [bail] no call is active, nothing is pending and [getBusy] is
    false; it has emitted one [error] carrying the stored [fError] and
    [fCode], one [connectionStateChanged] and the closing
    [busyChanged(false)], and nothing else: the pending calls are dropped
    without a write, and the socket is not touched. *)
Theorem C2_bail_leaves_queue_idle (s : EtherIPC) :
  fEmpty (fActiveRequest (bail indet s)) = true
  /\ fRequestQueue (bail indet s) = []
  /\ getBusy (bail indet s) = false
  /\ trace (bail indet s)
     = trace s ++ [Emit (error (fError s) (fCode s));
                   Emit connectionStateChanged;
                   Emit (busyChanged false)]
  /\ written (trace (bail indet s)) = written (trace s)
  /\ fSocket (bail indet s) = fSocket s.
Proof.
  unfold bail, done, getBusy, emit, effect. cbn.
  repeat split.
  - rewrite <- !app_assoc. reflexivity.
  - unfold written. rewrite !flat_map_app. cbn. rewrite !app_nil_r. reflexivity.
Qed.

(** ** [queueRequest] *)

Lemma written_app (a b : list Effect) : written (a ++ b) = written a ++ written b.
Proof. unfold written. apply flat_map_app. Qed.

Lemma queued_app (a b : list Effect) : queued (a ++ b) = queued a ++ queued b.
Proof. unfold queued. apply flat_map_app. Qed.

(** C3. [queueRequest] of an envelope. With no call active the envelope
    becomes the active call, [busyChanged(true)] is emitted and the request
    is written at once: the result is that of the write, true exactly when
    the socket was writable and [write] returned a positive count, in which
    case the transport has the message, and false otherwise. With a call
    active the envelope goes to the end of the pending queue, the result is
    true, and the socket is not touched. *)
Theorem C3_queueRequest_writes_or_appends (request : RequestIPC) (s : EtherIPC) :
  fEmpty request = false ->
  (fEmpty (fActiveRequest s) = true ->
     fActiveRequest (snd (queueRequest request s)) = request
     /\ getBusy (snd (queueRequest request s)) = true
     /\ fRequestQueue (snd (queueRequest request s)) = fRequestQueue s
     /\ fst (queueRequest request s) = fst (writeRequest (emit (busyChanged true) (set_fActiveRequest request (effect (Queued request) s))))
     /\ fst (queueRequest request s)
        = isWritable (fSocket s)
          && negb (sock_sent (fSocket s) (sock_writes (fSocket s)) <=? 0)
     /\ trace (snd (queueRequest request s))
        = trace s
          ++ [Queued request; Emit (busyChanged true)]
          ++ (if isWritable (fSocket s)
              then [SockWrite (methodToJSON request)
                      (sock_sent (fSocket s) (sock_writes (fSocket s)))]
              else [])
     /\ written (trace (snd (queueRequest request s)))
        = written (trace s)
          ++ (if fst (queueRequest request s)
              then [methodToJSON request] else []))
  /\ (fEmpty (fActiveRequest s) = false ->
       fst (queueRequest request s) = true
       /\ fActiveRequest (snd (queueRequest request s)) = fActiveRequest s
       /\ fRequestQueue (snd (queueRequest request s))
          = fRequestQueue s ++ [request]
       /\ trace (snd (queueRequest request s)) = trace s ++ [Queued request]
       /\ fSocket (snd (queueRequest request s)) = fSocket s).
Proof.
  intros Hreq. split; intros Hact.
  - unfold queueRequest. cbn. rewrite Hact.
    unfold writeRequest, getBusy. cbn. rewrite Hreq. cbn.
    destruct (isWritable (fSocket s)) eqn:Hw; cbn.
    + destruct (sock_sent (fSocket s) (sock_writes (fSocket s)) <=? 0) eqn:Hs;
        cbn; rewrite <- ?app_assoc; repeat split;
        try reflexivity; try (rewrite Hreq; reflexivity);
        rewrite !written_app; f_equal; unfold written; cbn;
        rewrite Z.ltb_antisym, Hs; reflexivity.
    + rewrite <- ?app_assoc. repeat split;
        try reflexivity; try (rewrite Hreq; reflexivity).
      rewrite !written_app. unfold written at 2 3. cbn.
      rewrite ?app_nil_r. reflexivity.
  - unfold queueRequest. cbn. rewrite Hact. cbn. repeat split.
Qed.

(** ** The trace under extension *)

Lemma in_flight_app (a b : list Effect) :
  in_flight (a ++ b) = fold_left in_flight_after b (in_flight a).
Proof. unfold in_flight. apply fold_left_app. Qed.

Lemma one_at_a_time_from_app (b : bool) (tr w : list Effect) :
  one_at_a_time_from b (tr ++ w)
  = one_at_a_time_from b tr
    && one_at_a_time_from (fold_left in_flight_after tr b) w.
Proof.
  revert b. induction tr as [|e tr IH]; intros b; cbn.
  - reflexivity.
  - rewrite IH, andb_assoc. reflexivity.
Qed.

Lemma one_at_a_time_app (tr w : list Effect) :
  one_at_a_time (tr ++ w)
  = one_at_a_time tr && one_at_a_time_from (in_flight tr) w.
Proof. unfold one_at_a_time. apply one_at_a_time_from_app. Qed.

Lemma written_passive (w : list Effect) : all_passive w -> written w = [].
Proof.
  induction 1 as [|e w He _ IH]; [reflexivity|].
  change (written (e :: w)) with (written_of e ++ written w).
  rewrite IH. destruct e; try discriminate He; reflexivity.
Qed.

Lemma queued_passive (w : list Effect) : all_passive w -> queued w = [].
Proof.
  induction 1 as [|e w He _ IH]; [reflexivity|].
  change (queued (e :: w)) with (queued_of e ++ queued w).
  rewrite IH. destruct e; try discriminate He; reflexivity.
Qed.

Lemma one_at_a_time_passive (b : bool) (w : list Effect) :
  all_passive w -> one_at_a_time_from b w = true.
Proof.
  intros H. revert b. induction H as [|e w He _ IH]; intros b; cbn.
  - reflexivity.
  - rewrite IH. destruct e; try discriminate He; reflexivity.
Qed.

Lemma in_flight_passive (b : bool) (w : list Effect) :
  all_passive w -> fold_left in_flight_after w b = true -> b = true.
Proof.
  intros H. revert b. induction H as [|e w He _ IH]; intros b; cbn.
  - trivial.
  - intros Hf. apply IH in Hf.
    destruct e as [sig| | | | |]; try discriminate He; cbn in Hf;
      try assumption; try discriminate Hf.
    destruct sig; cbn in Hf; try assumption; discriminate Hf.
Qed.

(** ** Frames *)

Lemma frame_trans (s1 s2 s3 : EtherIPC) (w w' : list Effect) :
  frame s1 s2 w -> frame s2 s3 w' -> frame s1 s3 (w ++ w').
Proof.
  intros (Ht & Ha & Hq & Hl & Hs) (Ht' & Ha' & Hq' & Hl' & Hs').
  unfold frame. rewrite Ht', Ht, Ha', Ha, Hq', Hq, Hl', Hl, Hs', Hs.
  rewrite app_assoc. auto.
Qed.

Lemma frame_effect (e : Effect) (s : EtherIPC) : frame s (effect e s) [e].
Proof. unfold frame. cbn. auto. Qed.

Lemma frame_emit (sig : Signal) (s : EtherIPC) : frame s (emit sig s) [Emit sig].
Proof. apply frame_effect. Qed.

Lemma frame_same (s s' : EtherIPC) :
  trace s' = trace s -> fActiveRequest s' = fActiveRequest s ->
  fRequestQueue s' = fRequestQueue s -> fAccountList s' = fAccountList s ->
  sock_state (fSocket s') = sock_state (fSocket s) -> frame s s' [].
Proof. intros. unfold frame. rewrite app_nil_r. auto. Qed.

Lemma frame_queue_sound (s s' : EtherIPC) (w : list Effect) :
  frame s s' w -> all_passive w -> queue_sound s -> queue_sound s'.
Proof.
  intros (Ht & Ha & Hq & Hl & Hs) Hw ((taken & HE & Hsub) & Hone & Hne).
  unfold queue_sound, ordered. rewrite Ht, Hq, written_app, queued_app,
    one_at_a_time_app, (written_passive w Hw), (queued_passive w Hw),
    (one_at_a_time_passive _ w Hw), Hone, !app_nil_r.
  split; [exists taken|]; auto.
Qed.

Lemma frame_in_flight (s s' : EtherIPC) (w : list Effect) :
  frame s s' w -> all_passive w ->
  in_flight (trace s') = true -> in_flight (trace s) = true.
Proof.
  intros (Ht & _) Hw. rewrite Ht, in_flight_app. apply in_flight_passive, Hw.
Qed.

Lemma frame_settled (s s' : EtherIPC) (w : list Effect) :
  frame s s' w -> all_passive w -> settled s -> settled s'.
Proof.
  intros Hf Hw [Hq Hi]. split.
  - eapply frame_queue_sound; eauto.
  - destruct (in_flight (trace s')) eqn:E; [|reflexivity].
    apply (frame_in_flight _ _ _ Hf Hw) in E. congruence.
Qed.

Lemma frame_consistent (s s' : EtherIPC) (w : list Effect) :
  frame s s' w -> all_passive w -> consistent s -> consistent s'.
Proof.
  intros Hf Hw (Hq & Hi & He). pose proof Hf as (Ht & Ha & Hqq & Hl & Hs).
  split; [eapply frame_queue_sound; eauto|]. split.
  - intros E. apply (frame_in_flight _ _ _ Hf Hw) in E.
    rewrite Hs, Ha. auto.
  - rewrite Ha, Hqq. exact He.
Qed.

(** A read of the socket ends what was in flight. *)
Lemma frame_read (s s' : EtherIPC) (data : Received) :
  frame s s' [SockRead data] -> queue_sound s -> settled s'.
Proof.
  intros Hf Hq. split.
  - eapply frame_queue_sound; eauto. repeat constructor.
  - destruct Hf as (Ht & _). rewrite Ht, in_flight_app. reflexivity.
Qed.

(** ** Frames of the primitive operations *)

Lemma frame_readReply (data : Received) (s : EtherIPC) :
  frame s (snd (readReply data s)) [SockRead data].
Proof.
  unfold readReply. destruct data as [| e | doc]; cbn.
  - unfold frame; cbn; auto.
  - unfold frame; cbn; auto.
  - destruct (negb _); [unfold frame; cbn; auto|].
    destruct (_ || _); [|unfold frame; cbn; auto].
    destruct (contains (toObject doc) "error"); [|unfold frame; cbn; auto].
    destruct (contains _ "message"), (contains _ "code");
      unfold frame; cbn; auto.
Qed.

Lemma frame_readNumber (data : Received) (s : EtherIPC) :
  frame s (snd (readNumber data s)) [SockRead data].
Proof.
  unfold readNumber. pose proof (frame_readReply data s) as H.
  destruct (readReply data s) as [[ok jv] s1]. cbn in H.
  destruct ok; cbn; exact H.
Qed.

Lemma frame_RequestIPC_new type method params index (s : EtherIPC) :
  frame s (snd (RequestIPC_new type method params index s)) [].
Proof. apply frame_same; reflexivity. Qed.

Lemma fEmpty_RequestIPC_new type method params index (s : EtherIPC) :
  fEmpty (fst (RequestIPC_new type method params index s)) = false.
Proof. reflexivity. Qed.

(** ** [writeRequest], [done], [bail], [queueRequest] keep the queue consistent *)

Lemma sublist_snoc_same {A} (l k : list A) (x : A) :
  sublist l k -> sublist (l ++ [x]) (k ++ [x]).
Proof. intros H. apply sublist_app; [exact H | reflexivity]. Qed.

Lemma queued_one (e : Effect) : queued [e] = queued_of e.
Proof. unfold queued. cbn. apply app_nil_r. Qed.

Lemma written_one (e : Effect) : written [e] = written_of e.
Proof. unfold written. cbn. apply app_nil_r. Qed.

Ltac trace_simpl :=
  rewrite <- ?app_assoc;
  rewrite ?queued_app, ?written_app, ?queued_one, ?written_one,
    ?one_at_a_time_app, ?in_flight_app;
  cbn [queued_of written_of app one_at_a_time_from fold_left in_flight_after
       andb negb];
  rewrite ?app_nil_r.

Lemma consistent_intro (s : EtherIPC) (taken : list RequestIPC) :
  queued (trace s) = taken ++ fRequestQueue s ->
  sublist (written (trace s)) (map methodToJSON taken) ->
  one_at_a_time (trace s) = true ->
  Forall (fun r => fEmpty r = false) (fRequestQueue s) ->
  (in_flight (trace s) = true ->
   sock_state (fSocket s) = ConnectedState
   /\ fEmpty (fActiveRequest s) = false) ->
  (fEmpty (fActiveRequest s) = true -> fRequestQueue s = []) ->
  consistent s.
Proof. intros. repeat split; auto; try (exists taken; auto); apply H3; auto. Qed.

Lemma settled_intro (s : EtherIPC) (taken : list RequestIPC) :
  queued (trace s) = taken ++ fRequestQueue s ->
  sublist (written (trace s)) (map methodToJSON taken) ->
  one_at_a_time (trace s) = true ->
  Forall (fun r => fEmpty r = false) (fRequestQueue s) ->
  in_flight (trace s) = false ->
  settled s.
Proof. intros. repeat split; auto. exists taken; auto. Qed.

Lemma writeRequest_consistent (s : EtherIPC) (taken : list RequestIPC) :
  queued (trace s) = taken ++ fActiveRequest s :: fRequestQueue s ->
  sublist (written (trace s)) (map methodToJSON taken) ->
  one_at_a_time (trace s) = true ->
  Forall (fun r => fEmpty r = false) (fRequestQueue s) ->
  in_flight (trace s) = false ->
  fEmpty (fActiveRequest s) = false ->
  consistent (snd (writeRequest s))
  /\ fActiveRequest (snd (writeRequest s)) = fActiveRequest s
  /\ fRequestQueue (snd (writeRequest s)) = fRequestQueue s
  /\ fAccountList (snd (writeRequest s)) = fAccountList s
  /\ sock_state (fSocket (snd (writeRequest s))) = sock_state (fSocket s).
Proof.
  intros HE Hsub Hone Hne Hfl Hbusy.
  assert (HE' : queued (trace s)
                = (taken ++ [fActiveRequest s]) ++ fRequestQueue s)
    by (rewrite <- app_assoc; exact HE).
  assert (Hsub' : sublist (written (trace s))
                    (map methodToJSON (taken ++ [fActiveRequest s])))
    by (rewrite map_app; apply sublist_inserts_r, Hsub).
  unfold writeRequest.
  destruct (isWritable (fSocket s)) eqn:Hw; cbn.
  2:{ split; [|auto].
      apply consistent_intro with (taken := taken ++ [fActiveRequest s]);
        cbn; auto; congruence. }
  assert (Hconn : sock_state (fSocket s) = ConnectedState).
  { unfold isWritable in Hw. destruct (sock_state (fSocket s));
      try discriminate Hw; reflexivity. }
  set (sent := sock_sent (fSocket s) (sock_writes (fSocket s))).
  assert (Hall : consistent
            (effect (SockWrite (methodToJSON (fActiveRequest s)) sent)
               (set_fSocket
                  (mkQLocalSocket (sock_state (fSocket s))
                     (sock_errorString (fSocket s)) (sock_sent (fSocket s))
                     (S (sock_writes (fSocket s)))) s))).
  { apply consistent_intro with (taken := taken ++ [fActiveRequest s]);
      cbn; auto; try congruence.
    - rewrite queued_app. unfold queued at 2. cbn.
      rewrite app_nil_r. exact HE'.
    - rewrite written_app. unfold written at 2. cbn.
      destruct (0 <? sent).
      + rewrite map_app. cbn. apply sublist_snoc_same, Hsub.
      + cbn. rewrite app_nil_r. exact Hsub'.
    - rewrite one_at_a_time_app, Hone, Hfl. reflexivity. }
  destruct (sent <=? 0); cbn; (split; [apply Hall | auto]).
Qed.

Lemma done_consistent (s : EtherIPC) : settled s -> consistent (done indet s).
Proof.
  intros [((taken & HE & Hsub) & Hone & Hne) Hfl]. unfold done.
  destruct (fRequestQueue s) as [|first rest] eqn:Hq.
  - eapply frame_consistent; [apply frame_emit | repeat constructor |].
    apply consistent_intro with (taken := taken); cbn; auto; try congruence.
  - inversion Hne; subst.
    apply writeRequest_consistent with (taken := taken); cbn; auto.
Qed.

Lemma bail_consistent (s : EtherIPC) : queue_sound s -> consistent (bail indet s).
Proof.
  intros ((taken & HE & Hsub) & Hone & Hne).
  unfold bail. apply done_consistent.
  apply settled_intro with (taken := taken ++ fRequestQueue s); cbn.
  - rewrite <- !app_assoc, queued_app. unfold queued at 2. cbn.
    rewrite !app_nil_r. exact HE.
  - rewrite <- !app_assoc, written_app. unfold written at 2. cbn.
    rewrite !app_nil_r, map_app. apply sublist_inserts_r, Hsub.
  - rewrite <- !app_assoc, one_at_a_time_app, Hone. reflexivity.
  - constructor.
  - rewrite <- !app_assoc, in_flight_app. reflexivity.
Qed.

Lemma queueRequest_consistent (r : RequestIPC) (s : EtherIPC) :
  fEmpty r = false -> consistent s -> consistent (snd (queueRequest r s)).
Proof.
  intros Hr (((taken & HE & Hsub) & Hone & Hne) & Hfl & Hidle).
  unfold queueRequest. cbn.
  destruct (fEmpty (fActiveRequest s)) eqn:Hact.
  - specialize (Hidle eq_refl).
    assert (Hfl' : in_flight (trace s) = false).
    { destruct (in_flight (trace s)); [|reflexivity].
      destruct (Hfl eq_refl); congruence. }
    apply writeRequest_consistent with (taken := taken); cbn.
    + trace_simpl. rewrite HE, Hidle, app_nil_r. reflexivity.
    + trace_simpl. exact Hsub.
    + trace_simpl. rewrite Hone. reflexivity.
    + rewrite Hidle. constructor.
    + trace_simpl. exact Hfl'.
    + exact Hr.
  - cbn. apply consistent_intro with (taken := taken); cbn; try congruence.
    + rewrite queued_app, HE. unfold queued at 1. cbn.
      rewrite <- app_assoc. reflexivity.
    + rewrite written_app. unfold written at 2. cbn.
      rewrite app_nil_r. exact Hsub.
    + rewrite one_at_a_time_app, Hone. reflexivity.
    + apply Forall_app. split; [exact Hne | repeat constructor; exact Hr].
    + rewrite in_flight_app. cbn. rewrite Hact. exact Hfl.
Qed.

(** While a call is active [queueRequest] only appends. *)
Lemma queueRequest_busy (r : RequestIPC) (s : EtherIPC) :
  fEmpty (fActiveRequest s) = false ->
  fst (queueRequest r s) = true
  /\ trace (snd (queueRequest r s)) = trace s ++ [Queued r]
  /\ fActiveRequest (snd (queueRequest r s)) = fActiveRequest s
  /\ fRequestQueue (snd (queueRequest r s)) = fRequestQueue s ++ [r]
  /\ fAccountList (snd (queueRequest r s)) = fAccountList s
  /\ sock_state (fSocket (snd (queueRequest r s))) = sock_state (fSocket s)
  /\ (fEmpty r = false -> settled s -> settled (snd (queueRequest r s))).
Proof.
  intros Hact. unfold queueRequest. cbn. rewrite Hact. cbn.
  repeat (split; [reflexivity|]).
  intros Hr [((taken & HE & Hsub) & Hone & Hne) Hfl].
  apply settled_intro with (taken := taken); cbn.
  - rewrite queued_app, HE. unfold queued at 1. cbn.
    rewrite <- app_assoc. reflexivity.
  - rewrite written_app. unfold written at 2. cbn.
    rewrite app_nil_r. exact Hsub.
  - rewrite one_at_a_time_app, Hone. reflexivity.
  - apply Forall_app. split; [exact Hne | repeat constructor; exact Hr].
  - rewrite in_flight_app. cbn. exact Hfl.
Qed.

(** ** The handlers keep the queue consistent *)

Lemma settled_ext (s s' : EtherIPC) :
  trace s' = trace s -> fRequestQueue s' = fRequestQueue s ->
  settled s -> settled s'.
Proof.
  intros Ht Hq [((taken & HE & Hsub) & Hone & Hne) Hfl].
  apply settled_intro with (taken := taken); rewrite ?Ht, ?Hq; assumption.
Qed.

Lemma consistent_ext (s s' : EtherIPC) :
  trace s' = trace s -> fRequestQueue s' = fRequestQueue s ->
  fActiveRequest s' = fActiveRequest s ->
  sock_state (fSocket s') = sock_state (fSocket s) ->
  consistent s -> consistent s'.
Proof.
  intros Ht Hq Ha Hs (((taken & HE & Hsub) & Hone & Hne) & Hfl & Hidle).
  apply consistent_intro with (taken := taken);
    rewrite ?Ht, ?Hq, ?Ha, ?Hs; assumption.
Qed.

Lemma settled_emit (sig : Signal) (s : EtherIPC) :
  settled s -> settled (emit sig s).
Proof.
  intros [((taken & HE & Hsub) & Hone & Hne) Hfl].
  apply settled_intro with (taken := taken); cbn; trace_simpl; auto.
  - rewrite Hone. reflexivity.
  - rewrite Hfl. destruct sig; reflexivity.
Qed.

Lemma settled_queue_sound (s : EtherIPC) : settled s -> queue_sound s.
Proof. intros [H _]. exact H. Qed.

Lemma consistent_queue_sound (s : EtherIPC) : consistent s -> queue_sound s.
Proof. intros [H _]. exact H. Qed.

(** After the reply has been read: [bail], or some signals and [done]. *)
Ltac after_read :=
  first
    [ apply bail_consistent, settled_queue_sound; assumption
    | apply done_consistent;
      repeat first
        [ assumption
        | apply settled_emit
        | eapply settled_ext; [reflexivity | reflexivity |] ] ].

Ltac read_reply data s Hq :=
  let Hs := fresh "Hs" in
  let ok := fresh "ok" in
  pose proof (frame_read _ _ _ (frame_readReply data s) Hq) as Hs;
  destruct (readReply data s) as [[ok ?jv] ?s1]; cbn [snd] in Hs;
  destruct ok; cbn [negb].

Ltac read_number data s Hq :=
  let Hs := fresh "Hs" in
  pose proof (frame_read _ _ _ (frame_readNumber data s) Hq) as Hs;
  destruct (readNumber data s) as [[?result|] ?s1]; cbn [snd] in Hs.

Lemma handleNewAccount_consistent data s :
  queue_sound s -> consistent (handleNewAccount indet data s).
Proof. intros Hq. unfold handleNewAccount. read_reply data s Hq; after_read. Qed.

Lemma handleDeleteAccount_consistent data s :
  queue_sound s -> consistent (handleDeleteAccount indet data s).
Proof. intros Hq. unfold handleDeleteAccount. read_reply data s Hq; after_read. Qed.

Lemma handleSendTransaction_consistent data s :
  queue_sound s -> consistent (handleSendTransaction indet data s).
Proof.
  intros Hq. unfold handleSendTransaction. read_reply data s Hq; after_read.
Qed.

Lemma handleUnlockAccount_consistent data s :
  queue_sound s -> consistent (handleUnlockAccount indet data s).
Proof. intros Hq. unfold handleUnlockAccount. read_reply data s Hq; after_read. Qed.

Lemma handleGetGasPrice_consistent data s :
  queue_sound s -> consistent (handleGetGasPrice indet data s).
Proof. intros Hq. unfold handleGetGasPrice. read_reply data s Hq; after_read. Qed.

Lemma handleAccountBalance_consistent data s :
  queue_sound s -> consistent (handleAccountBalance indet data s).
Proof.
  intros Hq. unfold handleAccountBalance. read_reply data s Hq; after_read.
Qed.

Lemma handleAccountTransactionCount_consistent data s :
  queue_sound s -> consistent (handleAccountTransactionCount indet data s).
Proof.
  intros Hq. unfold handleAccountTransactionCount.
  read_reply data s Hq; [|after_read].
  cbn. destruct (_ =? _); after_read.
Qed.

Lemma handleGetBlockNumber_consistent data s :
  queue_sound s -> consistent (handleGetBlockNumber indet data s).
Proof.
  intros Hq. unfold handleGetBlockNumber. read_number data s Hq; after_read.
Qed.

Lemma handleGetPeerCount_consistent data s :
  queue_sound s -> consistent (handleGetPeerCount indet data s).
Proof.
  intros Hq. unfold handleGetPeerCount. read_number data s Hq; after_read.
Qed.

Lemma handleNewPendingTransactionFilter_consistent data s :
  queue_sound s -> consistent (handleNewPendingTransactionFilter indet data s).
Proof.
  intros Hq. unfold handleNewPendingTransactionFilter.
  read_number data s Hq; after_read.
Qed.

Lemma handleAccountDetails_loop_busy (refs : QJsonArray) :
  forall (i : Z) (s : EtherIPC),
    fEmpty (fActiveRequest s) = false -> settled s ->
    fst (handleAccountDetails_loop refs i s) = true
    /\ settled (snd (handleAccountDetails_loop refs i s))
    /\ fActiveRequest (snd (handleAccountDetails_loop refs i s))
       = fActiveRequest s.
Proof.
  induction refs as [|r refs IH]; intros i s Hbusy Hs; cbn.
  - auto.
  - match goal with |- context [queueRequest ?q ?s'] =>
      destruct (queueRequest_busy q s' Hbusy)
        as (Hok & _ & Ha & _ & _ & _ & Hset);
      specialize (Hset eq_refl (settled_ext s s' eq_refl eq_refl Hs));
      destruct (queueRequest q s') as [ok s2]
    end.
    cbn [fst snd] in *. subst ok. cbn [negb].
    match goal with |- context [queueRequest ?q ?s'] =>
      assert (Hbusy2 : fEmpty (fActiveRequest s') = false)
        by (cbn; rewrite Ha; exact Hbusy);
      destruct (queueRequest_busy q s' Hbusy2)
        as (Hok & _ & Ha2 & _ & _ & _ & Hset2);
      specialize (Hset2 eq_refl (settled_ext s2 s' eq_refl eq_refl Hset));
      destruct (queueRequest q s') as [ok s3]
    end.
    cbn [fst snd] in *. subst ok. cbn [negb].
    assert (Hbusy3 : fEmpty (fActiveRequest s3) = false)
      by (rewrite Ha2; exact Hbusy2).
    destruct (IH (wrap_int (i + 1)) s3 Hbusy3 Hset2) as (H1 & H2 & H3).
    split; [exact H1|]. split; [exact H2|].
    rewrite H3, Ha2. cbn. rewrite Ha. reflexivity.
Qed.

Lemma handleAccountDetails_consistent data s :
  fEmpty (fActiveRequest s) = false -> queue_sound s ->
  consistent (handleAccountDetails indet data s).
Proof.
  intros Hbusy Hq. unfold handleAccountDetails.
  pose proof (frame_readReply data s) as (_ & Ha & _).
  read_reply data s Hq; [|after_read].
  cbn [snd] in Ha. rewrite <- Ha in Hbusy.
  destruct (handleAccountDetails_loop_busy (toArray jv) 0 s1 Hbusy Hs)
    as (H1 & H2 & _).
  destruct (handleAccountDetails_loop (toArray jv) 0 s1) as [ok s2].
  cbn [fst snd] in *. subst ok. cbn [negb]. after_read.
Qed.

Lemma onSocketReadyRead_consistent data s :
  fEmpty (fActiveRequest s) = false -> consistent s ->
  consistent (onSocketReadyRead indet data s).
Proof.
  intros Hbusy Hc. pose proof (consistent_queue_sound s Hc) as Hq.
  unfold onSocketReadyRead. destruct (fType (fActiveRequest s)).
  - apply handleNewAccount_consistent, Hq.
  - apply handleDeleteAccount_consistent, Hq.
  - apply handleGetBlockNumber_consistent, Hq.
  - apply handleAccountDetails_consistent; assumption.
  - apply handleAccountBalance_consistent, Hq.
  - apply handleAccountTransactionCount_consistent, Hq.
  - exact Hc.
  - apply handleSendTransaction_consistent, Hq.
  - apply handleUnlockAccount_consistent, Hq.
  - apply handleGetGasPrice_consistent, Hq.
  - apply handleNewPendingTransactionFilter_consistent, Hq.
Qed.

(** ** The calls of the interface keep the queue consistent *)

(** A call that builds one envelope, queues it and bails on failure. *)
Ltac queue_or_bail Hc :=
  cbn [RequestIPC_new];
  match goal with |- context [queueRequest ?r ?s'] =>
    let H := fresh "H" in
    assert (H : consistent (snd (queueRequest r s')))
      by (apply queueRequest_consistent; [reflexivity|];
          eapply consistent_ext; [| | | | exact Hc]; reflexivity);
    destruct (queueRequest r s') as [[|] ?s2]; cbn [snd negb] in *;
    [exact H | apply bail_consistent, consistent_queue_sound, H]
  end.

Lemma getAccounts_consistent s : consistent s -> consistent (getAccounts indet s).
Proof. intros Hc. unfold getAccounts. queue_or_bail Hc. Qed.

Lemma newAccount_consistent password index s :
  consistent s -> consistent (newAccount indet password index s).
Proof. intros Hc. unfold newAccount. queue_or_bail Hc. Qed.

Lemma deleteAccount_consistent h password index s :
  consistent s -> consistent (deleteAccount indet h password index s).
Proof. intros Hc. unfold deleteAccount. queue_or_bail Hc. Qed.

Lemma getBlockNumber_consistent s :
  consistent s -> consistent (getBlockNumber indet s).
Proof. intros Hc. unfold getBlockNumber. queue_or_bail Hc. Qed.

Lemma getPeerCount_consistent s :
  consistent s -> consistent (getPeerCount indet s).
Proof. intros Hc. unfold getPeerCount. queue_or_bail Hc. Qed.

Lemma getGasPrice_consistent s :
  consistent s -> consistent (getGasPrice indet s).
Proof. intros Hc. unfold getGasPrice. queue_or_bail Hc. Qed.

Lemma newPendingTransactionFilter_consistent s :
  consistent s -> consistent (newPendingTransactionFilter indet s).
Proof. intros Hc. unfold newPendingTransactionFilter. queue_or_bail Hc. Qed.

Lemma unlockAccount_consistent h password duration index s :
  consistent s -> consistent (unlockAccount indet h password duration index s).
Proof. intros Hc. unfold unlockAccount. queue_or_bail Hc. Qed.

Lemma sendTransaction_consistent from to value s :
  consistent s -> consistent (sendTransaction indet from to value s).
Proof.
  intros Hc. unfold sendTransaction. destruct (value <=? 0)%float.
  - apply bail_consistent. eapply frame_queue_sound;
      [apply frame_same; reflexivity | constructor |].
    apply consistent_queue_sound, Hc.
  - queue_or_bail Hc.
Qed.

(** ** Connecting and the signals of the socket *)

Lemma LocalSocketState_eqb_eq (a b : LocalSocketState) :
  LocalSocketState_eqb a b = true <-> a = b.
Proof. destruct a, b; cbn; split; congruence. Qed.

Lemma consistent_not_in_flight (s : EtherIPC) :
  consistent s -> sock_state (fSocket s) <> ConnectedState ->
  in_flight (trace s) = false.
Proof.
  intros (_ & Hfl & _) Hn. destruct (in_flight (trace s)); [|reflexivity].
  destruct (Hfl eq_refl). contradiction.
Qed.

Lemma queue_sound_ext (s s' : EtherIPC) (w : list Effect) :
  trace s' = trace s ++ w -> all_passive w ->
  fRequestQueue s' = fRequestQueue s ->
  queue_sound s -> queue_sound s'.
Proof.
  intros Ht Hw Hq ((taken & HE & Hsub) & Hone & Hne).
  unfold queue_sound, ordered. rewrite Ht, Hq, written_app, queued_app,
    one_at_a_time_app, (written_passive w Hw), (queued_passive w Hw),
    (one_at_a_time_passive _ w Hw), Hone, !app_nil_r.
  split; [exists taken|]; auto.
Qed.

Lemma connectToServer_consistent path s :
  consistent s -> consistent (connectToServer indet path s).
Proof.
  intros Hc. unfold connectToServer. cbn.
  destruct (LocalSocketState_eqb (sock_state (fSocket s)) UnconnectedState)
    eqn:Hst; cbn.
  - apply LocalSocketState_eqb_eq in Hst.
    assert (Hfl : in_flight (trace s) = false)
      by (apply consistent_not_in_flight; [exact Hc | congruence]).
    destruct Hc as (((taken & HE & Hsub) & Hone & Hne) & _ & _).
    apply consistent_intro with (taken := taken); cbn; trace_simpl; auto.
    + rewrite Hone. reflexivity.
    + rewrite Hfl. discriminate.
    + discriminate.
  - apply bail_consistent.
    eapply queue_sound_ext; [| | | apply consistent_queue_sound, Hc].
    + cbn. reflexivity.
    + repeat constructor.
    + reflexivity.
Qed.

Lemma connectedToServer_consistent s :
  consistent s -> sock_state (fSocket s) = ConnectingState ->
  consistent (connectedToServer indet (set_sock_state ConnectedState s)).
Proof.
  intros Hc Hst. unfold connectedToServer.
  assert (Hfl : in_flight (trace s) = false)
    by (apply consistent_not_in_flight; [exact Hc | congruence]).
  eapply frame_consistent; [apply frame_emit | repeat constructor |].
  eapply frame_consistent; [apply frame_emit | repeat constructor |].
  apply newPendingTransactionFilter_consistent, done_consistent.
  apply (settled_ext s); [reflexivity | reflexivity |].
  split; [apply consistent_queue_sound, Hc | exact Hfl].
Qed.

Lemma disconnectedFromServer_consistent s :
  consistent s -> consistent (disconnectedFromServer indet s).
Proof.
  intros Hc. unfold disconnectedFromServer. destruct (LocalSocketState_eqb _ _).
  - apply bail_consistent. eapply frame_queue_sound;
      [apply frame_same; reflexivity | constructor |].
    apply consistent_queue_sound, Hc.
  - exact Hc.
Qed.

Lemma disconnected_consistent s :
  consistent s ->
  consistent (disconnectedFromServer indet (set_sock_state UnconnectedState s)).
Proof.
  intros Hc. unfold disconnectedFromServer. cbn.
  apply bail_consistent.
  eapply queue_sound_ext; [| | | apply consistent_queue_sound, Hc].
  - cbn. symmetry. apply app_nil_r.
  - constructor.
  - reflexivity.
Qed.

Lemma socket_error_consistent errorString err s :
  consistent s -> consistent (step indet s (Sig_error errorString err)).
Proof.
  intros Hc. cbn.
  destruct (LocalSocketState_eqb (sock_state (fSocket s)) ConnectingState)
    eqn:Hst; cbn.
  - apply LocalSocketState_eqb_eq in Hst.
    assert (Hfl : in_flight (trace s) = false)
      by (apply consistent_not_in_flight; [exact Hc | congruence]).
    destruct Hc as (((taken & HE & Hsub) & Hone & Hne) & _ & Hidle).
    apply consistent_intro with (taken := taken); cbn; auto.
    rewrite Hfl. discriminate.
  - eapply consistent_ext; [| | | | exact Hc]; reflexivity.
Qed.

(** ** Every admissible run keeps the queue consistent *)

Lemma step_consistent (s : EtherIPC) (i : Input) :
  consistent s -> enabled s i = true -> consistent (step indet s i).
Proof.
  intros Hc He. destruct i; cbn [step].
  - apply connectToServer_consistent, Hc.
  - apply getAccounts_consistent, Hc.
  - apply newAccount_consistent, Hc.
  - apply deleteAccount_consistent, Hc.
  - apply getBlockNumber_consistent, Hc.
  - apply getPeerCount_consistent, Hc.
  - apply sendTransaction_consistent, Hc.
  - apply unlockAccount_consistent, Hc.
  - apply getGasPrice_consistent, Hc.
  - apply connectedToServer_consistent; [exact Hc|].
    apply LocalSocketState_eqb_eq, He.
  - apply disconnected_consistent, Hc.
  - apply socket_error_consistent, Hc.
  - cbn in He. apply andb_true_iff in He as [_ Hb].
    apply onSocketReadyRead_consistent; [|exact Hc].
    unfold getBusy in Hb. destruct (fEmpty (fActiveRequest s));
      [discriminate Hb | reflexivity].
  - apply disconnectedFromServer_consistent, Hc.
Qed.

Lemma run_consistent (inputs : list Input) :
  forall s : EtherIPC,
    consistent s -> admissible indet s inputs = true ->
    consistent (run indet s inputs).
Proof.
  induction inputs as [|i inputs IH]; intros s Hc Ha; cbn in *.
  - exact Hc.
  - apply andb_true_iff in Ha as [He Ha].
    apply IH; [apply step_consistent; assumption | exact Ha].
Qed.

Lemma fresh_consistent (s : EtherIPC) : fresh s -> consistent s.
Proof.
  intros (Ht & Ha & Hq & Hs).
  apply consistent_intro with (taken := []); rewrite ?Ht, ?Hq.
  - reflexivity.
  - constructor.
  - reflexivity.
  - constructor.
  - discriminate.
  - reflexivity.
Qed.

End Queue.

(** ** The decimal renderer *)

Section Renderer.

Lemma length_append (a b : string) :
  String.length (String.append a b) = (String.length a + String.length b)%nat.
Proof. induction a as [|c a IH]; cbn; [reflexivity | rewrite IH; reflexivity]. Qed.

Lemma length_QString_fill (n : nat) (ch : ascii) :
  String.length (QString_fill n ch) = n.
Proof. induction n as [|n IH]; cbn; [reflexivity | rewrite IH; reflexivity]. Qed.

Lemma QString_insert_split (ch : ascii) (pos : nat) :
  forall str : string,
    (pos <= String.length str)%nat ->
    exists whole frac : string,
      str = String.append whole frac
      /\ String.length whole = pos
      /\ QString_insert pos ch str = String.append whole (String ch frac).
Proof.
  induction pos as [|pos IH]; intros str Hle.
  - exists EmptyString, str. destruct str; cbn; auto.
  - destruct str as [|c str]; cbn in Hle; [lia|].
    destruct (IH str) as (whole & frac & Hs & Hl & Hi); [lia|].
    exists (String c whole), frac. cbn. rewrite <- Hs, Hl, Hi. auto.
Qed.

Lemma length_padded (decStr : string) : (19 <= String.length (padded decStr))%nat.
Proof.
  unfold padded. destruct (Z.leb_spec (Z.of_nat (String.length decStr)) 18).
  - rewrite length_append, length_QString_fill. lia.
  - lia.
Qed.

Lemma toDecStr_padded {bigint : BigInt} (s : EtherIPC) (jv : QJsonValue) :
  toDecStr s jv
  = QString_insert
      (String.length
         (padded (toStrDec (Vin_ofString
                              (QString_remove0 2 (toString jv "0x0")) 16)))
       - 18)
      (fLocale_decimalPoint s)
      (padded (toStrDec (Vin_ofString
                           (QString_remove0 2 (toString jv "0x0")) 16))).
Proof.
  unfold toDecStr, padded.
  set (d := toStrDec _).
  destruct (Z.leb_spec (Z.of_nat (String.length d)) 18); f_equal; lia.
Qed.

(** C4. [toDecStr] pads the decimal digits to at least 19 characters and
    puts the locale's decimal point before the last 18 of them, whatever
    the codec; with the codec as described and "." as the decimal point,
    "0x5", "0xde0b6b3a7640000" and "0x0" render as
    "0.000000000000000005", "1.000000000000000000" and
    "0.000000000000000000". *)
Theorem C4_toDecStr_pads_and_places_point (s : EtherIPC) :
  (forall (bigint : BigInt) (jv : QJsonValue),
      exists whole frac : string,
        padded (toStrDec (Vin_ofString
                            (QString_remove0 2 (toString jv "0x0")) 16))
        = String.append whole frac
        /\ (19 <= String.length (String.append whole frac))%nat
        /\ String.length frac = 18%nat
        /\ toDecStr s jv
           = String.append whole (String (fLocale_decimalPoint s) frac))
  /\ (fLocale_decimalPoint s = "."%char ->
      @toDecStr SpecCodec.codec s (JString "0x5") = "0.000000000000000005"
      /\ @toDecStr SpecCodec.codec s (JString "0xde0b6b3a7640000")
         = "1.000000000000000000"
      /\ @toDecStr SpecCodec.codec s (JString "0x0")
         = "0.000000000000000000").
Proof.
  split.
  - intros bigint jv. rewrite toDecStr_padded.
    pose proof (length_padded
                  (toStrDec (Vin_ofString
                               (QString_remove0 2 (toString jv "0x0")) 16)))
      as Hp.
    set (p := padded _) in *.
    destruct (QString_insert_split (fLocale_decimalPoint s)
                (String.length p - 18) p)
      as (whole & frac & Hs & Hl & Hi); [lia|].
    exists whole, frac. rewrite <- Hs. split; [reflexivity|].
    split; [exact Hp|]. split; [|exact Hi].
    apply (f_equal String.length) in Hs. rewrite length_append in Hs. lia.
  - intros Hdot. unfold toDecStr. rewrite Hdot.
    repeat split; vm_compute; reflexivity.
Qed.

End Renderer.

(** ** Replies *)

Section Replies.

Context {bigint : BigInt}.
Variable indet : Indeterminate.

(** C9. A parsed reply carrying the id of the active call ends in exactly
    one of three ways, tried in this order: its [result] is present and not
    null, and [readReply] succeeds with it; or it has an [error] member,
    and [readReply] fails, [fError] and [fCode] taking the error object's
    [message] and [code] (each left as it was when the object lacks it); or
    [readReply] fails with "Result object undefined in IPC response". *)
Theorem C9_readReply_classifies_matching_reply (doc : QJsonValue) (s : EtherIPC) :
  toInt (value (toObject doc) "id") (-1) = fCallID (fActiveRequest s) ->
  match classify (toObject doc) with
  | ReplySuccess =>
      readReply (RecvDocument doc) s
      = (true, value (toObject doc) "result",
         effect (SockRead (RecvDocument doc)) s)
  | ReplyDaemonError =>
      fst (fst (readReply (RecvDocument doc) s)) = false
      /\ fError (snd (readReply (RecvDocument doc) s))
         = (if contains (toObject (value (toObject doc) "error")) "message"
            then toString
                   (value (toObject (value (toObject doc) "error")) "message")
                   ""
            else fError s)
      /\ fCode (snd (readReply (RecvDocument doc) s))
         = (if contains (toObject (value (toObject doc) "error")) "code"
            then toInt
                   (value (toObject (value (toObject doc) "error")) "code") 0
            else fCode s)
  | ReplyResultUndefined =>
      fst (fst (readReply (RecvDocument doc) s)) = false
      /\ fError (snd (readReply (RecvDocument doc) s))
         = "Result object undefined in IPC response"
      /\ fCode (snd (readReply (RecvDocument doc) s)) = fCode s
  end.
Proof.
  intros Hid. unfold readReply, classify. cbn.
  rewrite Hid, Z.eqb_refl. cbn.
  destruct (isUndefined (value (toObject doc) "result")
            || isNull (value (toObject doc) "result")); cbn.
  - destruct (contains (toObject doc) "error"); cbn.
    + destruct (contains _ "message"), (contains _ "code"); cbn; auto.
    + auto.
  - reflexivity.
Qed.

Lemma bail_trace (s : EtherIPC) :
  trace (bail indet s)
  = trace s ++ [Emit (error (fError s) (fCode s));
                Emit connectionStateChanged;
                Emit (busyChanged false)]
  /\ fEmpty (fActiveRequest (bail indet s)) = true
  /\ fRequestQueue (bail indet s) = []
  /\ fAccountList (bail indet s) = fAccountList s
  /\ fSocket (bail indet s) = fSocket s
  /\ sCallID (bail indet s) = sCallID s
  /\ fPath (bail indet s) = fPath s
  /\ fError (bail indet s) = fError s.
Proof.
  unfold bail, done, getBusy, emit, effect. cbn.
  rewrite <- !app_assoc. repeat split.
Qed.

Lemma readReply_mismatch (doc : QJsonValue) (s : EtherIPC) :
  toInt (value (toObject doc) "id") (-1) <> fCallID (fActiveRequest s) ->
  readReply (RecvDocument doc) s
  = (false, JNull,
     set_fCode 0
       (set_fError "Call number mismatch"
          (effect (SockRead (RecvDocument doc)) s))).
Proof.
  intros Hid. unfold readReply. cbn.
  apply Z.eqb_neq in Hid. rewrite Hid. reflexivity.
Qed.

(** C5. A reply whose id is not that of the active call. With an active
    call of any type but [GetPeerCount] the handler bails with "Call number
    mismatch" and code 0: one read, the error and the two closing signals
    and nothing else, the queue idle, the account list as it was. With an
    active [GetPeerCount] call the dispatch takes the [default] branch: the
    reply is not read and the client stays as it is, still busy. *)
Theorem C5_id_mismatch_bails_except_peer_count (doc : QJsonValue) (s : EtherIPC) :
  toInt (value (toObject doc) "id") (-1) <> fCallID (fActiveRequest s) ->
  (fType (fActiveRequest s) <> GetPeerCount ->
   onSocketReadyRead indet (RecvDocument doc) s
   = bail indet
       (set_fCode 0
          (set_fError "Call number mismatch"
             (effect (SockRead (RecvDocument doc)) s)))
   /\ trace (onSocketReadyRead indet (RecvDocument doc) s)
      = trace s ++ [SockRead (RecvDocument doc);
                    Emit (error "Call number mismatch" 0);
                    Emit connectionStateChanged;
                    Emit (busyChanged false)]
   /\ fAccountList (onSocketReadyRead indet (RecvDocument doc) s)
      = fAccountList s
   /\ getBusy (onSocketReadyRead indet (RecvDocument doc) s) = false
   /\ fRequestQueue (onSocketReadyRead indet (RecvDocument doc) s) = [])
  /\ (fType (fActiveRequest s) = GetPeerCount ->
      onSocketReadyRead indet (RecvDocument doc) s = s).
Proof.
  intros Hid. split.
  - intros Hty.
    assert (Heq : onSocketReadyRead indet (RecvDocument doc) s
                  = bail indet
                      (set_fCode 0
                         (set_fError "Call number mismatch"
                            (effect (SockRead (RecvDocument doc)) s)))).
    { unfold onSocketReadyRead.
      destruct (fType (fActiveRequest s)); try contradiction;
        unfold handleNewAccount, handleDeleteAccount, handleGetBlockNumber,
          handleAccountDetails, handleAccountBalance,
          handleAccountTransactionCount, handleSendTransaction,
          handleUnlockAccount, handleGetGasPrice,
          handleNewPendingTransactionFilter, readNumber;
        rewrite (readReply_mismatch doc s Hid); reflexivity. }
    rewrite Heq.
    destruct (bail_trace
                (set_fCode 0
                   (set_fError "Call number mismatch"
                      (effect (SockRead (RecvDocument doc)) s))))
      as (Ht & Ha & Hq & Hl & _).
    unfold getBusy. rewrite Ht, Ha, Hq, Hl. cbn.
    rewrite <- app_assoc. auto.
  - intros Hty. unfold onSocketReadyRead. rewrite Hty. reflexivity.
Qed.

End Replies.

(** ** Calls that are refused *)

Section Refusals.

Context {bigint : BigInt}.
Variable indet : Indeterminate.

Lemma positive_not_le0 (v : float) :
  (0 <? v)%float = true -> (v <=? 0)%float = false.
Proof.
  rewrite ltb_spec, leb_spec.
  replace (Prim2SF 0) with (S754_zero false) by (vm_compute; reflexivity).
  unfold SFltb, SFleb. destruct (Prim2SF v) as [sg | sg | | sg m e]; cbn;
    try discriminate; destruct sg; cbn; congruence.
Qed.

(** C7. [sendTransaction] with [value <= 0] (as doubles) is [bail] with
    "Invalid transaction value": no call id is taken, [queueRequest] is not
    entered, the socket is not used, and the error and the closing signals
    are all that is emitted. With [value > 0] it builds the
    [eth_sendTransaction] envelope whose [value] member is the hex string of
    [fromDouble(value * 1e18)] and hands it to [queueRequest], bailing when
    that fails. *)
Theorem C7_sendTransaction_validates_value
    (from to : string) (value : float) (s : EtherIPC) :
  ((value <=? 0)%float = true ->
   sendTransaction indet from to value s
   = bail indet (set_fError "Invalid transaction value" s)
   /\ sCallID (sendTransaction indet from to value s) = sCallID s
   /\ queued (trace (sendTransaction indet from to value s))
      = queued (trace s)
   /\ transport_operations (trace (sendTransaction indet from to value s))
      = transport_operations (trace s)
   /\ trace (sendTransaction indet from to value s)
      = trace s ++ [Emit (error "Invalid transaction value" (fCode s));
                    Emit connectionStateChanged;
                    Emit (busyChanged false)])
  /\ ((0 <? value)%float = true ->
      sendTransaction indet from to value s
      = (if fst (queueRequest
                   (sendTransaction_envelope from to value (sCallID s))
                   (set_sCallID (wrap_int (sCallID s + 1)) s))
         then snd (queueRequest
                     (sendTransaction_envelope from to value (sCallID s))
                     (set_sCallID (wrap_int (sCallID s + 1)) s))
         else bail indet
                (snd (queueRequest
                        (sendTransaction_envelope from to value (sCallID s))
                        (set_sCallID (wrap_int (sCallID s + 1)) s))))).
Proof.
  split.
  - intros Hle. unfold sendTransaction. rewrite Hle.
    destruct (bail_trace indet (set_fError "Invalid transaction value" s))
      as (Ht & _ & _ & _ & _ & Hid & _).
    rewrite Ht, Hid. cbn. repeat split.
    + rewrite queued_app. unfold queued at 2. cbn. apply app_nil_r.
    + unfold transport_operations. rewrite List.filter_app. cbn.
      apply app_nil_r.
  - intros Hpos. unfold sendTransaction.
    rewrite (positive_not_le0 value Hpos). cbn.
    unfold sendTransaction_envelope.
    destruct (queueRequest _ _) as [[|] s']; reflexivity.
Qed.

(** C8. [connectToServer] first marks the client busy (the active slot is
    set non-empty, [busyChanged(true)] is emitted) and stores the path,
    whatever the state of the socket. If the socket is not unconnected it
    then bails with "Already connected": nothing is done on the socket, no
    timer is armed, and the client ends idle with nothing pending.
    Otherwise it opens the socket on the path and arms the 2000 ms timer,
    and stays busy. *)
Theorem C8_connectToServer_refuses_unless_unconnected
    (path : string) (s : EtherIPC) :
  (sock_state (fSocket s) <> UnconnectedState ->
   trace (connectToServer indet path s)
   = trace s ++ [Emit (busyChanged true);
                 Emit (error "Already connected" (fCode s));
                 Emit connectionStateChanged;
                 Emit (busyChanged false)]
   /\ fPath (connectToServer indet path s) = path
   /\ fError (connectToServer indet path s) = "Already connected"
   /\ fSocket (connectToServer indet path s) = fSocket s
   /\ getBusy (connectToServer indet path s) = false
   /\ fRequestQueue (connectToServer indet path s) = [])
  /\ (sock_state (fSocket s) = UnconnectedState ->
      trace (connectToServer indet path s)
      = trace s ++ [Emit (busyChanged true); SockConnect path; SingleShot 2000]
      /\ fPath (connectToServer indet path s) = path
      /\ getBusy (connectToServer indet path s) = true
      /\ sock_state (fSocket (connectToServer indet path s)) = ConnectingState
      /\ fRequestQueue (connectToServer indet path s) = fRequestQueue s).
Proof.
  split; intros Hst; unfold connectToServer; cbn.
  - destruct (sock_state (fSocket s)) eqn:E; try contradiction; cbn;
      match goal with |- context [bail indet ?x] =>
        destruct (bail_trace indet x) as (Ht & Ha & Hq & _ & Hs & _ & Hp & He);
        unfold getBusy; rewrite Ht, Ha, Hq, Hs, Hp, He; cbn;
        rewrite <- app_assoc; repeat split
      end.
  - rewrite Hst. cbn. rewrite <- !app_assoc. repeat split.
Qed.

End Refusals.

(** C8, as stated, fails: on a connected client the path is replaced and
    [busyChanged(true)] is emitted before the call is refused. *)
Lemma C8_counterexample_path_stored_when_connected :
  ~ connect_stores_only_when_unconnected sample_indet "new.ipc" connected_client.
Proof.
  unfold connect_stores_only_when_unconnected. intros H.
  destruct H as [Hpath _]; [discriminate|].
  vm_compute in Hpath. discriminate Hpath.
Qed.

(** ** Account listing *)

Section Accounts.

Context {bigint : BigInt}.
Variable indet : Indeterminate.

Lemma queueRequest_busy_eq (r : RequestIPC) (s : EtherIPC) :
  fEmpty (fActiveRequest s) = false ->
  queueRequest r s
  = (true, set_fRequestQueue (fRequestQueue s ++ [r]) (effect (Queued r) s)).
Proof. intros Hb. unfold queueRequest. cbn. rewrite Hb. reflexivity. Qed.

(** While a call is active the loop of [handleAccountDetails] adds the
    records and queues the follow-up calls, and nothing else. *)
Lemma handleAccountDetails_loop_spec (refs : QJsonArray) :
  forall (i : Z) (s : EtherIPC),
    fEmpty (fActiveRequest s) = false ->
    fst (handleAccountDetails_loop refs i s) = true
    /\ trace (snd (handleAccountDetails_loop refs i s))
       = trace s ++ map Queued (follow_ups refs i (sCallID s))
    /\ fRequestQueue (snd (handleAccountDetails_loop refs i s))
       = fRequestQueue s ++ follow_ups refs i (sCallID s)
    /\ fAccountList (snd (handleAccountDetails_loop refs i s))
       = fAccountList s ++ new_accounts refs
    /\ fActiveRequest (snd (handleAccountDetails_loop refs i s))
       = fActiveRequest s
    /\ fSocket (snd (handleAccountDetails_loop refs i s)) = fSocket s.
Proof.
  induction refs as [|r refs IH]; intros i s Hb; cbn.
  - rewrite !app_nil_r. repeat split.
  - rewrite queueRequest_busy_eq by exact Hb. cbn.
    rewrite queueRequest_busy_eq by exact Hb. cbn.
    match goal with |- context [handleAccountDetails_loop refs ?j ?s'] =>
      destruct (IH j s' Hb) as (H1 & H2 & H3 & H4 & H5 & H6)
    end.
    rewrite H1, H2, H3, H4, H5, H6. cbn.
    rewrite <- !app_assoc. cbn. repeat split.
Qed.

#[local] Arguments handleAccountDetails_loop : simpl never.

Lemma getAccountsDone_count_app (a b : list Effect) :
  getAccountsDone_count (a ++ b)
  = (getAccountsDone_count a + getAccountsDone_count b)%nat.
Proof.
  unfold getAccountsDone_count. rewrite List.filter_app. apply length_app.
Qed.

Lemma getAccountsDone_count_cons (e : Effect) (tr : list Effect) :
  getAccountsDone_count (e :: tr)
  = ((if is_getAccountsDone e then 1 else 0) + getAccountsDone_count tr)%nat.
Proof.
  unfold getAccountsDone_count. cbn. destruct (is_getAccountsDone e); reflexivity.
Qed.

Lemma getAccountsDone_count_nil : getAccountsDone_count [] = 0%nat.
Proof. reflexivity. Qed.

Lemma queued_cons (e : Effect) (tr : list Effect) :
  queued (e :: tr) = queued_of e ++ queued tr.
Proof. reflexivity. Qed.

Lemma queued_nil : queued [] = [].
Proof. reflexivity. Qed.

Ltac count_simpl :=
  rewrite ?getAccountsDone_count_app, ?getAccountsDone_count_cons,
    ?getAccountsDone_count_nil;
  cbn [is_getAccountsDone].

Ltac queued_simpl :=
  rewrite ?queued_app, ?queued_cons, ?queued_nil;
  cbn [queued_of app].

Lemma in_int_wrap_int (z : Z) : in_int (wrap_int z) = true.
Proof.
  unfold in_int, wrap_int, int_min, int_max.
  pose proof (Z.mod_pos_bound (z + 2 ^ 31) (2 ^ 32) eq_refl).
  apply andb_true_iff. split; apply Z.leb_le; lia.
Qed.

Lemma readReply_reply_to (s : EtherIPC) (v : QJsonValue) :
  in_int (fCallID (fActiveRequest s)) = true -> usable v ->
  readReply (reply_to s v) s = (true, v, effect (SockRead (reply_to s v)) s).
Proof.
  intros Hid Hv. unfold readReply, reply_to. cbn.
  rewrite Hid, Z.eqb_refl. cbn. unfold usable in Hv. rewrite Hv. reflexivity.
Qed.

(** What [writeRequest] and [done] leave alone. *)
Lemma writeRequest_footprint (s : EtherIPC) :
  fActiveRequest (snd (writeRequest s)) = fActiveRequest s
  /\ fRequestQueue (snd (writeRequest s)) = fRequestQueue s
  /\ fAccountList (snd (writeRequest s)) = fAccountList s
  /\ sCallID (snd (writeRequest s)) = sCallID s
  /\ sock_state (fSocket (snd (writeRequest s))) = sock_state (fSocket s)
  /\ queued (trace (snd (writeRequest s))) = queued (trace s)
  /\ getAccountsDone_count (trace (snd (writeRequest s)))
     = getAccountsDone_count (trace s).
Proof.
  unfold writeRequest. destruct (negb _); cbn; [repeat split|].
  destruct (_ <=? 0); cbn;
    rewrite queued_app, getAccountsDone_count_app; cbn;
    rewrite app_nil_r, Nat.add_0_r; repeat split.
Qed.

Lemma done_pop (s : EtherIPC) (first : RequestIPC) (rest : list RequestIPC) :
  fRequestQueue s = first :: rest ->
  fActiveRequest (done indet s) = first
  /\ fRequestQueue (done indet s) = rest
  /\ fAccountList (done indet s) = fAccountList s
  /\ sCallID (done indet s) = sCallID s
  /\ sock_state (fSocket (done indet s)) = sock_state (fSocket s)
  /\ queued (trace (done indet s)) = queued (trace s)
  /\ getAccountsDone_count (trace (done indet s))
     = getAccountsDone_count (trace s).
Proof.
  intros Hq. unfold done. rewrite Hq.
  match goal with |- context [writeRequest ?x] =>
    destruct (writeRequest_footprint x) as (H1 & H2 & H3 & H4 & H5 & H6 & H7)
  end.
  rewrite H1, H2, H3, H4, H5, H6, H7. repeat split.
Qed.

Lemma done_idle (s : EtherIPC) :
  fRequestQueue s = [] ->
  done indet s
  = emit (busyChanged false) (set_fActiveRequest (RequestIPC_none indet) s).
Proof. intros Hq. unfold done. rewrite Hq. reflexivity. Qed.

(** The handlers of the three account calls on a usable reply. *)
Lemma answer_GetAccountRefs (s : EtherIPC) (refs : QJsonArray) :
  fType (fActiveRequest s) = GetAccountRefs ->
  fEmpty (fActiveRequest s) = false ->
  in_int (fCallID (fActiveRequest s)) = true ->
  answer indet s (JArray refs)
  = done indet
      (snd (handleAccountDetails_loop refs 0
              (effect (SockRead (reply_to s (JArray refs))) s))).
Proof.
  intros Hty Hb Hid. unfold answer, onSocketReadyRead. rewrite Hty.
  unfold handleAccountDetails.
  rewrite readReply_reply_to by (exact Hid || reflexivity). cbn [negb toArray].
  destruct (handleAccountDetails_loop_spec refs 0
              (effect (SockRead (reply_to s (JArray refs))) s) Hb)
    as (Hok & _).
  destruct (handleAccountDetails_loop _ _ _) as [ok s']. cbn in Hok.
  subst ok. reflexivity.
Qed.

Lemma answer_GetBalance (s : EtherIPC) (v : QJsonValue) :
  fType (fActiveRequest s) = GetBalance ->
  in_int (fCallID (fActiveRequest s)) = true -> usable v ->
  answer indet s v
  = done indet
      (set_fAccountList
         (QList_modify (fIndex (fActiveRequest s))
            (setBalance (toDecStr s v)) (fAccountList s))
         (effect (SockRead (reply_to s v)) s)).
Proof.
  intros Hty Hid Hv. unfold answer, onSocketReadyRead. rewrite Hty.
  unfold handleAccountBalance. rewrite readReply_reply_to by assumption.
  reflexivity.
Qed.

Lemma answer_GetTransactionCount (s : EtherIPC) (v : QJsonValue) :
  fType (fActiveRequest s) = GetTransactionCount ->
  in_int (fCallID (fActiveRequest s)) = true -> usable v ->
  answer indet s v
  = done indet
      ((if wrap_int (fIndex (fActiveRequest s) + 1)
           =? Z.of_nat (length (fAccountList s))
        then emit
               (getAccountsDone
                  (QList_modify (fIndex (fActiveRequest s))
                     (setTransactionCount
                        (toUlong
                           (Vin_ofString
                              (QString_remove0 2 (toString v "0x0")) 16)))
                     (fAccountList s)))
        else fun s' => s')
         (set_fAccountList
            (QList_modify (fIndex (fActiveRequest s))
               (setTransactionCount
                  (toUlong
                     (Vin_ofString
                        (QString_remove0 2 (toString v "0x0")) 16)))
               (fAccountList s))
            (effect (SockRead (reply_to s v)) s))).
Proof.
  intros Hty Hid Hv. unfold answer, onSocketReadyRead. rewrite Hty.
  unfold handleAccountTransactionCount.
  rewrite readReply_reply_to by assumption. cbn.
  unfold QList_modify at 1.
  destruct (0 <=? fIndex (fActiveRequest s));
    rewrite ?length_alter; destruct (_ =? _); reflexivity.
Qed.

Lemma answer_GetTransactionCount_other (s : EtherIPC) (v : QJsonValue) :
  fType (fActiveRequest s) = GetTransactionCount ->
  in_int (fCallID (fActiveRequest s)) = true -> usable v ->
  wrap_int (fIndex (fActiveRequest s) + 1)
  <> Z.of_nat (length (fAccountList s)) ->
  answer indet s v
  = done indet
      (set_fAccountList
         (QList_modify (fIndex (fActiveRequest s))
            (setTransactionCount
               (toUlong
                  (Vin_ofString (QString_remove0 2 (toString v "0x0")) 16)))
            (fAccountList s))
         (effect (SockRead (reply_to s v)) s)).
Proof.
  intros Hty Hid Hv Hne. rewrite answer_GetTransactionCount by assumption.
  apply Z.eqb_neq in Hne. rewrite Hne. reflexivity.
Qed.

Lemma answer_GetTransactionCount_last (s : EtherIPC) (v : QJsonValue) :
  fType (fActiveRequest s) = GetTransactionCount ->
  in_int (fCallID (fActiveRequest s)) = true -> usable v ->
  wrap_int (fIndex (fActiveRequest s) + 1)
  = Z.of_nat (length (fAccountList s)) ->
  answer indet s v
  = done indet
      (emit
         (getAccountsDone
            (QList_modify (fIndex (fActiveRequest s))
               (setTransactionCount
                  (toUlong
                     (Vin_ofString
                        (QString_remove0 2 (toString v "0x0")) 16)))
               (fAccountList s)))
         (set_fAccountList
            (QList_modify (fIndex (fActiveRequest s))
               (setTransactionCount
                  (toUlong
                     (Vin_ofString
                        (QString_remove0 2 (toString v "0x0")) 16)))
               (fAccountList s))
            (effect (SockRead (reply_to s v)) s))).
Proof.
  intros Hty Hid Hv He. rewrite answer_GetTransactionCount by assumption.
  apply Z.eqb_eq in He. rewrite He. reflexivity.
Qed.

Lemma length_QList_modify {A : Type} (i : Z) (f : A -> A) (l : list A) :
  length (QList_modify i f l) = length l.
Proof. unfold QList_modify. destruct (0 <=? i); [apply length_alter | reflexivity]. Qed.

Lemma QList_modify_0 {A : Type} (f : A -> A) (x : A) (l : list A) :
  QList_modify 0 f (x :: l) = f x :: l.
Proof. reflexivity. Qed.

Lemma QList_modify_1 {A : Type} (f : A -> A) (x y : A) (l : list A) :
  QList_modify 1 f (x :: y :: l) = x :: f y :: l.
Proof. reflexivity. Qed.

End Accounts.

(** ** A second round of account listing *)

Section SecondRound.

Context {bigint : BigInt}.
Variable indet : Indeterminate.

#[local] Arguments handleAccountDetails_loop : simpl never.

Ltac count_simpl :=
  rewrite ?getAccountsDone_count_app, ?getAccountsDone_count_cons,
    ?getAccountsDone_count_nil;
  cbn [is_getAccountsDone].

Lemma stable_refl (s : EtherIPC) : stable s s.
Proof. split; reflexivity. Qed.

Lemma stable_trans (s1 s2 s3 : EtherIPC) :
  stable s1 s2 -> stable s2 s3 -> stable s1 s3.
Proof. intros [A B] [C D]. split; congruence. Qed.

Lemma stable_grown (s s' : EtherIPC) : stable s s' -> grown s s'.
Proof. intros [A B]. split; [rewrite A; reflexivity | exact B]. Qed.

Lemma grown_trans (s1 s2 s3 : EtherIPC) :
  grown s1 s2 -> grown s2 s3 -> grown s1 s3.
Proof. intros [A B] [C D]. split; [etransitivity; eassumption | congruence]. Qed.

Lemma frame_stable (s s' : EtherIPC) (w : list Effect) :
  frame s s' w -> silent w -> stable s s'.
Proof.
  intros (Ht & _ & _ & Hl & _) Hw. split; [exact Hl|].
  rewrite Ht, getAccountsDone_count_app, Hw. lia.
Qed.

Lemma frame_past (s s' : EtherIPC) (w : list Effect) :
  frame s s' w -> past_first_round s -> past_first_round s'.
Proof.
  intros (_ & Ha & Hq & Hl & Hs) H. unfold past_first_round,
    pending_cannot_complete in *. rewrite Ha, Hq, Hl, Hs. exact H.
Qed.

Lemma past_pending (s : EtherIPC) :
  past_first_round s -> pending_cannot_complete s.
Proof. intros [H _]. exact H. Qed.

Lemma writeRequest_frame (s : EtherIPC) :
  exists w, frame s (snd (writeRequest s)) w /\ silent w.
Proof.
  unfold writeRequest. destruct (negb _); cbn.
  - exists []. split; [apply frame_same; reflexivity | reflexivity].
  - destruct (_ <=? 0); cbn; eexists; (split; [|shelve]);
      unfold frame; cbn; repeat split.
    Unshelve. all: reflexivity.
Qed.

Lemma past_intro (s : EtherIPC) :
  (1 <= length (fAccountList s))%nat ->
  Forall (cannot_complete (length (fAccountList s))) (fRequestQueue s) ->
  (sock_state (fSocket s) = ConnectedState ->
   fEmpty (fActiveRequest s) = false ->
   cannot_complete (length (fAccountList s)) (fActiveRequest s)) ->
  past_first_round s.
Proof. intros. split; [split|]; assumption. Qed.

Lemma done_past (s : EtherIPC) :
  pending_cannot_complete s ->
  past_first_round (done indet s) /\ stable s (done indet s).
Proof.
  intros [Hlen Hq]. unfold done.
  destruct (fRequestQueue s) as [|first rest] eqn:E.
  - split.
    + apply past_intro; cbn.
      * exact Hlen.
      * rewrite E. constructor.
      * discriminate.
    + split; cbn; [reflexivity|]. count_simpl. lia.
  - inversion Hq; subst.
    match goal with |- context [writeRequest ?x] =>
      destruct (writeRequest_frame x) as (w & Hf & Hw)
    end.
    split.
    + eapply frame_past; [exact Hf|]. apply past_intro; cbn; auto.
    + eapply stable_trans; [|exact (frame_stable _ _ _ Hf Hw)].
      split; reflexivity.
Qed.

Lemma bail_past (s : EtherIPC) :
  (1 <= length (fAccountList s))%nat ->
  past_first_round (bail indet s) /\ stable s (bail indet s).
Proof.
  intros Hlen.
  destruct (bail_trace indet s) as (Ht & Ha & Hq & Hl & _).
  split.
  - apply past_intro; rewrite ?Hl, ?Hq, ?Ha.
    + exact Hlen.
    + constructor.
    + discriminate.
  - split; [exact Hl|]. rewrite Ht. count_simpl. lia.
Qed.

Lemma queueRequest_past (r : RequestIPC) (s : EtherIPC) :
  cannot_complete (length (fAccountList s)) r ->
  past_first_round s ->
  past_first_round (snd (queueRequest r s))
  /\ stable s (snd (queueRequest r s)).
Proof.
  intros Hr [[Hlen Hq] Hact]. unfold queueRequest. cbn.
  destruct (fEmpty (fActiveRequest s)) eqn:E.
  - match goal with |- context [writeRequest ?x] =>
      destruct (writeRequest_frame x) as (w & Hf & Hw)
    end.
    split.
    + eapply frame_past; [exact Hf|]. apply past_intro; cbn; auto.
    + eapply stable_trans; [|exact (frame_stable _ _ _ Hf Hw)].
      split; cbn; [reflexivity|]. count_simpl. lia.
  - cbn. split.
    + apply past_intro; cbn; auto.
      apply Forall_app. split; [exact Hq | constructor; [exact Hr | constructor]].
    + split; cbn; [reflexivity|]. count_simpl. lia.
Qed.

Lemma frame_pending (s s' : EtherIPC) (w : list Effect) :
  frame s s' w -> pending_cannot_complete s -> pending_cannot_complete s'.
Proof.
  intros (_ & _ & Hq & Hl & _) H. unfold pending_cannot_complete in *.
  rewrite Hq, Hl. exact H.
Qed.

(** *** The calls of the interface *)

Ltac queue_or_bail_past Hp :=
  cbn [RequestIPC_new];
  match goal with |- context [queueRequest ?r ?s'] =>
    let Hp' := fresh "Hp'" in
    let Hst := fresh "Hst" in
    destruct (queueRequest_past r s') as [Hp' Hst];
    [ intros Hty; discriminate Hty
    | eapply frame_past; [apply frame_same; reflexivity | exact Hp]
    | destruct (queueRequest r s') as [[|] ?s2]; cbn [snd negb] in *;
      [ split; [exact Hp' | exact Hst]
      | destruct Hp' as [[Hlen _] _];
        destruct (bail_past s2 Hlen) as [Hb1 Hb2];
        split; [exact Hb1 | exact (stable_trans _ _ _ Hst Hb2)] ] ]
  end.

Lemma getAccounts_past s :
  past_first_round s ->
  past_first_round (getAccounts indet s) /\ stable s (getAccounts indet s).
Proof. intros Hp. unfold getAccounts. queue_or_bail_past Hp. Qed.

Lemma newAccount_past password index s :
  past_first_round s ->
  past_first_round (newAccount indet password index s)
  /\ stable s (newAccount indet password index s).
Proof. intros Hp. unfold newAccount. queue_or_bail_past Hp. Qed.

Lemma deleteAccount_past h password index s :
  past_first_round s ->
  past_first_round (deleteAccount indet h password index s)
  /\ stable s (deleteAccount indet h password index s).
Proof. intros Hp. unfold deleteAccount. queue_or_bail_past Hp. Qed.

Lemma getBlockNumber_past s :
  past_first_round s ->
  past_first_round (getBlockNumber indet s)
  /\ stable s (getBlockNumber indet s).
Proof. intros Hp. unfold getBlockNumber. queue_or_bail_past Hp. Qed.

Lemma getPeerCount_past s :
  past_first_round s ->
  past_first_round (getPeerCount indet s) /\ stable s (getPeerCount indet s).
Proof. intros Hp. unfold getPeerCount. queue_or_bail_past Hp. Qed.

Lemma getGasPrice_past s :
  past_first_round s ->
  past_first_round (getGasPrice indet s) /\ stable s (getGasPrice indet s).
Proof. intros Hp. unfold getGasPrice. queue_or_bail_past Hp. Qed.

Lemma newPendingTransactionFilter_past s :
  past_first_round s ->
  past_first_round (newPendingTransactionFilter indet s)
  /\ stable s (newPendingTransactionFilter indet s).
Proof. intros Hp. unfold newPendingTransactionFilter. queue_or_bail_past Hp. Qed.

Lemma unlockAccount_past h password duration index s :
  past_first_round s ->
  past_first_round (unlockAccount indet h password duration index s)
  /\ stable s (unlockAccount indet h password duration index s).
Proof. intros Hp. unfold unlockAccount. queue_or_bail_past Hp. Qed.

Lemma sendTransaction_past from to value s :
  past_first_round s ->
  past_first_round (sendTransaction indet from to value s)
  /\ stable s (sendTransaction indet from to value s).
Proof.
  intros Hp. unfold sendTransaction. destruct (value <=? 0)%float.
  - destruct Hp as [[Hlen _] _].
    destruct (bail_past (set_fError "Invalid transaction value" s) Hlen)
      as [Hb1 Hb2].
    split; [exact Hb1|]. eapply stable_trans; [|exact Hb2]. split; reflexivity.
  - queue_or_bail_past Hp.
Qed.

(** *** The handlers *)

Lemma done_after_frame (s s1 s2 : EtherIPC) (w : list Effect) :
  stable s s1 -> pending_cannot_complete s1 -> frame s1 s2 w -> silent w ->
  past_first_round (done indet s2) /\ grown s (done indet s2).
Proof.
  intros Hs1 Hp1 Hf Hw.
  destruct (done_past s2 (frame_pending _ _ _ Hf Hp1)) as [D1 D2].
  split; [exact D1|]. apply stable_grown.
  exact (stable_trans _ _ _ Hs1
           (stable_trans _ _ _ (frame_stable _ _ _ Hf Hw) D2)).
Qed.

Lemma bail_after (s s1 : EtherIPC) :
  stable s s1 -> pending_cannot_complete s1 ->
  past_first_round (bail indet s1) /\ grown s (bail indet s1).
Proof.
  intros Hs1 [Hlen _]. destruct (bail_past s1 Hlen) as [B1 B2].
  split; [exact B1|]. apply stable_grown. exact (stable_trans _ _ _ Hs1 B2).
Qed.

Ltac frame_now :=
  unfold frame; cbn;
  repeat split; first [reflexivity | symmetry; apply app_nil_r].

Ltac read_reply_past data s Hp :=
  let Hf := fresh "Hf" in
  pose proof (frame_readReply data s) as Hf;
  destruct (readReply data s) as [[[|] ?jv] ?s1]; cbn [snd negb] in *;
  [ eapply done_after_frame;
    [ exact (frame_stable _ _ _ Hf eq_refl)
    | exact (frame_pending _ _ _ Hf Hp)
    | frame_now
    | reflexivity ]
  | exact (bail_after _ _ (frame_stable _ _ _ Hf eq_refl)
             (frame_pending _ _ _ Hf Hp)) ].

Ltac read_number_past data s Hp :=
  let Hf := fresh "Hf" in
  pose proof (frame_readNumber data s) as Hf;
  destruct (readNumber data s) as [[?result|] ?s1]; cbn [snd] in *;
  [ eapply done_after_frame;
    [ exact (frame_stable _ _ _ Hf eq_refl)
    | exact (frame_pending _ _ _ Hf Hp)
    | frame_now
    | reflexivity ]
  | exact (bail_after _ _ (frame_stable _ _ _ Hf eq_refl)
             (frame_pending _ _ _ Hf Hp)) ].

Lemma handleNewAccount_past data s :
  pending_cannot_complete s ->
  past_first_round (handleNewAccount indet data s)
  /\ grown s (handleNewAccount indet data s).
Proof. intros Hp. unfold handleNewAccount. read_reply_past data s Hp. Qed.

Lemma handleDeleteAccount_past data s :
  pending_cannot_complete s ->
  past_first_round (handleDeleteAccount indet data s)
  /\ grown s (handleDeleteAccount indet data s).
Proof. intros Hp. unfold handleDeleteAccount. read_reply_past data s Hp. Qed.

Lemma handleSendTransaction_past data s :
  pending_cannot_complete s ->
  past_first_round (handleSendTransaction indet data s)
  /\ grown s (handleSendTransaction indet data s).
Proof. intros Hp. unfold handleSendTransaction. read_reply_past data s Hp. Qed.

Lemma handleUnlockAccount_past data s :
  pending_cannot_complete s ->
  past_first_round (handleUnlockAccount indet data s)
  /\ grown s (handleUnlockAccount indet data s).
Proof. intros Hp. unfold handleUnlockAccount. read_reply_past data s Hp. Qed.

Lemma handleGetGasPrice_past data s :
  pending_cannot_complete s ->
  past_first_round (handleGetGasPrice indet data s)
  /\ grown s (handleGetGasPrice indet data s).
Proof. intros Hp. unfold handleGetGasPrice. read_reply_past data s Hp. Qed.

Lemma handleGetBlockNumber_past data s :
  pending_cannot_complete s ->
  past_first_round (handleGetBlockNumber indet data s)
  /\ grown s (handleGetBlockNumber indet data s).
Proof. intros Hp. unfold handleGetBlockNumber. read_number_past data s Hp. Qed.

Lemma handleNewPendingTransactionFilter_past data s :
  pending_cannot_complete s ->
  past_first_round (handleNewPendingTransactionFilter indet data s)
  /\ grown s (handleNewPendingTransactionFilter indet data s).
Proof.
  intros Hp. unfold handleNewPendingTransactionFilter.
  read_number_past data s Hp.
Qed.

(** *** The handlers of the account calls *)

Lemma map_hash_QList_modify (i : Z) (f : AccountInfo -> AccountInfo)
    (l : list AccountInfo) :
  (forall a, hash (f a) = hash a) ->
  map hash (QList_modify i f l) = map hash l.
Proof.
  intros Hf. unfold QList_modify. destruct (0 <=? i); [|reflexivity].
  generalize (Z.to_nat i). induction l as [|a l IH]; intros [|n]; cbn;
    rewrite ?Hf, ?IH; reflexivity.
Qed.

Lemma wrap_int_le (z : Z) : int_min <= z -> wrap_int z <= z.
Proof.
  unfold wrap_int, int_min. intros H.
  pose proof (Z.mod_le (z + 2 ^ 31) (2 ^ 32)). lia.
Qed.

Lemma wrap_int_ge (z : Z) : int_min <= wrap_int z.
Proof.
  pose proof (in_int_wrap_int z) as H. unfold in_int in H.
  apply andb_true_iff in H as [H _]. apply Z.leb_le in H. exact H.
Qed.

Lemma cannot_complete_mono (len len' : nat) (r : RequestIPC) :
  (len <= len')%nat -> cannot_complete len r -> cannot_complete len' r.
Proof. unfold cannot_complete. intros Hle H Hty. specialize (H Hty). lia. Qed.

Lemma follow_ups_cannot_complete (refs : QJsonArray) :
  forall (i id : Z) (len : nat),
    int_min <= i -> i + Z.of_nat (length refs) < Z.of_nat len ->
    Forall (cannot_complete len) (follow_ups refs i id).
Proof.
  induction refs as [|r refs IH]; intros i id len Hi Hlen; cbn [follow_ups].
  - constructor.
  - cbn [length] in Hlen.
    assert (Hw : wrap_int (i + 1) <= i + 1) by (apply wrap_int_le; lia).
    constructor; [|constructor].
    + intros _. cbn. lia.
    + intros _. cbn. lia.
    + apply IH; [apply wrap_int_ge | lia].
Qed.

Lemma handleAccountBalance_past data s :
  pending_cannot_complete s ->
  past_first_round (handleAccountBalance indet data s)
  /\ grown s (handleAccountBalance indet data s).
Proof.
  intros Hp. unfold handleAccountBalance.
  pose proof (frame_readReply data s) as Hf.
  destruct (readReply data s) as [[[|] jv] s1]; cbn [snd negb] in *.
  2:{ exact (bail_after _ _ (frame_stable _ _ _ Hf eq_refl)
               (frame_pending _ _ _ Hf Hp)). }
  pose proof (frame_stable _ _ _ Hf eq_refl) as [Hl Hc].
  destruct (frame_pending _ _ _ Hf Hp) as [Hlen Hq].
  match goal with |- context [done indet ?x] =>
    destruct (done_past x) as [D1 [D2 D3]]
  end.
  { split; cbn; rewrite length_QList_modify; assumption. }
  split; [exact D1|]. split.
  - rewrite D2. cbn. rewrite map_hash_QList_modify by reflexivity.
    rewrite Hl. reflexivity.
  - rewrite D3. cbn. exact Hc.
Qed.

Lemma handleAccountTransactionCount_past data s :
  pending_cannot_complete s ->
  cannot_complete (length (fAccountList s)) (fActiveRequest s) ->
  fType (fActiveRequest s) = GetTransactionCount ->
  past_first_round (handleAccountTransactionCount indet data s)
  /\ grown s (handleAccountTransactionCount indet data s).
Proof.
  intros Hp Hcc Hty. specialize (Hcc Hty).
  unfold handleAccountTransactionCount.
  pose proof (frame_readReply data s) as Hf.
  destruct (readReply data s) as [[[|] jv] s1]; cbn [snd negb] in *.
  2:{ exact (bail_after _ _ (frame_stable _ _ _ Hf eq_refl)
               (frame_pending _ _ _ Hf Hp)). }
  pose proof (frame_stable _ _ _ Hf eq_refl) as [Hl Hc].
  destruct (frame_pending _ _ _ Hf Hp) as [Hlen Hq].
  destruct Hf as (_ & Ha & _).
  cbn. rewrite length_QList_modify, Ha, Hl. rewrite Hl in Hlen, Hq.
  destruct (Z.eqb_spec (wrap_int (fIndex (fActiveRequest s) + 1))
              (Z.of_nat (length (fAccountList s)))) as [E|_]; [lia|].
  match goal with |- context [done indet ?x] =>
    destruct (done_past x) as [D1 [D2 D3]]
  end.
  { split; cbn; rewrite length_QList_modify; assumption. }
  split; [exact D1|]. split.
  - rewrite D2. cbn. rewrite map_hash_QList_modify by reflexivity.
    reflexivity.
  - rewrite D3. cbn. exact Hc.
Qed.

Lemma handleAccountDetails_past data s :
  pending_cannot_complete s ->
  fEmpty (fActiveRequest s) = false ->
  past_first_round (handleAccountDetails indet data s)
  /\ grown s (handleAccountDetails indet data s).
Proof.
  intros Hp Hb. unfold handleAccountDetails.
  pose proof (frame_readReply data s) as Hf.
  destruct (readReply data s) as [[[|] jv] s1]; cbn [snd negb] in *.
  2:{ exact (bail_after _ _ (frame_stable _ _ _ Hf eq_refl)
               (frame_pending _ _ _ Hf Hp)). }
  pose proof (frame_stable _ _ _ Hf eq_refl) as [Hl Hc].
  destruct (frame_pending _ _ _ Hf Hp) as [Hlen Hq].
  destruct Hf as (_ & Ha & _). rewrite <- Ha in Hb.
  destruct (handleAccountDetails_loop_spec (toArray jv) 0 s1 Hb)
    as (Lok & Lt & Lq & Ll & _).
  destruct (handleAccountDetails_loop (toArray jv) 0 s1) as [ok s2].
  cbn [fst snd] in *. subst ok. cbn [negb].
  destruct (done_past s2) as [D1 [D2 D3]].
  { split; rewrite Ll, ?Lq, length_app.
    - lia.
    - apply Forall_app. split.
      + eapply Forall_impl; [exact Hq|]. intros r Hr.
        eapply cannot_complete_mono; [|exact Hr]. lia.
      + apply follow_ups_cannot_complete; [unfold int_min; lia|].
        unfold new_accounts. rewrite length_map. lia. }
  split; [exact D1|]. split.
  - rewrite D2, Ll, map_app, <- Hl. apply prefix_app_r. reflexivity.
  - rewrite D3, Lt, getAccountsDone_count_app, Hc.
    assert (Hs : forall l, getAccountsDone_count (map Queued l) = 0%nat)
      by (induction l; [reflexivity | rewrite map_cons; count_simpl; auto]).
    rewrite Hs. lia.
Qed.

(** *** Dispatch, connection and signals *)

Lemma grown_refl (s : EtherIPC) : grown s s.
Proof. apply stable_grown, stable_refl. Qed.

Lemma onSocketReadyRead_past data s :
  past_first_round s ->
  sock_state (fSocket s) = ConnectedState ->
  fEmpty (fActiveRequest s) = false ->
  past_first_round (onSocketReadyRead indet data s)
  /\ grown s (onSocketReadyRead indet data s).
Proof.
  intros Hpast Hconn Hbusy. pose proof (past_pending s Hpast) as Hp.
  destruct Hpast as [_ Hact]. specialize (Hact Hconn Hbusy).
  unfold onSocketReadyRead. destruct (fType (fActiveRequest s)) eqn:Hty.
  - apply handleNewAccount_past, Hp.
  - apply handleDeleteAccount_past, Hp.
  - apply handleGetBlockNumber_past, Hp.
  - apply handleAccountDetails_past; assumption.
  - apply handleAccountBalance_past, Hp.
  - apply handleAccountTransactionCount_past; assumption.
  - split; [|apply grown_refl]. split; [exact Hp|]. intros _ _. exact Hact.
  - apply handleSendTransaction_past, Hp.
  - apply handleUnlockAccount_past, Hp.
  - apply handleGetGasPrice_past, Hp.
  - apply handleNewPendingTransactionFilter_past, Hp.
Qed.

Lemma connectToServer_past path s :
  past_first_round s ->
  past_first_round (connectToServer indet path s)
  /\ stable s (connectToServer indet path s).
Proof.
  intros [[Hlen Hq] _]. unfold connectToServer. cbn.
  destruct (LocalSocketState_eqb (sock_state (fSocket s)) UnconnectedState);
    cbn.
  - split.
    + apply past_intro; cbn; auto. discriminate.
    + split; cbn; [reflexivity|]. count_simpl. lia.
  - match goal with |- context [bail indet ?x] =>
      destruct (bail_past x Hlen) as [B1 B2]
    end.
    split; [exact B1|]. eapply stable_trans; [|exact B2].
    split; cbn; [reflexivity|]. count_simpl. lia.
Qed.

Lemma connectedToServer_past s :
  past_first_round s ->
  past_first_round (connectedToServer indet (set_sock_state ConnectedState s))
  /\ stable s (connectedToServer indet (set_sock_state ConnectedState s)).
Proof.
  intros [Hp _]. unfold connectedToServer.
  destruct (done_past (set_sock_state ConnectedState s) Hp) as [D1 D2].
  destruct (newPendingTransactionFilter_past _ D1) as [N1 N2].
  split.
  - eapply frame_past; [apply frame_emit|].
    eapply frame_past; [apply frame_emit|]. exact N1.
  - eapply stable_trans; [|eapply frame_stable; [apply frame_emit|reflexivity]].
    eapply stable_trans; [|eapply frame_stable; [apply frame_emit|reflexivity]].
    eapply stable_trans; [|exact N2].
    eapply stable_trans; [|exact D2]. split; reflexivity.
Qed.

Lemma disconnectedFromServer_past s :
  past_first_round s ->
  past_first_round (disconnectedFromServer indet s)
  /\ stable s (disconnectedFromServer indet s).
Proof.
  intros Hpast. unfold disconnectedFromServer.
  destruct (LocalSocketState_eqb _ _).
  - destruct Hpast as [[Hlen _] _].
    match goal with |- context [bail indet ?x] =>
      destruct (bail_past x Hlen) as [B1 B2]
    end.
    split; [exact B1|]. eapply stable_trans; [|exact B2]. split; reflexivity.
  - split; [exact Hpast | apply stable_refl].
Qed.

Lemma disconnected_past s :
  past_first_round s ->
  past_first_round
    (disconnectedFromServer indet (set_sock_state UnconnectedState s))
  /\ stable s
       (disconnectedFromServer indet (set_sock_state UnconnectedState s)).
Proof.
  intros [[Hlen Hq] _].
  destruct (disconnectedFromServer_past (set_sock_state UnconnectedState s))
    as [D1 D2].
  - apply past_intro; cbn; auto. discriminate.
  - split; [exact D1|]. eapply stable_trans; [|exact D2]. split; reflexivity.
Qed.

Lemma socket_error_past errorString err s :
  past_first_round s ->
  past_first_round (step indet s (Sig_error errorString err))
  /\ stable s (step indet s (Sig_error errorString err)).
Proof.
  intros [[Hlen Hq] Hact]. cbn.
  destruct (LocalSocketState_eqb (sock_state (fSocket s)) ConnectingState)
    eqn:Hst; cbn.
  - split; [|split; reflexivity].
    apply past_intro; cbn; auto. discriminate.
  - split; [|split; reflexivity].
    apply past_intro; cbn; auto.
Qed.

Lemma step_past (s : EtherIPC) (i : Input) :
  past_first_round s -> enabled s i = true ->
  past_first_round (step indet s i) /\ grown s (step indet s i).
Proof.
  intros Hp He.
  assert (G : forall s', past_first_round s' /\ stable s s' ->
                         past_first_round s' /\ grown s s')
    by (intros s' [A B]; split; [exact A | apply stable_grown, B]).
  destruct i; cbn [step].
  - apply G, connectToServer_past, Hp.
  - apply G, getAccounts_past, Hp.
  - apply G, newAccount_past, Hp.
  - apply G, deleteAccount_past, Hp.
  - apply G, getBlockNumber_past, Hp.
  - apply G, getPeerCount_past, Hp.
  - apply G, sendTransaction_past, Hp.
  - apply G, unlockAccount_past, Hp.
  - apply G, getGasPrice_past, Hp.
  - apply G, connectedToServer_past, Hp.
  - apply G, disconnected_past, Hp.
  - apply G, socket_error_past, Hp.
  - cbn in He. apply andb_true_iff in He as [Hc Hb].
    apply onSocketReadyRead_past; [exact Hp | |].
    + apply LocalSocketState_eqb_eq, Hc.
    + unfold getBusy in Hb. destruct (fEmpty (fActiveRequest s));
        [discriminate Hb | reflexivity].
  - apply G, disconnectedFromServer_past, Hp.
Qed.

Lemma run_past (inputs : list Input) :
  forall s : EtherIPC,
    past_first_round s -> admissible indet s inputs = true ->
    past_first_round (run indet s inputs) /\ grown s (run indet s inputs).
Proof.
  induction inputs as [|i inputs IH]; intros s Hp Ha; cbn in *.
  - split; [exact Hp | apply grown_refl].
  - apply andb_true_iff in Ha as [He Ha].
    destruct (step_past s i Hp He) as [S1 S2].
    destruct (IH _ S1 Ha) as [R1 R2].
    split; [exact R1 | exact (grown_trans _ _ _ S2 R2)].
Qed.

Lemma QList_modify_app {A : Type} (i : Z) (f : A -> A) (first second : list A) :
  (0 <= i < Z.of_nat (length first) ->
   QList_modify i f (first ++ second) = QList_modify i f first ++ second)
  /\ (Z.of_nat (length first) <= i ->
      QList_modify i f (first ++ second)
      = first ++ QList_modify (i - Z.of_nat (length first)) f second).
Proof.
  unfold QList_modify. split; intros Hi.
  - destruct (Z.leb_spec 0 i); [|lia]. apply alter_app_l. lia.
  - destruct (Z.leb_spec 0 i); [|lia].
    destruct (Z.leb_spec 0 (i - Z.of_nat (length first))); [|lia].
    replace (Z.to_nat i)
      with (length first + Z.to_nat (i - Z.of_nat (length first)))%nat by lia.
    apply alter_app_r.
Qed.

Lemma queued_map_Queued (l : list RequestIPC) : queued (map Queued l) = l.
Proof.
  induction l as [|r l IH]; [reflexivity|].
  change (queued (map Queued (r :: l))) with (r :: queued (map Queued l)).
  rewrite IH. reflexivity.
Qed.

Lemma done_accounts (s : EtherIPC) :
  fAccountList (done indet s) = fAccountList s
  /\ queued (trace (done indet s)) = queued (trace s).
Proof.
  destruct (fRequestQueue s) as [|first rest] eqn:E.
  - rewrite (done_idle indet s E). cbn. rewrite queued_app. cbn.
    rewrite app_nil_r. auto.
  - destruct (done_pop indet s first rest E) as (_ & _ & H & _ & _ & H' & _).
    auto.
Qed.

(** C10. No operation removes a record from the account list. A
    [personal_listAccounts] reply appends one record per address to the
    list as it is and queues the follow-up calls with indices counted from
    0. The reply to a follow-up call with index [i] updates the record at
    position [i] of the whole list: with [first] the records present before
    the round and [second] those the round added, a record of [first] when
    [i] is below the length of [first], and otherwise the record of
    [second] at position [i] minus that length. And once a round has left
    the client idle with at least one account, no admissible run emits
    [getAccountsDone] again, while the records present stay, in order, at
    the front of the list. *)
Theorem C10_later_rounds_append_and_never_announce (s : EtherIPC) :
  (1 <= length (fAccountList s))%nat ->
  (forall refs : QJsonArray,
      fType (fActiveRequest s) = GetAccountRefs ->
      fEmpty (fActiveRequest s) = false ->
      in_int (fCallID (fActiveRequest s)) = true ->
      fAccountList (answer indet s (JArray refs))
      = fAccountList s ++ new_accounts refs
      /\ queued (trace (answer indet s (JArray refs)))
         = queued (trace s) ++ follow_ups refs 0 (sCallID s))
  /\ (forall (v : QJsonValue) (first second : list AccountInfo),
        fAccountList s = first ++ second ->
        fType (fActiveRequest s) = GetBalance ->
        in_int (fCallID (fActiveRequest s)) = true -> usable v ->
        (0 <= fIndex (fActiveRequest s) < Z.of_nat (length first) ->
         fAccountList (answer indet s v)
         = QList_modify (fIndex (fActiveRequest s))
             (setBalance (toDecStr s v)) first ++ second)
        /\ (Z.of_nat (length first) <= fIndex (fActiveRequest s) ->
            fAccountList (answer indet s v)
            = first
              ++ QList_modify
                   (fIndex (fActiveRequest s) - Z.of_nat (length first))
                   (setBalance (toDecStr s v)) second))
  /\ (forall (v : QJsonValue) (first second : list AccountInfo),
        fAccountList s = first ++ second ->
        fType (fActiveRequest s) = GetTransactionCount ->
        in_int (fCallID (fActiveRequest s)) = true -> usable v ->
        (0 <= fIndex (fActiveRequest s) < Z.of_nat (length first) ->
         fAccountList (answer indet s v)
         = QList_modify (fIndex (fActiveRequest s))
             (setTransactionCount
                (toUlong
                   (Vin_ofString (QString_remove0 2 (toString v "0x0")) 16)))
             first ++ second)
        /\ (Z.of_nat (length first) <= fIndex (fActiveRequest s) ->
            fAccountList (answer indet s v)
            = first
              ++ QList_modify
                   (fIndex (fActiveRequest s) - Z.of_nat (length first))
                   (setTransactionCount
                      (toUlong
                         (Vin_ofString
                            (QString_remove0 2 (toString v "0x0")) 16)))
                   second))
  /\ (forall inputs : list Input,
        fEmpty (fActiveRequest s) = true ->
        fRequestQueue s = [] ->
        admissible indet s inputs = true ->
        getAccountsDone_count (trace (run indet s inputs))
        = getAccountsDone_count (trace s)
        /\ map hash (fAccountList s)
           `prefix_of` map hash (fAccountList (run indet s inputs))).
Proof.
  intros Hlen. split; [|split; [|split]].
  - intros refs Hty Hb Hid.
    rewrite (answer_GetAccountRefs indet s refs Hty Hb Hid).
    destruct (handleAccountDetails_loop_spec refs 0
                (effect (SockRead (reply_to s (JArray refs))) s) Hb)
      as (_ & Lt & _ & Ll & _).
    match goal with |- context [done indet ?x] =>
      destruct (done_accounts x) as [D1 D2]
    end.
    rewrite D1, D2, Ll, Lt. cbn. split; [reflexivity|].
    rewrite <- app_assoc, !queued_app, queued_map_Queued, queued_one.
    reflexivity.
  - intros v first second Hl Hty Hid Hv.
    rewrite (answer_GetBalance indet s v Hty Hid Hv).
    match goal with |- context [done indet ?x] =>
      destruct (done_accounts x) as [D1 _]
    end.
    rewrite D1. cbn. rewrite Hl.
    apply QList_modify_app.
  - intros v first second Hl Hty Hid Hv.
    assert (E : fAccountList (answer indet s v)
                = QList_modify (fIndex (fActiveRequest s))
                    (setTransactionCount
                       (toUlong
                          (Vin_ofString
                             (QString_remove0 2 (toString v "0x0")) 16)))
                    (fAccountList s)).
    { rewrite (answer_GetTransactionCount indet s v Hty Hid Hv).
      match goal with |- context [done indet ?x] =>
        destruct (done_accounts x) as [D1 _]
      end.
      rewrite D1. destruct (_ =? _); reflexivity. }
    rewrite E, Hl. apply QList_modify_app.
  - intros inputs Hidle Hq Ha.
    assert (Hp : past_first_round s).
    { apply past_intro; [exact Hlen | rewrite Hq; constructor |].
      intros _ Hb. congruence. }
    destruct (run_past inputs s Hp Ha) as [_ [G1 G2]].
    split; [exact G2 | exact G1].
Qed.

End SecondRound.

(** C10, as stated, fails: after a first round with one account, the
    replies to the follow-up calls of a second round with two accounts
    change a record of the second round (the balance and the transaction
    count meant for "0xC" land in the record of "0xB"). *)
Lemma C10_counterexample_second_round_record_mutated :
  ~ second_round_mutates_first_round_only after_first_round
      [JString "0xB"; JString "0xC"]
      (@run SpecCodec.codec sample_indet after_first_round second_round).
Proof.
  unfold second_round_mutates_first_round_only. vm_compute. discriminate.
Qed.

(** * The first round of account listing *)

Section FirstRound.

Context {bigint : BigInt}.
Variable indet : Indeterminate.

Ltac count_simpl :=
  rewrite ?getAccountsDone_count_app, ?getAccountsDone_count_cons,
    ?getAccountsDone_count_nil;
  cbn [is_getAccountsDone].

(** ** Only [handleAccountTransactionCount] announces the accounts *)

Lemma count_writeRequest (s : EtherIPC) :
  getAccountsDone_count (trace (snd (writeRequest s)))
  = getAccountsDone_count (trace s).
Proof. apply writeRequest_footprint. Qed.

Lemma count_done (s : EtherIPC) :
  getAccountsDone_count (trace (done indet s))
  = getAccountsDone_count (trace s).
Proof.
  unfold done. destruct (fRequestQueue s) as [| first rest].
  - cbn. count_simpl. lia.
  - rewrite count_writeRequest. reflexivity.
Qed.

Lemma count_bail (s : EtherIPC) :
  getAccountsDone_count (trace (bail indet s))
  = getAccountsDone_count (trace s).
Proof.
  destruct (bail_trace indet s) as (Ht & _). rewrite Ht. count_simpl. lia.
Qed.

Lemma count_readReply (data : Received) (s : EtherIPC) :
  getAccountsDone_count (trace (snd (readReply data s)))
  = getAccountsDone_count (trace s).
Proof.
  destruct (frame_readReply data s) as (Ht & _). rewrite Ht.
  count_simpl. lia.
Qed.

Lemma count_queueRequest (r : RequestIPC) (s : EtherIPC) :
  getAccountsDone_count (trace (snd (queueRequest r s)))
  = getAccountsDone_count (trace s).
Proof.
  unfold queueRequest. cbn. destruct (fEmpty (fActiveRequest s)).
  - rewrite count_writeRequest. cbn. count_simpl. lia.
  - cbn. count_simpl. lia.
Qed.

Lemma count_loop (refs : QJsonArray) : forall (i : Z) (s : EtherIPC),
  getAccountsDone_count (trace (snd (handleAccountDetails_loop refs i s)))
  = getAccountsDone_count (trace s).
Proof.
  induction refs as [| ref refs IH]; intros i s; [reflexivity|].
  cbn [handleAccountDetails_loop RequestIPC_new].
  match goal with |- context [queueRequest ?q ?x] =>
    pose proof (count_queueRequest q x) as H1;
    destruct (queueRequest q x) as [[|] s1]
  end; cbn [snd negb] in H1 |- *; [|exact H1].
  match goal with |- context [queueRequest ?q ?x] =>
    pose proof (count_queueRequest q x) as H2;
    destruct (queueRequest q x) as [[|] s2]
  end; cbn [snd negb] in H2 |- *.
  - rewrite IH, H2. exact H1.
  - rewrite H2. exact H1.
Qed.

#[local] Arguments handleAccountDetails_loop : simpl never.

(** After the reply has been read: [bail], or signals other than
    [getAccountsDone] and [done]. *)
Ltac count_after data s :=
  let H := fresh "H" in
  pose proof (count_readReply data s) as H;
  destruct (readReply data s) as [[[|] ?jv] ?s1]; cbn [fst snd negb] in H |- *;
  rewrite ?count_bail, ?count_done; cbn; count_simpl; rewrite H; lia.

Ltac count_after_number data s :=
  let H := fresh "H" in
  pose proof (count_readReply data s) as H;
  unfold readNumber;
  destruct (readReply data s) as [[[|] ?jv] ?s1]; cbn [fst snd negb] in H |- *;
  rewrite ?count_bail, ?count_done; cbn; count_simpl; rewrite H; lia.

(** [getAccountsDone] is emitted by the handler of a transaction-count
    reply that is accepted when the call's index + 1 is the length of the
    account list, once, and by nothing else that handles data. *)
Lemma getAccountsDone_exactly_when (data : Received) (s : EtherIPC) :
  getAccountsDone_count (trace (onSocketReadyRead indet data s))
  = (getAccountsDone_count (trace s)
     + (if announces s data then 1 else 0))%nat.
Proof.
  unfold onSocketReadyRead, announces.
  destruct (fType (fActiveRequest s)).
  - unfold handleNewAccount. count_after data s.
  - unfold handleDeleteAccount. count_after data s.
  - unfold handleGetBlockNumber. count_after_number data s.
  - unfold handleAccountDetails.
    pose proof (count_readReply data s) as H.
    destruct (readReply data s) as [[[|] jv] s1]; cbn [fst snd negb] in H |- *.
    + pose proof (count_loop (toArray jv) 0 s1) as HL.
      destruct (handleAccountDetails_loop (toArray jv) 0 s1) as [[|] s2];
        cbn [snd negb] in HL |- *;
        rewrite ?count_bail, ?count_done, HL, H; lia.
    + rewrite count_bail, H. lia.
  - unfold handleAccountBalance. count_after data s.
  - unfold handleAccountTransactionCount.
    pose proof (count_readReply data s) as H.
    pose proof (frame_readReply data s) as (_ & Ha & _ & Hl & _).
    destruct (readReply data s) as [[[|] jv] s1]; cbn [fst snd negb] in *.
    + rewrite count_done. cbn. rewrite length_QList_modify, Ha, Hl.
      destruct (_ =? _); cbn; count_simpl; rewrite H; lia.
    + rewrite count_bail, H. cbn [andb]. lia.
  - lia.
  - unfold handleSendTransaction. count_after data s.
  - unfold handleUnlockAccount. count_after data s.
  - unfold handleGetGasPrice. count_after data s.
  - unfold handleNewPendingTransactionFilter. count_after_number data s.
Qed.

(** ** One reply after the other *)

Lemma done_result (s : EtherIPC) :
  fActiveRequest (done indet s) = hd (RequestIPC_none indet) (fRequestQueue s)
  /\ fRequestQueue (done indet s) = tl (fRequestQueue s)
  /\ fAccountList (done indet s) = fAccountList s
  /\ fLocale_decimalPoint (done indet s) = fLocale_decimalPoint s
  /\ (forall e : Effect, In e (trace s) -> In e (trace (done indet s))).
Proof.
  unfold done. destruct (fRequestQueue s) as [| first rest] eqn:Hq; cbn.
  - rewrite Hq. repeat (split; [reflexivity|]).
    intros e He. apply in_or_app. left. exact He.
  - unfold writeRequest. destruct (negb _); cbn;
      [repeat (split; [reflexivity|]); trivial|].
    destruct (_ <=? 0); cbn; repeat (split; [reflexivity|]);
      intros e He; apply in_or_app; left; exact He.
Qed.

Lemma length_updated (s : EtherIPC) (v : QJsonValue) :
  length (updated s v) = length (fAccountList s).
Proof.
  unfold updated. destruct (fType (fActiveRequest s));
    rewrite ?length_QList_modify; reflexivity.
Qed.

Lemma toDecStr_locale (s t : EtherIPC) (v : QJsonValue) :
  fLocale_decimalPoint t = fLocale_decimalPoint s ->
  toDecStr t v = toDecStr s v.
Proof. intros H. unfold toDecStr. rewrite H. reflexivity. Qed.

(** The accepted reply to a call other than a listing call: its handler
    updates the account list in place, and [done] takes the next pending
    call. *)
Lemma answer_advances (s : EtherIPC) (v : QJsonValue) :
  advancing (fType (fActiveRequest s)) = true ->
  in_int (fCallID (fActiveRequest s)) = true ->
  usable v ->
  fActiveRequest (answer indet s v)
  = hd (RequestIPC_none indet) (fRequestQueue s)
  /\ fRequestQueue (answer indet s v) = tl (fRequestQueue s)
  /\ fAccountList (answer indet s v) = updated s v
  /\ fLocale_decimalPoint (answer indet s v) = fLocale_decimalPoint s
  /\ (announces s (reply_to s v) = true ->
      In (Emit (getAccountsDone (updated s v))) (trace (answer indet s v))).
Proof.
  intros Hadv Hid Hv. unfold answer, onSocketReadyRead, updated, announces.
  destruct (fType (fActiveRequest s)) eqn:Hty; try discriminate Hadv;
    unfold handleNewAccount, handleDeleteAccount, handleGetBlockNumber,
      handleAccountBalance, handleAccountTransactionCount,
      handleSendTransaction, handleUnlockAccount, handleGetGasPrice,
      handleNewPendingTransactionFilter, readNumber;
    rewrite (readReply_reply_to s v Hid Hv); cbn [fst snd negb andb].
  5:{ cbn. rewrite length_QList_modify.
      destruct (wrap_int (fIndex (fActiveRequest s) + 1)
                =? Z.of_nat (length (fAccountList s)));
        match goal with |- context [done indet ?x] =>
          destruct (done_result x) as (D1 & D2 & D3 & D4 & D5);
          rewrite D1, D2, D3, D4
        end; cbn; repeat (split; [reflexivity|]); [|discriminate].
      intros _. apply D5. cbn. apply in_or_app. right. left. reflexivity. }
  all: match goal with |- context [done indet ?x] =>
         destruct (done_result x) as (D1 & D2 & D3 & D4 & D5);
         rewrite D1, D2, D3, D4
       end; cbn; repeat (split; [reflexivity|]); discriminate.
Qed.

Lemma answers_app (s : EtherIPC) (a b : list QJsonValue) :
  answers indet s (a ++ b) = answers indet (answers indet s a) b.
Proof. unfold answers. apply fold_left_app. Qed.

Lemma plain_advancing (t : RequestTypes) :
  plain_call t = true -> advancing t = true.
Proof. destruct t; cbn; congruence. Qed.

Lemma plain_announces (s : EtherIPC) (data : Received) :
  plain_call (fType (fActiveRequest s)) = true -> announces s data = false.
Proof.
  unfold announces. destruct (fType (fActiveRequest s)); cbn;
    congruence.
Qed.

(** The replies to pending calls that only report leave the accounts as
    they are, unannounced, and bring up what is pending behind them. *)
Lemma drain (pending : list RequestIPC) :
  forall (vs : list QJsonValue) (s : EtherIPC) (next : RequestIPC)
         (rest : list RequestIPC),
    length vs = length pending ->
    Forall plain_pending pending ->
    Forall usable vs ->
    fActiveRequest s :: fRequestQueue s = pending ++ next :: rest ->
    fActiveRequest (answers indet s vs) = next
    /\ fRequestQueue (answers indet s vs) = rest
    /\ fAccountList (answers indet s vs) = fAccountList s
    /\ fLocale_decimalPoint (answers indet s vs) = fLocale_decimalPoint s
    /\ forall k : nat,
         getAccountsDone_count (trace (answers indet s (take k vs)))
         = getAccountsDone_count (trace s).
Proof.
  induction pending as [| p pending IH]; intros vs s next rest Hlen Hp Hv Hs.
  - destruct vs; [|discriminate Hlen]. cbn in Hs. injection Hs as Ha Hq.
    cbn. repeat (split; [assumption || reflexivity|]).
    intros k. rewrite take_nil. reflexivity.
  - destruct vs as [| v vs]; [discriminate Hlen|].
    cbn in Hs. injection Hs as Ha Hq.
    apply Forall_cons_1 in Hp as [[Hpl Hid] Hp].
    apply Forall_cons_1 in Hv as [Hv Hvs].
    rewrite <- Ha in Hpl, Hid.
    destruct (answer_advances s v (plain_advancing _ Hpl) Hid Hv)
      as (A1 & A2 & A3 & A4 & _).
    pose proof (getAccountsDone_exactly_when (reply_to s v) s) as AC.
    rewrite (plain_announces s _ Hpl), Nat.add_0_r in AC.
    fold (answer indet s v) in AC.
    assert (A3' : fAccountList (answer indet s v) = fAccountList s).
    { rewrite A3. unfold updated.
      destruct (fType (fActiveRequest s)); try discriminate Hpl; reflexivity. }
    destruct (IH vs (answer indet s v) next rest) as (I1 & I2 & I3 & I4 & I5).
    + cbn in Hlen. lia.
    + exact Hp.
    + exact Hvs.
    + rewrite A1, A2, Hq. destruct pending; reflexivity.
    + change (answers indet s (v :: vs))
        with (answers indet (answer indet s v) vs).
      rewrite I1, I2, I3, I4, A3', A4.
      repeat (split; [reflexivity|]).
      intros [| k]; [reflexivity|].
      change (answers indet s (take (S k) (v :: vs)))
        with (answers indet (answer indet s v) (take k vs)).
      rewrite I5. exact AC.
Qed.

Lemma locale_writeRequest (s : EtherIPC) :
  fLocale_decimalPoint (snd (writeRequest s)) = fLocale_decimalPoint s.
Proof.
  unfold writeRequest. destruct (negb _); cbn; [reflexivity|].
  destruct (_ <=? 0); reflexivity.
Qed.

Lemma locale_queueRequest (r : RequestIPC) (s : EtherIPC) :
  fLocale_decimalPoint (snd (queueRequest r s)) = fLocale_decimalPoint s.
Proof.
  unfold queueRequest. cbn. destruct (fEmpty (fActiveRequest s)).
  - rewrite locale_writeRequest. reflexivity.
  - reflexivity.
Qed.

Lemma locale_loop (refs : QJsonArray) : forall (i : Z) (s : EtherIPC),
  fLocale_decimalPoint (snd (handleAccountDetails_loop refs i s))
  = fLocale_decimalPoint s.
Proof.
  induction refs as [| ref refs IH]; intros i s; [reflexivity|].
  unfold handleAccountDetails_loop; fold handleAccountDetails_loop.
  cbn [RequestIPC_new].
  match goal with |- context [queueRequest ?q ?x] =>
    pose proof (locale_queueRequest q x) as H1;
    destruct (queueRequest q x) as [[|] s1]
  end; cbn [snd negb] in H1 |- *; [|exact H1].
  match goal with |- context [queueRequest ?q ?x] =>
    pose proof (locale_queueRequest q x) as H2;
    destruct (queueRequest q x) as [[|] s2]
  end; cbn [snd negb] in H2 |- *.
  - rewrite IH, H2. exact H1.
  - rewrite H2. exact H1.
Qed.

Lemma announces_reply_to (s : EtherIPC) (v : QJsonValue) :
  in_int (fCallID (fActiveRequest s)) = true -> usable v ->
  announces s (reply_to s v)
  = match fType (fActiveRequest s) with
    | GetTransactionCount =>
        wrap_int (fIndex (fActiveRequest s) + 1)
        =? Z.of_nat (length (fAccountList s))
    | _ => false
    end.
Proof.
  intros Hid Hv. unfold announces.
  rewrite (readReply_reply_to s v Hid Hv). reflexivity.
Qed.

(** The count after the accepted reply to a follow-up call. *)
Lemma count_answer (s : EtherIPC) (v : QJsonValue) :
  in_int (fCallID (fActiveRequest s)) = true -> usable v ->
  getAccountsDone_count (trace (answer indet s v))
  = (getAccountsDone_count (trace s)
     + (if match fType (fActiveRequest s) with
           | GetTransactionCount =>
               (wrap_int (fIndex (fActiveRequest s) + 1)
                =? Z.of_nat (length (fAccountList s)))%Z
           | _ => false
           end
        then 1 else 0))%nat.
Proof.
  intros Hid Hv. unfold answer.
  rewrite getAccountsDone_exactly_when, announces_reply_to by assumption.
  reflexivity.
Qed.

Lemma hd_tl {A : Type} (d : A) (l : list A) :
  l <> [] -> hd d l :: tl l = l.
Proof. destruct l; [congruence | reflexivity]. Qed.

(** C6. A client waiting for the reply to [personal_listAccounts], the
    calls pending behind it being calls whose handler only reports (call
    ids within the range of [int]), receives the addresses "0xA" and "0xB".
    Two records are appended to the account list as it is, and exactly
    four calls are queued behind the
    pending ones: [GetBalance] and [GetTransactionCount] for position 0,
    then for position 1. As the replies to the pending calls and to these
    four arrive, each with a usable result, [getAccountsDone] is not
    emitted before the fourth, the transaction count of position 1; that
    one emits it, once, when the account list was empty before (index + 1
    is then 2, the length of the list), the list then holding the two
    records with their balances and counts; and it does not emit it when
    the list had records already. In any state, the handler of data emits
    [getAccountsDone] exactly when the data is the accepted reply to a
    transaction-count call whose index + 1 is the length of the account
    list, and then once. *)
Theorem C6_two_accounts_four_follow_ups_one_ready
    (s : EtherIPC) (vs : list QJsonValue) (v1 v2 v3 v4 : QJsonValue) :
  fType (fActiveRequest s) = GetAccountRefs ->
  fEmpty (fActiveRequest s) = false ->
  in_int (fCallID (fActiveRequest s)) = true ->
  in_int (sCallID s) = true ->
  Forall plain_pending (fRequestQueue s) ->
  length vs = length (fRequestQueue s) ->
  Forall usable vs ->
  usable v1 -> usable v2 -> usable v3 -> usable v4 ->
  fAccountList (answer indet s (JArray two_accounts))
  = fAccountList s ++ new_accounts two_accounts
  /\ queued (trace (answer indet s (JArray two_accounts)))
     = queued (trace s) ++ follow_ups two_accounts 0 (sCallID s)
  /\ fActiveRequest (answer indet s (JArray two_accounts))
     :: fRequestQueue (answer indet s (JArray two_accounts))
     = fRequestQueue s ++ follow_ups two_accounts 0 (sCallID s)
  /\ map follow_up_of (follow_ups two_accounts 0 (sCallID s))
     = [(GetBalance, 0, [JString "0xA"; JString "latest"]);
        (GetTransactionCount, 0, [JString "0xA"; JString "latest"]);
        (GetBalance, 1, [JString "0xB"; JString "latest"]);
        (GetTransactionCount, 1, [JString "0xB"; JString "latest"])]
  /\ (forall k : nat,
        (k <= length vs + 3)%nat ->
        getAccountsDone_count
          (trace (answers indet (answer indet s (JArray two_accounts))
                    (take k (vs ++ [v1; v2; v3; v4]))))
        = getAccountsDone_count (trace s))
  /\ getAccountsDone_count
       (trace (answers indet (answer indet s (JArray two_accounts))
                 (vs ++ [v1; v2; v3; v4])))
     = (getAccountsDone_count (trace s)
        + (if Nat.eqb (length (fAccountList s)) 0 then 1 else 0))%nat
  /\ (fAccountList s = [] ->
      fAccountList
        (answers indet (answer indet s (JArray two_accounts))
           (vs ++ [v1; v2; v3; v4]))
      = [mkAccountInfo "0xA" (toDecStr s v1) (number_of v2);
         mkAccountInfo "0xB" (toDecStr s v3) (number_of v4)]
      /\ In (Emit (getAccountsDone
                     [mkAccountInfo "0xA" (toDecStr s v1) (number_of v2);
                      mkAccountInfo "0xB" (toDecStr s v3) (number_of v4)]))
           (trace (answers indet (answer indet s (JArray two_accounts))
                     (vs ++ [v1; v2; v3; v4]))))
  /\ (forall (t : EtherIPC) (data : Received),
        getAccountsDone_count (trace (onSocketReadyRead indet data t))
        = (getAccountsDone_count (trace t)
           + (if announces t data then 1 else 0))%nat).
Proof.
  intros Hty Hb Hid Hnext Hq Hlen Hvs Hv1 Hv2 Hv3 Hv4.
  (* the reply to personal_listAccounts *)
  pose proof (answer_GetAccountRefs indet s two_accounts Hty Hb Hid) as E1.
  destruct (handleAccountDetails_loop_spec two_accounts 0
              (effect (SockRead (reply_to s (JArray two_accounts))) s) Hb)
    as (_ & Lt & Lq & Ll & _).
  pose proof (count_loop two_accounts 0
                (effect (SockRead (reply_to s (JArray two_accounts))) s))
    as Lc.
  pose proof (locale_loop two_accounts 0
                (effect (SockRead (reply_to s (JArray two_accounts))) s))
    as Lo.
  set (sl := snd (handleAccountDetails_loop two_accounts 0
                    (effect (SockRead (reply_to s (JArray two_accounts)))
                       s))) in *.
  cbn [trace effect fRequestQueue fAccountList sCallID fLocale_decimalPoint]
    in Lt, Lq, Ll, Lc, Lo.
  rewrite getAccountsDone_count_app in Lc. cbn in Lc.
  change (getAccountsDone_count [SockRead (reply_to s (JArray two_accounts))])
    with 0%nat in Lc.
  rewrite Nat.add_0_r in Lc.
  set (fu := follow_ups two_accounts 0 (sCallID s)) in *.
  destruct (done_result sl) as (D1 & D2 & D3 & D4 & _).
  destruct (done_accounts indet sl) as (_ & Dq).
  pose proof (count_done sl) as Dc.
  rewrite <- E1 in D1, D2, D3, D4, Dq, Dc.
  set (s1 := answer indet s (JArray two_accounts)) in *.
  assert (A1 : fActiveRequest s1 :: fRequestQueue s1 = fRequestQueue s ++ fu).
  { rewrite D1, D2, Lq. apply hd_tl. unfold fu. cbn.
    destruct (fRequestQueue s); discriminate. }
  assert (L1 : fAccountList s1 = fAccountList s ++ new_accounts two_accounts)
    by (rewrite D3; exact Ll).
  assert (C1 : getAccountsDone_count (trace s1)
               = getAccountsDone_count (trace s))
    by (rewrite Dc; exact Lc).
  assert (O1 : fLocale_decimalPoint s1 = fLocale_decimalPoint s)
    by (rewrite D4; exact Lo).
  assert (Q1 : queued (trace s1) = queued (trace s) ++ fu).
  { rewrite Dq, Lt, !queued_app, queued_map_Queued. cbn.
    rewrite app_nil_r. reflexivity. }
  (* the replies to the calls pending before *)
  destruct (drain (fRequestQueue s) vs s1
              (mkRequestIPC (sCallID s) GetBalance "eth_getBalance"
                 [JString "0xA"; JString "latest"] 0 false)
              (tl fu) Hlen Hq Hvs A1)
    as (A2 & R2 & L2 & O2 & C2).
  pose proof (C2 (length vs)) as C2'. rewrite take_ge in C2' by lia.
  set (s2 := answers indet s1 vs) in *.
  unfold fu in R2. cbn [follow_ups two_accounts tl toString] in R2.
  (* the balance of position 0 *)
  assert (I2 : in_int (fCallID (fActiveRequest s2)) = true)
    by (rewrite A2; exact Hnext).
  destruct (answer_advances s2 v1) as (A3 & R3 & L3 & O3 & _);
    [rewrite A2; reflexivity | exact I2 | exact Hv1 |].
  pose proof (count_answer s2 v1 I2 Hv1) as C3.
  rewrite A2 in C3. cbn [fType] in C3.
  rewrite Nat.add_0_r, C2' in C3.
  set (s3 := answer indet s2 v1) in *.
  rewrite R2 in A3, R3. cbn [hd tl] in A3, R3.
  (* the transaction count of position 0 *)
  assert (I3 : in_int (fCallID (fActiveRequest s3)) = true)
    by (rewrite A3; apply in_int_wrap_int).
  destruct (answer_advances s3 v2) as (A4 & R4 & L4 & O4 & _);
    [rewrite A3; reflexivity | exact I3 | exact Hv2 |].
  pose proof (count_answer s3 v2 I3 Hv2) as C4.
  rewrite A3, L3, length_updated, L2, L1, length_app in C4.
  cbn [fType fIndex new_accounts two_accounts map length] in C4.
  replace (wrap_int (0 + 1)
           =? Z.of_nat (length (fAccountList s) + 2)) with false in C4
    by (symmetry; apply Z.eqb_neq; change (wrap_int (0 + 1)) with 1; lia).
  rewrite Nat.add_0_r, C3 in C4.
  set (s4 := answer indet s3 v2) in *.
  rewrite R3 in A4, R4. cbn [hd tl] in A4, R4.
  (* the balance of position 1 *)
  assert (I4 : in_int (fCallID (fActiveRequest s4)) = true)
    by (rewrite A4; apply in_int_wrap_int).
  destruct (answer_advances s4 v3) as (A5 & R5 & L5 & O5 & _);
    [rewrite A4; reflexivity | exact I4 | exact Hv3 |].
  pose proof (count_answer s4 v3 I4 Hv3) as C5.
  rewrite A4 in C5. cbn [fType] in C5. rewrite Nat.add_0_r, C4 in C5.
  set (s5 := answer indet s4 v3) in *.
  rewrite R4 in A5, R5. cbn [hd tl] in A5, R5.
  (* the transaction count of position 1 *)
  assert (I5 : in_int (fCallID (fActiveRequest s5)) = true)
    by (rewrite A5; apply in_int_wrap_int).
  destruct (answer_advances s5 v4) as (A6 & R6 & L6 & O6 & N6);
    [rewrite A5; reflexivity | exact I5 | exact Hv4 |].
  pose proof (count_answer s5 v4 I5 Hv4) as C6.
  rewrite announces_reply_to in N6 by assumption.
  rewrite A5, L5, length_updated, L4, length_updated, L3, length_updated,
    L2, L1, length_app in C6, N6.
  cbn [fType fIndex new_accounts two_accounts map length] in C6, N6.
  replace (wrap_int (wrap_int (0 + 1) + 1)
           =? Z.of_nat (length (fAccountList s) + 2))
    with (Nat.eqb (length (fAccountList s)) 0) in C6, N6
    by (change (wrap_int (wrap_int (0 + 1) + 1)) with 2;
        destruct (length (fAccountList s)); cbn [Nat.eqb];
        symmetry; [apply Z.eqb_eq | apply Z.eqb_neq]; lia).
  rewrite C5 in C6.
  set (s6 := answer indet s5 v4) in *.
  assert (Efin : answers indet s1 (vs ++ [v1; v2; v3; v4]) = s6).
  { rewrite answers_app. reflexivity. }
  (* together *)
  split; [exact L1|]. split; [exact Q1|]. split; [exact A1|].
  split; [reflexivity|].
  split.
  { intros k Hk.
    destruct (Nat.le_gt_cases k (length vs)) as [Hle | Hgt].
    - rewrite take_app_le by exact Hle. rewrite C2. exact C1.
    - rewrite take_app_ge by lia.
      rewrite answers_app. fold s2.
      destruct (k - length vs)%nat as [| [| [| [| j]]]] eqn:Ej; try lia; cbn.
      + fold s3. rewrite C3. exact C1.
      + fold s3 s4. rewrite C4. exact C1.
      + fold s3 s4 s5. rewrite C5. exact C1. }
  rewrite Efin.
  split; [rewrite C6, C1; reflexivity|].
  split; [|intros t data; apply getAccountsDone_exactly_when].
  intros Hnil.
  assert (Lfin : fAccountList s6
                 = [mkAccountInfo "0xA" (toDecStr s v1) (number_of v2);
                    mkAccountInfo "0xB" (toDecStr s v3) (number_of v4)]).
  { rewrite L6. unfold updated at 1. rewrite A5, L5. cbn [fType fIndex].
    unfold updated at 1. rewrite A4, L4. cbn [fType fIndex].
    unfold updated at 1. rewrite A3, L3. cbn [fType fIndex].
    unfold updated at 1. rewrite A2, L2, L1, Hnil. cbn [fType fIndex].
    rewrite (toDecStr_locale s s4), (toDecStr_locale s s2)
      by congruence.
    change (wrap_int (0 + 1)) with 1. reflexivity. }
  split; [exact Lfin|].
  rewrite <- Lfin, L6. apply N6. rewrite Hnil. reflexivity.
Qed.

End FirstRound.

(** C6, as stated, fails: with a second listing call pending behind the
    first, both answered with the two addresses, the list has four records
    when the follow-up replies arrive, the follow-up calls of either reply
    carry the indices 0 and 1, and when all of them have been answered
    [getAccountsDone] has not been emitted at all. *)
Lemma C6_counterexample_second_listing_pending :
  ~ @listing_announced_once SpecCodec.codec sample_indet
      double_listing_client double_listing_results.
Proof. unfold listing_announced_once. vm_compute. discriminate. Qed.

(** * Runs with late replies *)

Section Late.

Context {bigint : BigInt}.
Variable indet : Indeterminate.

(** An accepted reply changes nothing but the history. *)
Lemma readReply_accepted (data : Received) (s : EtherIPC) :
  fst (fst (readReply data s)) = true ->
  readReply data s
  = (true, snd (fst (readReply data s)), effect (SockRead data) s).
Proof.
  unfold readReply. destruct data as [| e | doc]; cbn; try discriminate.
  destruct (negb _); cbn; [discriminate|].
  destruct (isUndefined _ || isNull _); cbn.
  - destruct (contains _ "error"); cbn; discriminate.
  - reflexivity.
Qed.

(** ** A stray listing reply *)

Lemma one_at_a_time_from_queued_write (l : list RequestIPC)
    (msg : QJsonObject) (sent : Z) (tl : list Effect) :
  one_at_a_time_from true (map Queued l ++ SockWrite msg sent :: tl) = false.
Proof. induction l as [| r l IH]; [reflexivity | exact IH]. Qed.

(** Data taken for a listing reply while no call is active: the first
    follow-up call is written at once, and [done] writes the second before
    any reply was read. *)
Lemma stray_listing_writes_twice (s : EtherIPC) (data : Received) :
  stray_listing s data = true ->
  sock_state (fSocket s) = ConnectedState ->
  0 < sock_sent (fSocket s) (sock_writes (fSocket s)) ->
  one_at_a_time (trace (onSocketReadyRead indet data s)) = false.
Proof.
  unfold stray_listing. intros Hs Hk Hsent.
  apply andb_true_iff in Hs as [Hs Hrefs].
  apply andb_true_iff in Hs as [Hs Hok].
  apply andb_true_iff in Hs as [Hidle Hty].
  destruct (fType (fActiveRequest s)) eqn:Ety; try discriminate Hty.
  unfold onSocketReadyRead. rewrite Ety. unfold handleAccountDetails.
  rewrite (readReply_accepted data s Hok) in Hrefs |- *. cbn [fst snd] in Hrefs.
  cbn [negb]. destruct (toArray _) as [| ref refs]; [discriminate Hrefs|].
  cbn [handleAccountDetails_loop RequestIPC_new].
  assert (Hle : (sock_sent (fSocket s) (sock_writes (fSocket s)) <=? 0) = false)
    by (apply Z.leb_gt; exact Hsent).
  unfold queueRequest at 1. cbn. rewrite Hidle.
  unfold writeRequest at 1, isWritable. cbn. rewrite Hk, Hle. cbn.
  rewrite queueRequest_busy_eq by reflexivity. cbn.
  match goal with |- context [handleAccountDetails_loop refs ?j ?x] =>
    destruct (handleAccountDetails_loop_spec refs j x eq_refl)
      as (Lok & Lt & Lq & _ & _ & Ls);
    destruct (handleAccountDetails_loop refs j x) as [ok s3]
  end.
  cbn [fst snd] in Lok, Lt, Lq, Ls. subst ok. cbn [negb].
  cbn in Lt, Lq, Ls.
  unfold done.
  assert (Hne : exists first rest, fRequestQueue s3 = first :: rest).
  { rewrite Lq. destruct (fRequestQueue s); cbn; eauto. }
  destruct Hne as (first & rest & Hq). rewrite Hq.
  unfold writeRequest, isWritable. cbn. rewrite Ls. cbn. rewrite ?Hk. cbn.
  assert (Ht : forall z : Z,
             one_at_a_time
               (trace s3 ++ [SockWrite (methodToJSON first) z]) = false).
  { intros z. rewrite Lt, <- !app_assoc. cbn.
    rewrite one_at_a_time_app. cbn.
    apply Z.ltb_lt in Hsent. rewrite Hsent. cbn.
    change (Queued ?a :: map Queued ?l ++ ?t) with (map Queued (a :: l) ++ t).
    rewrite one_at_a_time_from_queued_write. apply andb_false_r. }
  destruct (sock_sent (fSocket s) (S (sock_writes (fSocket s))) <=? 0); cbn;
    apply Ht.
Qed.

#[local] Arguments handleAccountDetails_loop : simpl never.

(** ** Stray data keeps the queue consistent *)

Lemma handleAccountDetails_consistent_late data s :
  queue_sound s ->
  fEmpty (fActiveRequest s) = false
  \/ fst (fst (readReply data s)) = false
  \/ toArray (snd (fst (readReply data s))) = [] ->
  consistent (handleAccountDetails indet data s).
Proof.
  intros Hq [Hb | [Hf | Hn]].
  - apply handleAccountDetails_consistent; assumption.
  - unfold handleAccountDetails.
    pose proof (frame_read _ _ _ (frame_readReply data s) Hq) as Hs.
    destruct (readReply data s) as [[ok jv] s1]. cbn in Hf, Hs. subst ok.
    cbn [negb]. apply bail_consistent, settled_queue_sound, Hs.
  - unfold handleAccountDetails.
    pose proof (frame_read _ _ _ (frame_readReply data s) Hq) as Hs.
    destruct (readReply data s) as [[ok jv] s1]. cbn in Hn, Hs.
    destruct ok; cbn [negb].
    + rewrite Hn. unfold handleAccountDetails_loop. cbn [negb].
      apply done_consistent, Hs.
    + apply bail_consistent, settled_queue_sound, Hs.
Qed.

Lemma stray_listing_false (s : EtherIPC) (data : Received) :
  stray_listing s data = false ->
  fType (fActiveRequest s) <> GetAccountRefs
  \/ fEmpty (fActiveRequest s) = false
  \/ fst (fst (readReply data s)) = false
  \/ toArray (snd (fst (readReply data s))) = [].
Proof.
  unfold stray_listing. intros H.
  destruct (fEmpty (fActiveRequest s)); [|auto].
  destruct (fType (fActiveRequest s)); try (left; discriminate).
  destruct (fst (fst (readReply data s))); [|auto].
  destruct (toArray (snd (fst (readReply data s)))); [auto|].
  discriminate H.
Qed.

Lemma onSocketReadyRead_consistent_late data s :
  consistent s -> stray_listing s data = false ->
  consistent (onSocketReadyRead indet data s).
Proof.
  intros Hc Hn. pose proof (consistent_queue_sound s Hc) as Hq.
  apply stray_listing_false in Hn.
  unfold onSocketReadyRead.
  destruct (fType (fActiveRequest s)) eqn:Hty.
  - apply handleNewAccount_consistent, Hq.
  - apply handleDeleteAccount_consistent, Hq.
  - apply handleGetBlockNumber_consistent, Hq.
  - apply handleAccountDetails_consistent_late; [exact Hq|].
    destruct Hn as [Hn | Hn]; [contradiction | exact Hn].
  - apply handleAccountBalance_consistent, Hq.
  - apply handleAccountTransactionCount_consistent, Hq.
  - exact Hc.
  - apply handleSendTransaction_consistent, Hq.
  - apply handleUnlockAccount_consistent, Hq.
  - apply handleGetGasPrice_consistent, Hq.
  - apply handleNewPendingTransactionFilter_consistent, Hq.
Qed.

Lemma step_consistent_late (s : EtherIPC) (i : Input) :
  consistent s -> deliverable s i = true -> consistent (step indet s i).
Proof.
  intros Hc He.
  destruct i; try (apply step_consistent; [exact Hc | exact He]).
  cbn in He. apply andb_true_iff in He as [_ Hn].
  apply negb_true_iff in Hn. cbn [step].
  apply onSocketReadyRead_consistent_late; assumption.
Qed.

(** ** What was handed over is written, as long as nothing fails *)

Lemma clean_app (a b : list Effect) : clean (a ++ b) = clean a && clean b.
Proof. unfold clean. apply forallb_app. Qed.

Lemma clean_passive_l (a b : list Effect) :
  clean (a ++ b) = true -> clean a = true.
Proof. rewrite clean_app. intros H. apply andb_true_iff in H as [H _]. exact H. Qed.

Lemma written_cons (e : Effect) (tr : list Effect) :
  written (e :: tr) = written_of e ++ written tr.
Proof. reflexivity. Qed.

Lemma written_nil : written [] = [].
Proof. reflexivity. Qed.

Ltac effects_simpl :=
  rewrite ?queued_app, ?written_app, ?queued_cons, ?written_cons,
    ?queued_nil, ?written_nil;
  cbn [queued_of written_of app].

Lemma written_map_Queued (l : list RequestIPC) : written (map Queued l) = [].
Proof. induction l as [| r l IH]; [reflexivity | exact IH]. Qed.

Lemma in_flight_map_Queued (l : list RequestIPC) (b : bool) :
  fold_left in_flight_after (map Queued l) b = b.
Proof. induction l as [| r l IH]; [reflexivity | exact IH]. Qed.

Lemma in_flight_passive_false (tr w : list Effect) :
  all_passive w -> in_flight tr = false -> in_flight (tr ++ w) = false.
Proof.
  intros Hw Hf. destruct (in_flight (tr ++ w)) eqn:E; [|reflexivity].
  rewrite in_flight_app in E. apply (in_flight_passive _ w Hw) in E.
  congruence.
Qed.

Lemma complete_ext (s s' : EtherIPC) (w : list Effect) :
  trace s' = trace s ++ w -> all_passive w ->
  fRequestQueue s' = fRequestQueue s ->
  complete s -> complete s'.
Proof.
  intros Ht Hw Hq Hc. unfold complete. rewrite Ht, Hq. intros Hcl.
  rewrite queued_app, written_app, (queued_passive w Hw),
    (written_passive w Hw), !app_nil_r.
  apply Hc, (clean_passive_l _ w), Hcl.
Qed.

Lemma faithful_ext (s s' : EtherIPC) (w : list Effect) :
  trace s' = trace s ++ w -> all_passive w ->
  fRequestQueue s' = fRequestQueue s ->
  fActiveRequest s' = fActiveRequest s ->
  faithful s -> faithful s'.
Proof.
  intros Ht Hw Hq Ha [Hc Hl]. split.
  - apply (complete_ext s s' w); assumption.
  - unfold active_in_flight. rewrite Ht, Ha. intros Hf.
    rewrite in_flight_app in Hf. apply (in_flight_passive _ w Hw) in Hf.
    rewrite written_app, (written_passive w Hw), app_nil_r.
    apply Hl, Hf.
Qed.

Lemma ready_ext (s s' : EtherIPC) (w : list Effect) :
  trace s' = trace s ++ w -> all_passive w ->
  fRequestQueue s' = fRequestQueue s ->
  sock_state (fSocket s') = sock_state (fSocket s) ->
  ready s -> ready s'.
Proof.
  intros Ht Hw Hq Hs (Hc & Hf & Hk). split; [|split].
  - apply (complete_ext s s' w); assumption.
  - rewrite Ht. apply in_flight_passive_false; assumption.
  - rewrite Hs. exact Hk.
Qed.

Lemma ready_emit (sig : Signal) (s : EtherIPC) : ready s -> ready (emit sig s).
Proof.
  apply (ready_ext s _ [Emit sig]); try reflexivity. repeat constructor.
Qed.

Lemma ready_same (s s' : EtherIPC) :
  trace s' = trace s -> fRequestQueue s' = fRequestQueue s ->
  sock_state (fSocket s') = sock_state (fSocket s) ->
  ready s -> ready s'.
Proof.
  intros Ht Hq Hs. apply (ready_ext s s' []); try assumption.
  - rewrite app_nil_r. exact Ht.
  - constructor.
Qed.

(** After [bail] there is a failure on record and nothing in flight. *)
Lemma faithful_bail (s : EtherIPC) : faithful (bail indet s).
Proof.
  destruct (bail_trace indet s) as (Ht & _). split.
  - unfold complete. rewrite Ht, clean_app. cbn.
    rewrite andb_false_r. discriminate.
  - unfold active_in_flight. rewrite Ht, in_flight_app. cbn. discriminate.
Qed.

Lemma writeRequest_faithful (s : EtherIPC) :
  (clean (trace s) = true ->
   map methodToJSON (queued (trace s))
   = written (trace s)
     ++ methodToJSON (fActiveRequest s) :: map methodToJSON (fRequestQueue s)) ->
  in_flight (trace s) = false ->
  isWritable (fSocket s) = true ->
  faithful (snd (writeRequest s)).
Proof.
  intros Hc Hf Hw. unfold writeRequest. rewrite Hw. cbn [negb].
  set (sent := sock_sent (fSocket s) (sock_writes (fSocket s))).
  assert (Hall : faithful
            (effect (SockWrite (methodToJSON (fActiveRequest s)) sent)
               (set_fSocket
                  (mkQLocalSocket (sock_state (fSocket s))
                     (sock_errorString (fSocket s)) (sock_sent (fSocket s))
                     (S (sock_writes (fSocket s)))) s))).
  { split.
    - unfold complete. cbn. rewrite clean_app. cbn. rewrite andb_true_r.
      intros Hcl. apply andb_true_iff in Hcl as [Hcl Hs].
      rewrite queued_app, written_app, queued_one, written_one. cbn.
      rewrite Hs, app_nil_r, <- app_assoc. cbn. apply Hc, Hcl.
    - unfold active_in_flight. cbn. rewrite in_flight_app. cbn.
      rewrite written_app, written_one. cbn.
      destruct (0 <? sent).
      + intros _. apply last_snoc.
      + rewrite Hf. discriminate. }
  destruct (sent <=? 0); cbn [snd]; [|exact Hall].
  destruct Hall as [Hc' Hl']. split; [exact Hc' | exact Hl'].
Qed.

Lemma writeRequest_ok (s : EtherIPC) :
  fst (writeRequest s) = true -> isWritable (fSocket s) = true.
Proof.
  unfold writeRequest. destruct (isWritable (fSocket s)); [reflexivity|].
  cbn. discriminate.
Qed.

Lemma isWritable_connected (s : EtherIPC) :
  sock_state (fSocket s) = ConnectedState -> isWritable (fSocket s) = true.
Proof. intros H. unfold isWritable. rewrite H. reflexivity. Qed.

Lemma done_faithful (s : EtherIPC) : ready s -> faithful (done indet s).
Proof.
  intros (Hc & Hf & Hk). unfold done.
  destruct (fRequestQueue s) as [| first rest] eqn:Hq.
  - split.
    + apply (complete_ext s _ [Emit (busyChanged false)]);
        try reflexivity; [repeat constructor | exact Hc].
    + unfold active_in_flight. cbn. rewrite in_flight_app. cbn.
      rewrite Hf. discriminate.
  - apply writeRequest_faithful; cbn.
    + intros Hcl. rewrite (Hc Hcl), Hq. reflexivity.
    + exact Hf.
    + apply isWritable_connected. exact Hk.
Qed.

Lemma queueRequest_faithful (r : RequestIPC) (s : EtherIPC) :
  consistent s -> faithful s ->
  fst (queueRequest r s) = true -> faithful (snd (queueRequest r s)).
Proof.
  intros (_ & Hfl & Hidle) [Hc Hl]. unfold queueRequest. cbn.
  destruct (fEmpty (fActiveRequest s)) eqn:Hact.
  - intros Hok. specialize (Hidle eq_refl).
    assert (Hfl' : in_flight (trace s) = false).
    { destruct (in_flight (trace s)); [|reflexivity].
      destruct (Hfl eq_refl). congruence. }
    apply writeRequest_faithful; cbn.
    + rewrite <- app_assoc, clean_app. intros Hcl.
      apply andb_true_iff in Hcl as [Hcl _]. specialize (Hc Hcl).
      rewrite Hidle in Hc |- *. cbn in Hc |- *. rewrite app_nil_r in Hc.
      effects_simpl. rewrite map_app, Hc, app_nil_r. reflexivity.
    + rewrite <- app_assoc, in_flight_app. cbn. exact Hfl'.
    + apply writeRequest_ok in Hok. exact Hok.
  - intros _. cbn. split.
    + unfold complete. cbn. rewrite clean_app. intros Hcl.
      apply andb_true_iff in Hcl as [Hcl _].
      rewrite queued_app, written_app, queued_one, written_one. cbn.
      rewrite !map_app, (Hc Hcl), app_nil_r, <- app_assoc. reflexivity.
    + unfold active_in_flight. cbn. rewrite in_flight_app. cbn.
      rewrite written_app, written_one. cbn. rewrite app_nil_r. exact Hl.
Qed.

(** ** The handlers *)

Lemma ready_readReply (data : Received) (s : EtherIPC) :
  complete s -> sock_state (fSocket s) = ConnectedState ->
  ready (snd (readReply data s)).
Proof.
  intros Hc Hk.
  destruct (frame_readReply data s) as (Ht & _ & Hq & _ & Hs).
  split; [|split].
  - apply (complete_ext s _ [SockRead data]); try assumption.
    repeat constructor.
  - rewrite Ht, in_flight_app. reflexivity.
  - rewrite Hs. exact Hk.
Qed.

Lemma ready_readNumber (data : Received) (s : EtherIPC) :
  complete s -> sock_state (fSocket s) = ConnectedState ->
  ready (snd (readNumber data s)).
Proof.
  intros Hc Hk. unfold readNumber.
  pose proof (ready_readReply data s Hc Hk) as H.
  destruct (readReply data s) as [[[|] jv] s1]; exact H.
Qed.

(** After the reply has been read: [bail], or some signals and [done]. *)
Ltac finish :=
  first
    [ apply faithful_bail
    | apply done_faithful;
      repeat first
        [ assumption
        | apply ready_emit
        | eapply ready_same; [reflexivity | reflexivity | reflexivity |] ] ].

Ltac reply_read data s Hc Hk :=
  let H := fresh "Hr" in
  pose proof (ready_readReply data s Hc Hk) as H;
  destruct (readReply data s) as [[[|] ?jv] ?s1]; cbn [snd negb] in H |- *.

Ltac number_read data s Hc Hk :=
  let H := fresh "Hr" in
  pose proof (ready_readNumber data s Hc Hk) as H;
  destruct (readNumber data s) as [[?n|] ?s1]; cbn [snd] in H |- *.

Lemma handleNewAccount_faithful data s :
  complete s -> sock_state (fSocket s) = ConnectedState ->
  faithful (handleNewAccount indet data s).
Proof. intros Hc Hk. unfold handleNewAccount. reply_read data s Hc Hk; finish. Qed.

Lemma handleDeleteAccount_faithful data s :
  complete s -> sock_state (fSocket s) = ConnectedState ->
  faithful (handleDeleteAccount indet data s).
Proof.
  intros Hc Hk. unfold handleDeleteAccount. reply_read data s Hc Hk; finish.
Qed.

Lemma handleSendTransaction_faithful data s :
  complete s -> sock_state (fSocket s) = ConnectedState ->
  faithful (handleSendTransaction indet data s).
Proof.
  intros Hc Hk. unfold handleSendTransaction. reply_read data s Hc Hk; finish.
Qed.

Lemma handleUnlockAccount_faithful data s :
  complete s -> sock_state (fSocket s) = ConnectedState ->
  faithful (handleUnlockAccount indet data s).
Proof.
  intros Hc Hk. unfold handleUnlockAccount. reply_read data s Hc Hk; finish.
Qed.

Lemma handleGetGasPrice_faithful data s :
  complete s -> sock_state (fSocket s) = ConnectedState ->
  faithful (handleGetGasPrice indet data s).
Proof.
  intros Hc Hk. unfold handleGetGasPrice. reply_read data s Hc Hk; finish.
Qed.

Lemma handleAccountBalance_faithful data s :
  complete s -> sock_state (fSocket s) = ConnectedState ->
  faithful (handleAccountBalance indet data s).
Proof.
  intros Hc Hk. unfold handleAccountBalance. reply_read data s Hc Hk; finish.
Qed.

Lemma handleAccountTransactionCount_faithful data s :
  complete s -> sock_state (fSocket s) = ConnectedState ->
  faithful (handleAccountTransactionCount indet data s).
Proof.
  intros Hc Hk. unfold handleAccountTransactionCount.
  reply_read data s Hc Hk; [|finish].
  cbn. destruct (_ =? _); finish.
Qed.

Lemma handleGetBlockNumber_faithful data s :
  complete s -> sock_state (fSocket s) = ConnectedState ->
  faithful (handleGetBlockNumber indet data s).
Proof.
  intros Hc Hk. unfold handleGetBlockNumber. number_read data s Hc Hk; finish.
Qed.

Lemma handleNewPendingTransactionFilter_faithful data s :
  complete s -> sock_state (fSocket s) = ConnectedState ->
  faithful (handleNewPendingTransactionFilter indet data s).
Proof.
  intros Hc Hk. unfold handleNewPendingTransactionFilter.
  number_read data s Hc Hk; finish.
Qed.

(** While a call is active the loop of [handleAccountDetails] only adds to
    what was handed over and to what is pending. *)
Lemma handleAccountDetails_loop_ready (refs : QJsonArray) (i : Z)
    (s : EtherIPC) :
  fEmpty (fActiveRequest s) = false -> ready s ->
  fst (handleAccountDetails_loop refs i s) = true
  /\ ready (snd (handleAccountDetails_loop refs i s)).
Proof.
  intros Hb (Hc & Hf & Hk).
  destruct (handleAccountDetails_loop_spec refs i s Hb)
    as (Hok & Ht & Hq & _ & _ & Hs).
  split; [exact Hok|]. split; [|split].
  - unfold complete. rewrite Ht, Hq, clean_app. intros Hcl.
    apply andb_true_iff in Hcl as [Hcl _].
    rewrite queued_app, written_app, queued_map_Queued, written_map_Queued,
      !map_app, (Hc Hcl), app_nil_r, <- app_assoc. reflexivity.
  - rewrite Ht, in_flight_app, in_flight_map_Queued. exact Hf.
  - rewrite Hs. exact Hk.
Qed.

Lemma handleAccountDetails_faithful data s :
  complete s -> sock_state (fSocket s) = ConnectedState ->
  fEmpty (fActiveRequest s) = false
  \/ fst (fst (readReply data s)) = false
  \/ toArray (snd (fst (readReply data s))) = [] ->
  faithful (handleAccountDetails indet data s).
Proof.
  intros Hc Hk Hcase. unfold handleAccountDetails.
  pose proof (ready_readReply data s Hc Hk) as Hr.
  destruct (frame_readReply data s) as (_ & Ha & _).
  destruct (readReply data s) as [[[|] jv] s1]; cbn [fst snd negb] in *;
    [|apply faithful_bail].
  destruct Hcase as [Hb | [Hf | Hn]]; [| discriminate Hf |].
  - rewrite <- Ha in Hb.
    destruct (handleAccountDetails_loop_ready (toArray jv) 0 s1 Hb Hr)
      as [Hok Hr'].
    destruct (handleAccountDetails_loop (toArray jv) 0 s1) as [ok s2].
    cbn [fst snd] in *. subst ok. cbn [negb]. apply done_faithful, Hr'.
  - rewrite Hn. unfold handleAccountDetails_loop. cbn [negb].
    apply done_faithful, Hr.
Qed.

Lemma onSocketReadyRead_faithful data s :
  faithful s -> sock_state (fSocket s) = ConnectedState ->
  stray_listing s data = false ->
  faithful (onSocketReadyRead indet data s).
Proof.
  intros Hf Hk Hn. pose proof (proj1 Hf) as Hc.
  apply stray_listing_false in Hn.
  unfold onSocketReadyRead.
  destruct (fType (fActiveRequest s)) eqn:Hty.
  - apply handleNewAccount_faithful; assumption.
  - apply handleDeleteAccount_faithful; assumption.
  - apply handleGetBlockNumber_faithful; assumption.
  - apply handleAccountDetails_faithful; try assumption.
    destruct Hn as [Hn | Hn]; [contradiction | exact Hn].
  - apply handleAccountBalance_faithful; assumption.
  - apply handleAccountTransactionCount_faithful; assumption.
  - exact Hf.
  - apply handleSendTransaction_faithful; assumption.
  - apply handleUnlockAccount_faithful; assumption.
  - apply handleGetGasPrice_faithful; assumption.
  - apply handleNewPendingTransactionFilter_faithful; assumption.
Qed.

(** ** The calls of the interface *)

(** A call that builds one envelope, queues it and bails on failure. *)
Ltac queue_or_bail_faithful Hc Hf :=
  cbn [RequestIPC_new];
  match goal with |- context [queueRequest ?r ?s'] =>
    let H := fresh "H" in
    assert (H : fst (queueRequest r s') = true ->
                faithful (snd (queueRequest r s')))
      by (apply queueRequest_faithful;
          [ eapply consistent_ext; [| | | | exact Hc]; reflexivity
          | eapply faithful_ext with (w := []); [| | | | exact Hf];
            [ cbn; symmetry; apply app_nil_r | constructor | reflexivity
            | reflexivity ] ]);
    destruct (queueRequest r s') as [[|] ?s2]; cbn [fst snd negb] in *;
    [exact (H eq_refl) | apply faithful_bail]
  end.

Lemma getAccounts_faithful s :
  consistent s -> faithful s -> faithful (getAccounts indet s).
Proof. intros Hc Hf. unfold getAccounts. queue_or_bail_faithful Hc Hf. Qed.

Lemma newAccount_faithful password index s :
  consistent s -> faithful s -> faithful (newAccount indet password index s).
Proof. intros Hc Hf. unfold newAccount. queue_or_bail_faithful Hc Hf. Qed.

Lemma deleteAccount_faithful h password index s :
  consistent s -> faithful s ->
  faithful (deleteAccount indet h password index s).
Proof. intros Hc Hf. unfold deleteAccount. queue_or_bail_faithful Hc Hf. Qed.

Lemma getBlockNumber_faithful s :
  consistent s -> faithful s -> faithful (getBlockNumber indet s).
Proof. intros Hc Hf. unfold getBlockNumber. queue_or_bail_faithful Hc Hf. Qed.

Lemma getPeerCount_faithful s :
  consistent s -> faithful s -> faithful (getPeerCount indet s).
Proof. intros Hc Hf. unfold getPeerCount. queue_or_bail_faithful Hc Hf. Qed.

Lemma getGasPrice_faithful s :
  consistent s -> faithful s -> faithful (getGasPrice indet s).
Proof. intros Hc Hf. unfold getGasPrice. queue_or_bail_faithful Hc Hf. Qed.

Lemma newPendingTransactionFilter_faithful s :
  consistent s -> faithful s ->
  faithful (newPendingTransactionFilter indet s).
Proof.
  intros Hc Hf. unfold newPendingTransactionFilter.
  queue_or_bail_faithful Hc Hf.
Qed.

Lemma unlockAccount_faithful h password duration index s :
  consistent s -> faithful s ->
  faithful (unlockAccount indet h password duration index s).
Proof. intros Hc Hf. unfold unlockAccount. queue_or_bail_faithful Hc Hf. Qed.

Lemma sendTransaction_faithful from to value s :
  consistent s -> faithful s ->
  faithful (sendTransaction indet from to value s).
Proof.
  intros Hc Hf. unfold sendTransaction. destruct (_ <=? 0)%float.
  - apply faithful_bail.
  - queue_or_bail_faithful Hc Hf.
Qed.

(** ** Connecting and the signals of the socket *)

Lemma connectToServer_faithful path s :
  consistent s -> faithful s -> faithful (connectToServer indet path s).
Proof.
  intros Hc [Hcm Hl]. unfold connectToServer. cbn.
  destruct (LocalSocketState_eqb (sock_state (fSocket s)) UnconnectedState)
    eqn:Hst; cbn; [|apply faithful_bail].
  apply LocalSocketState_eqb_eq in Hst.
  assert (Hfl : in_flight (trace s) = false)
    by (apply consistent_not_in_flight; [exact Hc | congruence]).
  split.
  - apply (complete_ext s _ [Emit (busyChanged true); SockConnect path;
                             SingleShot 2000]);
      [cbn; rewrite <- !app_assoc; reflexivity | repeat constructor
      | reflexivity | exact Hcm].
  - unfold active_in_flight. cbn. rewrite <- !app_assoc, in_flight_app. cbn.
    rewrite Hfl. discriminate.
Qed.

Lemma connectedToServer_faithful s :
  consistent s -> faithful s -> sock_state (fSocket s) = ConnectingState ->
  faithful (connectedToServer indet (set_sock_state ConnectedState s)).
Proof.
  intros Hc [Hcm Hl] Hst. unfold connectedToServer.
  assert (Hfl : in_flight (trace s) = false)
    by (apply consistent_not_in_flight; [exact Hc | congruence]).
  assert (Hr : ready (set_sock_state ConnectedState s)).
  { split; [|split]; [|exact Hfl | reflexivity].
    apply (complete_ext s _ []);
      [cbn; symmetry; apply app_nil_r | constructor | reflexivity | exact Hcm]. }
  assert (Hd : consistent (done indet (set_sock_state ConnectedState s))).
  { apply done_consistent. apply (settled_ext s); [reflexivity | reflexivity |].
    split; [apply consistent_queue_sound, Hc | exact Hfl]. }
  pose proof (newPendingTransactionFilter_faithful _ Hd (done_faithful _ Hr))
    as Hn.
  eapply faithful_ext
    with (w := [Emit connectToServerDone; Emit connectionStateChanged]);
    [| | | | exact Hn];
    [ cbn; rewrite <- !app_assoc; reflexivity | repeat constructor
    | reflexivity | reflexivity ].
Qed.

Lemma disconnectedFromServer_faithful s :
  faithful s -> faithful (disconnectedFromServer indet s).
Proof.
  intros Hf. unfold disconnectedFromServer. destruct (LocalSocketState_eqb _ _).
  - apply faithful_bail.
  - exact Hf.
Qed.

Lemma step_faithful (s : EtherIPC) (i : Input) :
  consistent s -> faithful s -> deliverable s i = true ->
  faithful (step indet s i).
Proof.
  intros Hc Hf He. destruct i; cbn [step].
  - apply connectToServer_faithful; assumption.
  - apply getAccounts_faithful; assumption.
  - apply newAccount_faithful; assumption.
  - apply deleteAccount_faithful; assumption.
  - apply getBlockNumber_faithful; assumption.
  - apply getPeerCount_faithful; assumption.
  - apply sendTransaction_faithful; assumption.
  - apply unlockAccount_faithful; assumption.
  - apply getGasPrice_faithful; assumption.
  - apply connectedToServer_faithful; try assumption.
    apply LocalSocketState_eqb_eq, He.
  - unfold disconnectedFromServer. cbn. apply faithful_bail.
  - unfold onSocketError.
    apply (faithful_ext s _ []);
      [ destruct (LocalSocketState_eqb _ _); cbn; symmetry; apply app_nil_r
      | constructor
      | destruct (LocalSocketState_eqb _ _); reflexivity
      | destruct (LocalSocketState_eqb _ _); reflexivity
      | exact Hf ].
  - cbn in He. apply andb_true_iff in He as [Hk Hn].
    apply negb_true_iff in Hn. apply LocalSocketState_eqb_eq in Hk.
    apply onSocketReadyRead_faithful; assumption.
  - apply disconnectedFromServer_faithful, Hf.
Qed.

(** ** Every tolerated run keeps the queue consistent and faithful *)

Lemma run_kept (inputs : list Input) : forall s : EtherIPC,
  consistent s -> faithful s -> tolerated indet s inputs = true ->
  consistent (run indet s inputs) /\ faithful (run indet s inputs).
Proof.
  induction inputs as [| i inputs IH]; intros s Hc Hf Ht; cbn in *.
  - split; assumption.
  - apply andb_true_iff in Ht as [He Ht].
    apply IH; [apply step_consistent_late | apply step_faithful | exact Ht];
      assumption.
Qed.

Lemma fresh_faithful (s : EtherIPC) : fresh s -> faithful s.
Proof.
  intros (Ht & _ & Hq & _). split.
  - unfold complete. rewrite Ht, Hq. reflexivity.
  - unfold active_in_flight. rewrite Ht. discriminate.
Qed.

Lemma admissible_tolerated (inputs : list Input) : forall s : EtherIPC,
  admissible indet s inputs = true -> tolerated indet s inputs = true.
Proof.
  induction inputs as [| i inputs IH]; intros s Ha; cbn in *;
    [reflexivity|].
  apply andb_true_iff in Ha as [He Ha]. rewrite (IH _ Ha), andb_true_r.
  destruct i; try exact He. cbn in He |- *.
  apply andb_true_iff in He as [Hk Hb]. rewrite Hk. cbn.
  unfold stray_listing. unfold getBusy in Hb.
  destruct (fEmpty (fActiveRequest s)); [discriminate Hb | reflexivity].
Qed.

(** C1. In every run of a newly constructed client in which the socket
    reports [connected] only while connecting, [disconnected] only while
    connected and data only while connected, and in which no stray listing
    reply arrives (data may arrive while no call is active, as the late
    reply to a call that [bail] dropped does): the messages the transport
    accepted are, in that order, among the requests handed to
    [queueRequest] in the order they were handed over; no [write] was
    called while a call was in flight, that is, between the acceptance of a
    request and the next read of a reply or the next error signal of
    [bail]; the call in flight is the active call, its request the last
    one written; and as long as no error was signalled and no write
    refused, every request handed over has been written or is pending.
    A stray listing reply breaks this: on a connected socket that accepts
    the write, the first follow-up call is written at once and [done]
    writes the second with no read in between. *)
Theorem C1_requests_written_in_order_one_at_a_time
    (s : EtherIPC) (inputs : list Input) :
  fresh s ->
  tolerated indet s inputs = true ->
  sublist (written (trace (run indet s inputs)))
    (map methodToJSON (queued (trace (run indet s inputs))))
  /\ one_at_a_time (trace (run indet s inputs)) = true
  /\ (in_flight (trace (run indet s inputs)) = true ->
      last (written (trace (run indet s inputs)))
      = Some (methodToJSON (fActiveRequest (run indet s inputs))))
  /\ (clean (trace (run indet s inputs)) = true ->
      map methodToJSON (queued (trace (run indet s inputs)))
      = written (trace (run indet s inputs))
        ++ map methodToJSON (fRequestQueue (run indet s inputs)))
  /\ (forall data : Received,
        stray_listing (run indet s inputs) data = true ->
        sock_state (fSocket (run indet s inputs)) = ConnectedState ->
        0 < sock_sent (fSocket (run indet s inputs))
              (sock_writes (fSocket (run indet s inputs))) ->
        one_at_a_time
          (trace (run indet s (inputs ++ [Sig_readyRead data]))) = false).
Proof.
  intros Hf Ht.
  destruct (run_kept inputs s (fresh_consistent s Hf) (fresh_faithful s Hf) Ht)
    as [(((taken & HE & Hsub) & Hone & _) & _) [Hc Hl]].
  split; [rewrite HE, map_app; apply sublist_inserts_r, Hsub|].
  split; [exact Hone|]. split; [exact Hl|]. split; [exact Hc|].
  intros data Hs Hk Hsent. unfold run. rewrite fold_left_app. cbn.
  apply stray_listing_writes_twice; assumption.
Qed.

End Late.

(** * The statements at concrete clients *)

(** C1 on the sample client. Two calls, nothing failing: the first is in
    flight, its request the last of two written, the second pending. A call
    dropped by a refused transaction, the replies arriving late, the last
    at the idle client: order and one call at a time hold. And where the
    code departs from them: the uninitialised members of the empty request
    holding what the dropped listing call had, the late listing reply is
    taken for the reply to a call, and two requests are written with no
    read in between. *)
Lemma C1_witness :
  fresh new_client
  /\ @tolerated SpecCodec.codec sample_indet new_client two_calls = true
  /\ clean (trace (@run SpecCodec.codec sample_indet new_client two_calls))
     = true
  /\ in_flight (trace (@run SpecCodec.codec sample_indet new_client two_calls))
     = true
  /\ length
       (written
          (trace (@run SpecCodec.codec sample_indet new_client two_calls)))
     = 2%nat
  /\ last
       (written
          (trace (@run SpecCodec.codec sample_indet new_client two_calls)))
     = Some
         (methodToJSON
            (fActiveRequest
               (@run SpecCodec.codec sample_indet new_client two_calls)))
  /\ map methodToJSON
       (queued
          (trace (@run SpecCodec.codec sample_indet new_client two_calls)))
     = written
         (trace (@run SpecCodec.codec sample_indet new_client two_calls))
       ++ map methodToJSON
            (fRequestQueue
               (@run SpecCodec.codec sample_indet new_client two_calls))
  /\ @tolerated SpecCodec.codec sample_indet new_client late_replies = true
  /\ @admissible SpecCodec.codec sample_indet new_client late_replies = false
  /\ sublist
       (written
          (trace (@run SpecCodec.codec sample_indet new_client late_replies)))
       (map methodToJSON
          (queued
             (trace (@run SpecCodec.codec sample_indet new_client
                       late_replies))))
  /\ one_at_a_time
       (trace (@run SpecCodec.codec sample_indet new_client late_replies))
     = true
  /\ fresh stale_client
  /\ @tolerated SpecCodec.codec stale_indet stale_client listing_dropped = true
  /\ stray_listing
       (@run SpecCodec.codec stale_indet stale_client listing_dropped)
       late_listing = true
  /\ one_at_a_time
       (trace (@run SpecCodec.codec stale_indet stale_client
                 (listing_dropped ++ [Sig_readyRead late_listing])))
     = false.
Proof.
  assert (Hf : fresh new_client) by (repeat split).
  assert (Ht : @tolerated SpecCodec.codec sample_indet new_client late_replies
               = true)
    by (vm_compute; reflexivity).
  assert (Hf' : fresh stale_client) by (repeat split).
  assert (Ht' : @tolerated SpecCodec.codec stale_indet stale_client
                  listing_dropped = true)
    by (vm_compute; reflexivity).
  assert (Hs : stray_listing
                 (@run SpecCodec.codec stale_indet stale_client
                    listing_dropped) late_listing = true)
    by (vm_compute; reflexivity).
  assert (Ht2 : @tolerated SpecCodec.codec sample_indet new_client two_calls
                = true)
    by (vm_compute; reflexivity).
  assert (Hc : clean (trace (@run SpecCodec.codec sample_indet new_client
                               two_calls)) = true)
    by (vm_compute; reflexivity).
  assert (Hi : in_flight (trace (@run SpecCodec.codec sample_indet new_client
                                   two_calls)) = true)
    by (vm_compute; reflexivity).
  destruct (@C1_requests_written_in_order_one_at_a_time SpecCodec.codec
              sample_indet new_client two_calls Hf Ht2)
    as (_ & _ & G3 & G4 & _).
  destruct (@C1_requests_written_in_order_one_at_a_time SpecCodec.codec
              sample_indet new_client late_replies Hf Ht)
    as (H1 & H2 & _).
  destruct (@C1_requests_written_in_order_one_at_a_time SpecCodec.codec
              stale_indet stale_client listing_dropped Hf' Ht')
    as (_ & _ & _ & _ & H5).
  split; [exact Hf|]. split; [exact Ht2|]. split; [exact Hc|].
  split; [exact Hi|]. split; [vm_compute; reflexivity|].
  split; [exact (G3 Hi)|]. split; [exact (G4 Hc)|].
  split; [exact Ht|].
  split; [vm_compute; reflexivity|].
  split; [exact H1|]. split; [exact H2|].
  split; [exact Hf'|]. split; [exact Ht'|]. split; [exact Hs|].
  apply (H5 late_listing Hs); vm_compute; reflexivity.
Defined.

(** C3 on the idle connected client: the first envelope is written, the
    second is appended. *)
Lemma C3_witness :
  fEmpty sample_request = false
  /\ fst (queueRequest sample_request connected_client) = true
  /\ written (trace (snd (queueRequest sample_request connected_client)))
     = [methodToJSON sample_request]
  /\ fRequestQueue
       (snd (queueRequest sample_request
               (snd (queueRequest sample_request connected_client))))
     = [sample_request].
Proof.
  pose proof (C3_queueRequest_writes_or_appends sample_request
                connected_client eq_refl) as [Hidle _].
  pose proof (C3_queueRequest_writes_or_appends sample_request
                (snd (queueRequest sample_request connected_client)) eq_refl)
    as [_ Hbusy].
  specialize (Hidle eq_refl). specialize (Hbusy eq_refl).
  destruct Hidle as (_ & _ & _ & _ & Hok & _ & Hw).
  destruct Hbusy as (_ & _ & Hq & _).
  split; [reflexivity|]. split; [exact Hok|].
  split; [rewrite Hw, Hok; reflexivity | exact Hq].
Defined.

(** C4 with "." as the decimal point. *)
Lemma C4_witness :
  fLocale_decimalPoint new_client = "."%char
  /\ @toDecStr SpecCodec.codec new_client (JString "0x5")
     = "0.000000000000000005"
  /\ @toDecStr SpecCodec.codec new_client (JString "0xde0b6b3a7640000")
     = "1.000000000000000000"
  /\ @toDecStr SpecCodec.codec new_client (JString "0x0")
     = "0.000000000000000000".
Proof.
  split; [reflexivity|].
  exact (proj2 (C4_toDecStr_pads_and_places_point new_client) eq_refl).
Defined.

(** C5 on a client awaiting the reply to [net_peerCount]: a reply with
    another id leaves it as it is, busy. *)
Lemma C5_witness :
  fType (fActiveRequest peer_count_client) = GetPeerCount
  /\ fCallID (fActiveRequest peer_count_client) = 1
  /\ @onSocketReadyRead SpecCodec.codec sample_indet
       (reply 7 (JString "0x3")) peer_count_client
     = peer_count_client
  /\ getBusy peer_count_client = true.
Proof.
  split; [reflexivity|]. split; [reflexivity|]. split; [|reflexivity].
  apply (@C5_id_mismatch_bails_except_peer_count SpecCodec.codec sample_indet
           (JObject [("id", JNumber 7); ("result", JString "0x3")])
           peer_count_client).
  - vm_compute. discriminate.
  - reflexivity.
Defined.

(** C6 on the sample client awaiting the reply to
    [personal_listAccounts] with a gas-price call pending. *)
Lemma C6_witness :
  fType (fActiveRequest listing_with_pending_client) = GetAccountRefs
  /\ Forall plain_pending (fRequestQueue listing_with_pending_client)
  /\ length (fRequestQueue listing_with_pending_client) = 1%nat
  /\ fAccountList listing_with_pending_client = []
  /\ getAccountsDone_count
       (trace (@answers SpecCodec.codec sample_indet
                 (@answer SpecCodec.codec sample_indet
                    listing_with_pending_client (JArray two_accounts))
                 [JString "0x3b9aca00"; JString "0x5"; JString "0x1";
                  JString "0x6"]))
     = 0%nat
  /\ getAccountsDone_count
       (trace (@answers SpecCodec.codec sample_indet
                 (@answer SpecCodec.codec sample_indet
                    listing_with_pending_client (JArray two_accounts))
                 [JString "0x3b9aca00"; JString "0x5"; JString "0x1";
                  JString "0x6"; JString "0x2"]))
     = 1%nat
  /\ fAccountList
       (@answers SpecCodec.codec sample_indet
          (@answer SpecCodec.codec sample_indet
             listing_with_pending_client (JArray two_accounts))
          [JString "0x3b9aca00"; JString "0x5"; JString "0x1";
           JString "0x6"; JString "0x2"])
     = [mkAccountInfo "0xA" "0.000000000000000005" 1;
        mkAccountInfo "0xB" "0.000000000000000006" 2].
Proof.
  assert (Hty : fType (fActiveRequest listing_with_pending_client)
                = GetAccountRefs)
    by (vm_compute; reflexivity).
  assert (Hq : Forall plain_pending
                 (fRequestQueue listing_with_pending_client))
    by (repeat constructor).
  assert (Hl : fAccountList listing_with_pending_client = [])
    by (vm_compute; reflexivity).
  assert (Hv : Forall usable [JString "0x3b9aca00"])
    by (repeat constructor).
  destruct (@C6_two_accounts_four_follow_ups_one_ready SpecCodec.codec
              sample_indet listing_with_pending_client
              [JString "0x3b9aca00"]
              (JString "0x5") (JString "0x1") (JString "0x6") (JString "0x2")
              Hty eq_refl eq_refl eq_refl Hq eq_refl Hv
              eq_refl eq_refl eq_refl eq_refl)
    as (_ & _ & _ & _ & H5 & H6 & H7 & _).
  specialize (H5 4%nat ltac:(cbn; lia)).
  destruct (H7 Hl) as [H8 _].
  split; [exact Hty|]. split; [exact Hq|].
  split; [vm_compute; reflexivity|]. split; [exact Hl|].
  split; [|split].
  - change [JString "0x3b9aca00"; JString "0x5"; JString "0x1"; JString "0x6"]
      with (take 4 ([JString "0x3b9aca00"]
                    ++ [JString "0x5"; JString "0x1"; JString "0x6";
                        JString "0x2"])).
    rewrite H5. vm_compute. reflexivity.
  - change [JString "0x3b9aca00"; JString "0x5"; JString "0x1"; JString "0x6";
            JString "0x2"]
      with ([JString "0x3b9aca00"]
            ++ [JString "0x5"; JString "0x1"; JString "0x6"; JString "0x2"]).
    rewrite H6. vm_compute. reflexivity.
  - change [JString "0x3b9aca00"; JString "0x5"; JString "0x1"; JString "0x6";
            JString "0x2"]
      with ([JString "0x3b9aca00"]
            ++ [JString "0x5"; JString "0x1"; JString "0x6"; JString "0x2"]).
    rewrite H8. vm_compute. reflexivity.
Defined.

(** C7 at the values -1 and 1.5. *)
Lemma C7_witness :
  (-1 <=? 0)%float = true
  /\ @sendTransaction SpecCodec.codec sample_indet "0xA" "0xB" (-1)
       connected_client
     = bail sample_indet
         (set_fError "Invalid transaction value" connected_client)
  /\ (0 <? 1.5)%float = true
  /\ fParams (@sendTransaction_envelope SpecCodec.codec "0xA" "0xB" 1.5 0)
     = [JObject [("from", JString "0xA"); ("to", JString "0xB");
                 ("value", JString "0x14d1120d7b160000")]]
  /\ written
       (trace (@sendTransaction SpecCodec.codec sample_indet "0xA" "0xB" 1.5
                 connected_client))
     = [methodToJSON (@sendTransaction_envelope SpecCodec.codec
                        "0xA" "0xB" 1.5 0)].
Proof.
  pose proof (@C7_sendTransaction_validates_value SpecCodec.codec sample_indet
                "0xA" "0xB" (-1) connected_client) as [Hneg _].
  pose proof (@C7_sendTransaction_validates_value SpecCodec.codec sample_indet
                "0xA" "0xB" 1.5 connected_client) as [_ Hpos].
  specialize (Hneg eq_refl). specialize (Hpos eq_refl).
  destruct Hneg as (Hneg & _).
  split; [reflexivity|]. split; [exact Hneg|]. split; [reflexivity|].
  split; [vm_compute; reflexivity|].
  rewrite Hpos. vm_compute. reflexivity.
Defined.

(** C8 on a connected and on an unconnected client. *)
Lemma C8_witness :
  sock_state (fSocket connected_client) <> UnconnectedState
  /\ fPath (connectToServer sample_indet "new.ipc" connected_client)
     = "new.ipc"
  /\ transport_operations
       (trace (connectToServer sample_indet "new.ipc" connected_client)) = []
  /\ sock_state (fSocket new_client) = UnconnectedState
  /\ trace (connectToServer sample_indet "geth.ipc" new_client)
     = [Emit (busyChanged true); SockConnect "geth.ipc"; SingleShot 2000].
Proof.
  assert (Hc : sock_state (fSocket connected_client) <> UnconnectedState)
    by discriminate.
  pose proof (C8_connectToServer_refuses_unless_unconnected sample_indet
                "new.ipc" connected_client) as [Hrefused _].
  pose proof (C8_connectToServer_refuses_unless_unconnected sample_indet
                "geth.ipc" new_client) as [_ Hopened].
  specialize (Hrefused Hc). specialize (Hopened eq_refl).
  destruct Hrefused as (Ht & Hp & _). destruct Hopened as (Ht' & _).
  split; [exact Hc|]. split; [exact Hp|].
  split; [rewrite Ht; reflexivity|]. split; [reflexivity | exact Ht'].
Defined.

(** C9 at an error reply of the daemon. *)
Lemma C9_witness :
  toInt (value (toObject (JObject [("id", JNumber 1);
                                   ("error",
                                    JObject [("message", JString "no");
                                             ("code", JNumber (-32000))])]))
           "id") (-1)
  = fCallID (fActiveRequest listing_client)
  /\ fst (fst (readReply
                 (RecvDocument
                    (JObject [("id", JNumber 1);
                              ("error",
                               JObject [("message", JString "no");
                                        ("code", JNumber (-32000))])]))
                 listing_client)) = false
  /\ fError (snd (readReply
                    (RecvDocument
                       (JObject [("id", JNumber 1);
                                 ("error",
                                  JObject [("message", JString "no");
                                           ("code", JNumber (-32000))])]))
                    listing_client)) = "no"
  /\ fCode (snd (readReply
                   (RecvDocument
                      (JObject [("id", JNumber 1);
                                ("error",
                                 JObject [("message", JString "no");
                                          ("code", JNumber (-32000))])]))
                   listing_client)) = -32000.
Proof.
  split; [reflexivity|].
  exact (C9_readReply_classifies_matching_reply
           (JObject [("id", JNumber 1);
                     ("error",
                      JObject [("message", JString "no");
                               ("code", JNumber (-32000))])])
           listing_client eq_refl).
Defined.

(** C10 on the sample client: a second round after a first one. *)
Lemma C10_witness :
  (1 <= length (fAccountList after_first_round))%nat
  /\ fEmpty (fActiveRequest after_first_round) = true
  /\ fRequestQueue after_first_round = []
  /\ @admissible SpecCodec.codec sample_indet after_first_round second_round
     = true
  /\ getAccountsDone_count
       (trace (@run SpecCodec.codec sample_indet after_first_round
                 second_round))
     = getAccountsDone_count (trace after_first_round)
  /\ map hash (fAccountList after_first_round)
     `prefix_of` map hash
                   (fAccountList
                      (@run SpecCodec.codec sample_indet after_first_round
                         second_round)).
Proof.
  assert (Hlen : (1 <= length (fAccountList after_first_round))%nat)
    by (vm_compute; lia).
  assert (Ha : @admissible SpecCodec.codec sample_indet after_first_round
                 second_round = true) by (vm_compute; reflexivity).
  split; [exact Hlen|]. split; [reflexivity|]. split; [reflexivity|].
  split; [exact Ha|].
  exact (proj2 (proj2 (proj2
           (@C10_later_rounds_append_and_never_announce SpecCodec.codec
              sample_indet after_first_round Hlen)))
           second_round eq_refl eq_refl Ha).
Defined.

(** * Further properties *)

(** ** Messages and their replies *)

Section Echo.

Context {bigint : BigInt}.
Variable indet : Indeterminate.

Lemma emitted_app (a b : list Effect) :
  emitted (a ++ b) = emitted a ++ emitted b.
Proof. unfold emitted. apply flat_map_app. Qed.

(** X1. The members of the message written for an envelope read back as the
    envelope's method, parameters and call id, and a reply that echoes the id
    member with a usable result is accepted exactly when the envelope has the
    call id of the active call; otherwise it is refused as
    "Call number mismatch" with code 0. *)
Theorem message_reads_back_and_echo_is_accepted
    (r : RequestIPC) (s : EtherIPC) (v : QJsonValue) :
  in_int (fCallID r) = true ->
  usable v ->
  map fst (methodToJSON r) = ["jsonrpc"; "method"; "id"; "params"]
  /\ value (methodToJSON r) "jsonrpc" = JString "2.0"
  /\ toString (value (methodToJSON r) "method") "" = fMethod r
  /\ toInt (value (methodToJSON r) "id") (-1) = fCallID r
  /\ toArray (value (methodToJSON r) "params") = fParams r
  /\ (fCallID r = fCallID (fActiveRequest s) ->
      readReply (echo r v) s = (true, v, effect (SockRead (echo r v)) s))
  /\ (fCallID r <> fCallID (fActiveRequest s) ->
      fst (fst (readReply (echo r v) s)) = false
      /\ fError (snd (readReply (echo r v) s)) = "Call number mismatch"
      /\ fCode (snd (readReply (echo r v) s)) = 0).
Proof.
  intros Hid Hv. unfold methodToJSON. cbn. rewrite Hid.
  repeat (split; [reflexivity|]). split.
  - intros He. unfold readReply, echo, methodToJSON. cbn.
    rewrite Hid, He, Z.eqb_refl. cbn. unfold usable in Hv. rewrite Hv.
    reflexivity.
  - intros Hne. unfold readReply, echo, methodToJSON. cbn. rewrite Hid.
    apply Z.eqb_neq in Hne. rewrite Hne. cbn. auto.
Qed.

(** ** [done] and a write that fails *)

(** X2. When [done] takes the next pending call and the write fails (the socket
    is not writable, or [write] returns no positive count), the call stays
    active and is never sent, and no signal tells: only [fError] and [fCode]
    are set. *)
Theorem done_keeps_quiet_about_failed_write
    (s : EtherIPC) (first : RequestIPC) (rest : list RequestIPC) :
  fRequestQueue s = first :: rest ->
  isWritable (fSocket s)
  && negb (sock_sent (fSocket s) (sock_writes (fSocket s)) <=? 0) = false ->
  fActiveRequest (done indet s) = first
  /\ fRequestQueue (done indet s) = rest
  /\ getBusy (done indet s) = negb (fEmpty first)
  /\ emitted (trace (done indet s)) = emitted (trace s)
  /\ written (trace (done indet s)) = written (trace s)
  /\ fError (done indet s)
     = (if isWritable (fSocket s)
        then String.append "Error on socket write: "
               (sock_errorString (fSocket s))
        else "Socket not writeable")
  /\ fCode (done indet s) = 0.
Proof.
  intros Hq Hfail. unfold done. rewrite Hq. unfold writeRequest, getBusy. cbn.
  destruct (isWritable (fSocket s)); cbn in *.
  - apply negb_false_iff in Hfail. rewrite Hfail. cbn.
    rewrite emitted_app, written_app, written_one. cbn.
    rewrite Z.ltb_antisym, Hfail. cbn. rewrite !app_nil_r. repeat split.
  - repeat split.
Qed.

End Echo.

(** ** Replies that fail *)

Section FailedReplies.

Context {bigint : BigInt}.
Variable indet : Indeterminate.

Lemma failed_reply_bails (data : Received) (s : EtherIPC) :
  fType (fActiveRequest s) <> GetPeerCount ->
  fst (fst (readReply data s)) = false ->
  onSocketReadyRead indet data s = bail indet (snd (readReply data s)).
Proof.
  intros Hty Hfail. unfold onSocketReadyRead.
  destruct (fType (fActiveRequest s)); try contradiction;
    unfold handleNewAccount, handleDeleteAccount, handleGetBlockNumber,
      handleAccountDetails, handleAccountBalance,
      handleAccountTransactionCount, handleSendTransaction,
      handleUnlockAccount, handleGetGasPrice,
      handleNewPendingTransactionFilter, readNumber;
    destruct (readReply data s) as [[ok jv] s1]; cbn in Hfail; subst ok;
    reflexivity.
Qed.

(** X3. Whatever makes [readReply] fail, the handler of every dispatched call
    type reports it once and resets the queue: the data is read, one [error]
    with the message and code [readReply] left is emitted with the two closing
    signals, nothing is pending or active afterwards and the account list is as
    before. An empty read leaves "Error on socket read: " and the socket's
    error string, bytes that do not parse leave "Response parse error: " and
    the parser's message, both with code 0. *)
Theorem failed_reply_is_reported_once (data : Received) (s : EtherIPC) :
  fType (fActiveRequest s) <> GetPeerCount ->
  fst (fst (readReply data s)) = false ->
  trace (onSocketReadyRead indet data s)
  = trace s ++ [SockRead data;
                Emit (error (fError (snd (readReply data s)))
                        (fCode (snd (readReply data s))));
                Emit connectionStateChanged;
                Emit (busyChanged false)]
  /\ getBusy (onSocketReadyRead indet data s) = false
  /\ fRequestQueue (onSocketReadyRead indet data s) = []
  /\ fAccountList (onSocketReadyRead indet data s) = fAccountList s
  /\ (data = RecvNothing ->
      fError (snd (readReply data s))
      = String.append "Error on socket read: " (sock_errorString (fSocket s))
      /\ fCode (snd (readReply data s)) = 0)
  /\ (forall errorString : string,
        data = RecvUnparsable errorString ->
        fError (snd (readReply data s))
        = String.append "Response parse error: " errorString
        /\ fCode (snd (readReply data s)) = 0).
Proof.
  intros Hty Hfail. rewrite (failed_reply_bails data s Hty Hfail).
  destruct (bail_trace indet (snd (readReply data s)))
    as (Ht & Ha & Hq & Hl & _).
  destruct (frame_readReply data s) as (Ft & _ & _ & Fl & _).
  unfold getBusy. rewrite Ht, Ha, Hq, Hl, Ft, Fl, <- app_assoc.
  repeat split; try (intros; subst data; reflexivity).
Qed.

(** ** Results that are not hex strings *)

(** X4. Neither [toDecStr] nor [readNumber] looks at the first two characters
    of a result: they are dropped whatever they are, a shorter string counts as
    empty, and a result that is not a string counts as "0x0". *)
Theorem hex_prefix_is_dropped_unchecked (s : EtherIPC) :
  (forall (a b : ascii) (digits : string),
      toDecStr s (JString (String a (String b digits)))
      = toDecStr s (JString (String.append "0x" digits)))
  /\ (forall a : ascii,
        toDecStr s (JString (String a "")) = toDecStr s (JString "0x"))
  /\ toDecStr s (JString "") = toDecStr s (JString "0x")
  /\ (forall jv : QJsonValue,
        (forall str : string, jv <> JString str) ->
        toDecStr s jv = toDecStr s (JString "0x0"))
  /\ (forall (a b : ascii) (digits : string),
        in_int (fCallID (fActiveRequest s)) = true ->
        fst (readNumber (reply_to s (JString (String a (String b digits)))) s)
        = Some (toUlong (Vin_ofString digits 16)))
  /\ (forall jv : QJsonValue,
        in_int (fCallID (fActiveRequest s)) = true ->
        usable jv ->
        (forall str : string, jv <> JString str) ->
        fst (readNumber (reply_to s jv) s)
        = Some (toUlong (Vin_ofString "0" 16))).
Proof.
  repeat split.
  - intros jv Hjv. unfold toDecStr.
    destruct jv; try reflexivity. exfalso. eapply Hjv. reflexivity.
  - intros a b digits Hid. unfold readNumber.
    rewrite readReply_reply_to by (exact Hid || reflexivity). reflexivity.
  - intros jv Hid Hv Hjv. unfold readNumber.
    rewrite readReply_reply_to by assumption. cbn.
    destruct jv; try reflexivity. exfalso. eapply Hjv. reflexivity.
Qed.

(** ** The connection state shown *)

(** X5. [getConnectionStateStr] has two values, "Connected (poor peer count)"
    on a connected socket and "Disconnected" on any other; the stored peer
    count plays no part. *)
Theorem connection_state_has_two_values (s : EtherIPC) :
  (sock_state (fSocket s) = ConnectedState ->
   getConnectionState s = 1
   /\ getConnectionStateStr s = "Connected (poor peer count)")
  /\ (sock_state (fSocket s) <> ConnectedState ->
      getConnectionState s = 0 /\ getConnectionStateStr s = "Disconnected")
  /\ (forall n : Z,
        getConnectionStateStr (set_fPeerCount n s) = getConnectionStateStr s).
Proof.
  unfold getConnectionStateStr, getConnectionState. cbn.
  destruct (sock_state (fSocket s)); cbn; repeat split;
    try discriminate; try contradiction; congruence.
Qed.

End FailedReplies.

(** ** The calls of the interface *)

Section RequestCalls.

Context {bigint : BigInt}.
Variable indet : Indeterminate.

Lemma request_of_nonempty (i : Input) (id : Z) (r : RequestIPC) :
  request_of i id = Some r -> fEmpty r = false /\ fCallID r = id.
Proof.
  destruct i; cbn; try discriminate;
    try (intros H; injection H as <-; split; reflexivity).
  destruct (_ <=? 0)%float; [discriminate|].
  intros H; injection H as <-; split; reflexivity.
Qed.

(** Every call that builds an envelope hands it to [queueRequest] with the
    next call id taken, and bails when that fails. *)
Lemma step_request_of (i : Input) (s : EtherIPC) (r : RequestIPC) :
  request_of i (sCallID s) = Some r ->
  step indet s i
  = (if fst (queueRequest r (set_sCallID (wrap_int (sCallID s + 1)) s))
     then snd (queueRequest r (set_sCallID (wrap_int (sCallID s + 1)) s))
     else bail indet
            (snd (queueRequest r (set_sCallID (wrap_int (sCallID s + 1)) s)))).
Proof.
  destruct i; cbn [request_of step]; try discriminate;
    try (intros H; injection H as <-;
         unfold getAccounts, newAccount, deleteAccount, getBlockNumber,
           getPeerCount, unlockAccount, getGasPrice; cbn [RequestIPC_new];
         match goal with |- context [queueRequest ?q ?x] =>
           destruct (queueRequest q x) as [[|] ?]
         end; reflexivity).
  unfold sendTransaction. destruct (_ <=? 0)%float; [discriminate|].
  intros H; injection H as <-. unfold sendTransaction_envelope. cbn.
  match goal with |- context [queueRequest ?q ?x] =>
    destruct (queueRequest q x) as [[|] ?]
  end; reflexivity.
Qed.

Lemma step_while_busy (i : Input) (s : EtherIPC) (r : RequestIPC) :
  request_of i (sCallID s) = Some r ->
  fEmpty (fActiveRequest s) = false ->
  step indet s i
  = set_fRequestQueue (fRequestQueue s ++ [r])
      (effect (Queued r) (set_sCallID (wrap_int (sCallID s + 1)) s)).
Proof.
  intros Hr Hb. rewrite (step_request_of i s r Hr).
  rewrite queueRequest_busy_eq by exact Hb. reflexivity.
Qed.

(** X6. While a call is active, a call of the interface that builds an envelope
    only takes the next call id and puts the envelope at the end of the pending
    queue: nothing is emitted, the socket is not used, and the active call, the
    accounts and the stored error stay. *)
Theorem request_while_busy_is_only_queued
    (i : Input) (s : EtherIPC) (r : RequestIPC) :
  request_of i (sCallID s) = Some r ->
  fEmpty (fActiveRequest s) = false ->
  step indet s i
  = set_fRequestQueue (fRequestQueue s ++ [r])
      (effect (Queued r) (set_sCallID (wrap_int (sCallID s + 1)) s))
  /\ fCallID r = sCallID s
  /\ emitted (trace (step indet s i)) = emitted (trace s)
  /\ transport_operations (trace (step indet s i))
     = transport_operations (trace s).
Proof.
  intros Hr Hb. rewrite (step_while_busy i s r Hr Hb). cbn.
  destruct (request_of_nonempty i _ r Hr) as [_ Hid].
  unfold transport_operations.
  rewrite emitted_app, List.filter_app. cbn. rewrite !app_nil_r. auto.
Qed.

(** X7. On an idle client, a call of the interface whose envelope cannot be
    written is reported at once: [busyChanged(true)], then one [error] with
    code 0 and the two closing signals. The message is "Socket not writeable"
    when the socket is not writable ([write] is then not called) and
    "Error on socket write: " with the socket's error string when [write]
    returns no positive count. The client is idle again, nothing was accepted
    by the transport, and the call id is spent. *)
Theorem request_that_cannot_be_written_is_reported
    (i : Input) (s : EtherIPC) (r : RequestIPC) :
  request_of i (sCallID s) = Some r ->
  fEmpty (fActiveRequest s) = true ->
  isWritable (fSocket s)
  && negb (sock_sent (fSocket s) (sock_writes (fSocket s)) <=? 0) = false ->
  emitted (trace (step indet s i))
  = emitted (trace s)
    ++ [busyChanged true;
        error (if isWritable (fSocket s)
               then String.append "Error on socket write: "
                      (sock_errorString (fSocket s))
               else "Socket not writeable") 0;
        connectionStateChanged;
        busyChanged false]
  /\ transport_operations (trace (step indet s i))
     = transport_operations (trace s)
       ++ (if isWritable (fSocket s)
           then [SockWrite (methodToJSON r)
                   (sock_sent (fSocket s) (sock_writes (fSocket s)))]
           else [])
  /\ written (trace (step indet s i)) = written (trace s)
  /\ getBusy (step indet s i) = false
  /\ fRequestQueue (step indet s i) = []
  /\ sCallID (step indet s i) = wrap_int (sCallID s + 1).
Proof.
  intros Hr Hidle Hfail. rewrite (step_request_of i s r Hr).
  destruct (request_of_nonempty i _ r Hr) as [Hne _].
  unfold queueRequest. cbn. rewrite Hidle.
  unfold writeRequest, getBusy. cbn. rewrite Hne. cbn.
  destruct (isWritable (fSocket s)); cbn in *.
  - apply negb_false_iff in Hfail. rewrite Hfail. cbn.
    match goal with |- context [bail indet ?x] =>
      destruct (bail_trace indet x) as (Ht & Ha & Hq & _ & _ & Hc & _)
    end.
    unfold transport_operations.
    rewrite Ht, Ha, Hq, Hc. cbn.
    rewrite !emitted_app, !written_app, !List.filter_app, !written_one.
    cbn. rewrite Z.ltb_antisym, Hfail. cbn.
    rewrite ?app_nil_r, <- ?app_assoc. cbn. repeat split.
  - match goal with |- context [bail indet ?x] =>
      destruct (bail_trace indet x) as (Ht & Ha & Hq & _ & _ & Hc & _)
    end.
    unfold transport_operations.
    rewrite Ht, Ha, Hq, Hc. cbn.
    rewrite !emitted_app, !written_app, !List.filter_app, !written_one.
    cbn. rewrite ?app_nil_r, <- ?app_assoc. cbn. repeat split.
Qed.

End RequestCalls.

(** ** Replies that are accepted *)

Section AcceptedReplies.

Context {bigint : BigInt}.
Variable indet : Indeterminate.

Lemma written_emit_nil (tr : list Effect) (sig : Signal) :
  written (tr ++ [Emit sig]) = written tr.
Proof. rewrite written_app, written_one. cbn. apply app_nil_r. Qed.

(** [done] emits [busyChanged(false)] when nothing is pending, and nothing
    otherwise. *)
Lemma done_emitted (s : EtherIPC) :
  emitted (trace (done indet s))
  = emitted (trace s)
    ++ match fRequestQueue s with [] => [busyChanged false] | _ => [] end.
Proof.
  unfold done. destruct (fRequestQueue s) as [| first rest]; cbn.
  - rewrite emitted_app. reflexivity.
  - unfold writeRequest. destruct (negb _); cbn; [now rewrite app_nil_r|].
    destruct (_ <=? 0); cbn; rewrite emitted_app; reflexivity.
Qed.

Lemma done_next (s : EtherIPC) :
  fActiveRequest (done indet s) = hd (RequestIPC_none indet) (fRequestQueue s)
  /\ fRequestQueue (done indet s) = tl (fRequestQueue s)
  /\ fAccountList (done indet s) = fAccountList s
  /\ fPendingTransactionsFilterID (done indet s)
     = fPendingTransactionsFilterID s
  /\ fPeerCount (done indet s) = fPeerCount s
  /\ (fRequestQueue s = [] ->
      fError (done indet s) = fError s /\ fCode (done indet s) = fCode s).
Proof.
  unfold done. destruct (fRequestQueue s) as [| first rest] eqn:Hq; cbn.
  - rewrite Hq. repeat (split; [reflexivity|]). reflexivity.
  - unfold writeRequest. destruct (negb _); cbn;
      [repeat (split; [reflexivity|]); discriminate|].
    destruct (_ <=? 0); cbn; repeat (split; [reflexivity|]); discriminate.
Qed.

Lemma plain_reply_accepted
    (data : Received) (s : EtherIPC) :
  plain_call (fType (fActiveRequest s)) = true ->
  fst (fst (readReply data s)) = true ->
  emitted (trace (onSocketReadyRead indet data s))
  = emitted (trace s)
    ++ reported s (snd (fst (readReply data s)))
    ++ match fRequestQueue s with [] => [busyChanged false] | _ => [] end
  /\ fActiveRequest (onSocketReadyRead indet data s)
     = hd (RequestIPC_none indet) (fRequestQueue s)
  /\ fRequestQueue (onSocketReadyRead indet data s) = tl (fRequestQueue s)
  /\ fAccountList (onSocketReadyRead indet data s) = fAccountList s
  /\ fPendingTransactionsFilterID (onSocketReadyRead indet data s)
     = match fType (fActiveRequest s) with
       | NewPendingTransactionFilter =>
           number_of (snd (fst (readReply data s)))
       | _ => fPendingTransactionsFilterID s
       end
  /\ (fRequestQueue s = [] ->
      fError (onSocketReadyRead indet data s) = fError s
      /\ fCode (onSocketReadyRead indet data s) = fCode s).
Proof.
  intros Hplain Hok. pose proof (readReply_accepted data s Hok) as Hr.
  set (v := snd (fst (readReply data s))) in *. clearbody v.
  unfold onSocketReadyRead, reported.
  destruct (fType (fActiveRequest s)) eqn:Ht; try discriminate Hplain;
    unfold handleNewAccount, handleDeleteAccount, handleGetBlockNumber,
      handleSendTransaction, handleUnlockAccount, handleGetGasPrice,
      handleNewPendingTransactionFilter, readNumber;
    rewrite Hr; cbn;
    match goal with |- context [done indet ?x] =>
      rewrite (done_emitted x);
      destruct (done_next x) as (H1 & H2 & H3 & H4 & H5 & H6);
      rewrite H1, H2, H3, H4
    end; cbn; rewrite ?emitted_app; cbn; rewrite ?app_nil_r, <- ?app_assoc;
    cbn; repeat (split; [reflexivity|]); exact H6.
Qed.

(** X8. When the reply to a call whose handler only reports the result is
    accepted, the handler emits the one signal of the call with the decoded
    result (none for the filter call, whose number is stored), and [done] moves
    on: the next pending call becomes the active one, or the client falls idle
    with [busyChanged(false)]. The accounts are not touched, and an error
    stored earlier is not cleared. *)
Theorem accepted_reply_is_reported_once_and_error_is_kept
    (data : Received) (s : EtherIPC) :
  plain_call (fType (fActiveRequest s)) = true ->
  fst (fst (readReply data s)) = true ->
  emitted (trace (onSocketReadyRead indet data s))
  = emitted (trace s)
    ++ reported s (snd (fst (readReply data s)))
    ++ match fRequestQueue s with [] => [busyChanged false] | _ => [] end
  /\ fActiveRequest (onSocketReadyRead indet data s)
     = hd (RequestIPC_none indet) (fRequestQueue s)
  /\ fRequestQueue (onSocketReadyRead indet data s) = tl (fRequestQueue s)
  /\ fAccountList (onSocketReadyRead indet data s) = fAccountList s
  /\ fPendingTransactionsFilterID (onSocketReadyRead indet data s)
     = match fType (fActiveRequest s) with
       | NewPendingTransactionFilter =>
           number_of (snd (fst (readReply data s)))
       | _ => fPendingTransactionsFilterID s
       end
  /\ (fRequestQueue s = [] ->
      fError (onSocketReadyRead indet data s) = fError s
      /\ fCode (onSocketReadyRead indet data s) = fCode s).
Proof. exact (plain_reply_accepted data s). Qed.

End AcceptedReplies.

(** ** Connecting *)

Section Connecting.

Context {bigint : BigInt}.
Variable indet : Indeterminate.

Lemma run_app (s : EtherIPC) (a b : list Input) :
  run indet s (a ++ b) = run indet (run indet s a) b.
Proof. unfold run. apply fold_left_app. Qed.

Lemma is_request_request_of (i : Input) (id : Z) :
  is_request i = true -> exists r, request_of i id = Some r.
Proof.
  unfold is_request. destruct i; cbn; try discriminate; eauto.
  destruct (_ <=? 0)%float; [discriminate | eauto].
Qed.

(** X9. When the socket reports [connected] and the write that follows is
    accepted: the oldest call made while connecting is written and becomes the
    active call, or, when there is none, the filter call is; the filter call is
    queued behind every other, with the next call id; the two closing signals
    come last. An idle spell between the placeholder and the filter call shows
    as [busyChanged(false)], [busyChanged(true)]. The timer that
    [connectToServer] armed then changes nothing. *)
Theorem connected_writes_oldest_call_and_queues_filter (s : EtherIPC) :
  Forall (fun r => fEmpty r = false) (fRequestQueue s) ->
  0 < sock_sent (fSocket s) (sock_writes (fSocket s)) ->
  written (trace (step indet s Sig_connected))
  = written (trace s)
    ++ [methodToJSON (hd (filter_request (sCallID s)) (fRequestQueue s))]
  /\ fActiveRequest (step indet s Sig_connected)
     = hd (filter_request (sCallID s)) (fRequestQueue s)
  /\ fRequestQueue (step indet s Sig_connected)
     = tl (fRequestQueue s ++ [filter_request (sCallID s)])
  /\ emitted (trace (step indet s Sig_connected))
     = emitted (trace s)
       ++ match fRequestQueue s with
          | [] => [busyChanged false; busyChanged true]
          | _ => []
          end
       ++ [connectToServerDone; connectionStateChanged]
  /\ sCallID (step indet s Sig_connected) = wrap_int (sCallID s + 1)
  /\ step indet (step indet s Sig_connected) Sig_timeout
     = step indet s Sig_connected.
Proof.
  intros Hq Hsent. apply Z.ltb_lt in Hsent.
  assert (Hle : (sock_sent (fSocket s) (sock_writes (fSocket s)) <=? 0) = false)
    by (rewrite Z.leb_antisym, Hsent; reflexivity).
  cbn [step]. unfold connectedToServer, newPendingTransactionFilter, done.
  cbn [RequestIPC_new].
  destruct (fRequestQueue s) as [| first rest] eqn:Hqs.
  - cbn. rewrite Hqs. cbn.
    unfold queueRequest. cbn. unfold writeRequest. cbn. rewrite Hle. cbn.
    unfold disconnectedFromServer. cbn.
    rewrite <- !app_assoc, !emitted_app, !written_app, !written_one. cbn.
    rewrite Hsent. cbn. rewrite ?app_nil_r, ?Hqs. repeat split.
  - cbn. rewrite Hqs. cbn.
    apply Forall_cons_1 in Hq as [Hf _].
    unfold writeRequest. cbn. rewrite Hle. cbn.
    unfold queueRequest. cbn. rewrite Hf. cbn.
    unfold disconnectedFromServer. cbn.
    rewrite <- !app_assoc, !emitted_app, !written_app, !written_one. cbn.
    rewrite Hsent. cbn. rewrite ?app_nil_r, ?Hqs. repeat split.
Qed.

Lemma next_id_succ (n : nat) (id : Z) :
  next_id (S n) id = next_id n (wrap_int (id + 1)).
Proof. exact (Nat.iter_succ_r n (fun z => wrap_int (z + 1)) id). Qed.

#[local] Arguments next_id : simpl never.

(** A run of calls that build an envelope, on a busy client, only extends
    the pending queue. *)
Lemma requests_while_busy (calls : list Input) : forall s : EtherIPC,
  Forall (fun i => is_request i = true) calls ->
  fEmpty (fActiveRequest s) = false ->
  emitted (trace (run indet s calls)) = emitted (trace s)
  /\ transport_operations (trace (run indet s calls))
     = transport_operations (trace s)
  /\ fActiveRequest (run indet s calls) = fActiveRequest s
  /\ fSocket (run indet s calls) = fSocket s
  /\ fPath (run indet s calls) = fPath s
  /\ fError (run indet s calls) = fError s
  /\ fCode (run indet s calls) = fCode s
  /\ length (fRequestQueue (run indet s calls))
     = (length (fRequestQueue s) + length calls)%nat
  /\ sCallID (run indet s calls) = next_id (length calls) (sCallID s).
Proof.
  induction calls as [| i calls IH]; intros s Hc Hb.
  - cbn. rewrite Nat.add_0_r. repeat split.
  - apply Forall_cons_1 in Hc as [Hi Hc].
    destruct (is_request_request_of i (sCallID s) Hi) as [r Hr].
    pose proof (step_while_busy indet i s r Hr Hb) as Hs.
    change (run indet s (i :: calls)) with (run indet (step indet s i) calls).
    assert (Hb' : fEmpty (fActiveRequest (step indet s i)) = false)
      by (rewrite Hs; exact Hb).
    destruct (IH _ Hc Hb') as (I1 & I2 & I3 & I4 & I5 & I6 & I7 & I8 & I9).
    rewrite I1, I2, I3, I4, I5, I6, I7, I8, I9, Hs. cbn.
    unfold transport_operations.
    rewrite emitted_app, List.filter_app, length_app. cbn.
    rewrite !app_nil_r.
    rewrite next_id_succ. repeat split. lia.
Qed.

(** X10. A connect attempt that fails: the socket reports the error and the
    timer fires on the unconnected socket. With calls that build an envelope
    made in between (any call of the interface but [connectToServer] and a
    [sendTransaction] that refuses its value, which bail and so report an
    error of their own), one [error] with the socket's message and code is
    emitted, framed by [busyChanged(true)] and the two closing signals; the
    calls are dropped without a report of their own and without a write,
    though each took a call id. *)
Theorem failed_connect_reports_once_and_drops_calls
    (s : EtherIPC) (path e : string) (err : Z) (calls : list Input) :
  sock_state (fSocket s) = UnconnectedState ->
  Forall (fun i => is_request i = true) calls ->
  emitted
    (trace (run indet s (Call_connectToServer path :: calls
                         ++ [Sig_error e err; Sig_timeout])))
  = emitted (trace s)
    ++ [busyChanged true; error e err; connectionStateChanged;
        busyChanged false]
  /\ transport_operations
       (trace (run indet s (Call_connectToServer path :: calls
                            ++ [Sig_error e err; Sig_timeout])))
     = transport_operations (trace s) ++ [SockConnect path]
  /\ getBusy (run indet s (Call_connectToServer path :: calls
                           ++ [Sig_error e err; Sig_timeout])) = false
  /\ fRequestQueue (run indet s (Call_connectToServer path :: calls
                                 ++ [Sig_error e err; Sig_timeout])) = []
  /\ sCallID (run indet s (Call_connectToServer path :: calls
                           ++ [Sig_error e err; Sig_timeout]))
     = next_id (length calls) (sCallID s)
  /\ fPath (run indet s (Call_connectToServer path :: calls
                         ++ [Sig_error e err; Sig_timeout])) = path.
Proof.
  intros Hu Hc.
  change (run indet s (Call_connectToServer path :: calls
                       ++ [Sig_error e err; Sig_timeout]))
    with (run indet (connectToServer indet path s)
            (calls ++ [Sig_error e err; Sig_timeout])).
  rewrite run_app.
  assert (Hconn : connectToServer indet path s
    = effect (SingleShot 2000)
        (effect (SockConnect path)
           (set_sock_state ConnectingState
              (set_fPath path
                 (emit (busyChanged true)
                    (set_fActiveRequest (RequestIPC_flag indet false) s)))))).
  { unfold connectToServer. cbn. rewrite Hu. reflexivity. }
  destruct (requests_while_busy calls (connectToServer indet path s) Hc)
    as (I1 & I2 & I3 & I4 & I5 & I6 & I7 & I8 & I9).
  { rewrite Hconn. reflexivity. }
  set (m := run indet (connectToServer indet path s) calls) in *.
  rewrite Hconn in I1, I2, I3, I4, I5, I6, I7, I9.
  cbn in I1, I2, I3, I4, I5, I9.
  unfold run. cbn [fold_left step].
  unfold onSocketError, disconnectedFromServer. cbn. rewrite I4. cbn.
  match goal with |- context [bail indet ?x] =>
    destruct (bail_trace indet x) as (Ht & Ha & Hq & _ & _ & Hid & Hp & _)
  end.
  unfold getBusy, transport_operations in *.
  rewrite Ht, Ha, Hq, Hid, Hp. cbn. rewrite I5, I9.
  rewrite emitted_app, List.filter_app, I1, I2. cbn.
  rewrite !emitted_app, !List.filter_app. cbn.
  rewrite ?app_nil_r, <- ?app_assoc. cbn. repeat split.
Qed.

End Connecting.

(** ** Call ids and the peer count over a whole run *)

Section Tidy.

Context {bigint : BigInt}.
Variable indet : Indeterminate.

#[local] Arguments next_id : simpl never.
#[local] Arguments ids_from : simpl never.

Lemma ids_from_snoc (n : nat) : forall id : Z,
  ids_from id (S n) = ids_from id n ++ [next_id n id].
Proof.
  induction n as [| n IH]; intros id; [reflexivity|].
  change (ids_from id (S (S n)))
    with (id :: ids_from (wrap_int (id + 1)) (S n)).
  rewrite IH, next_id_succ. reflexivity.
Qed.

Lemma quiet_queued (w : list Effect) :
  forallb quiet w = true -> queued w = [].
Proof.
  induction w as [| e w IH]; [reflexivity|]. cbn [forallb].
  intros H. apply andb_true_iff in H as [He Hw].
  rewrite queued_cons, (IH Hw).
  destruct e as [[]| | | | |]; try discriminate He; reflexivity.
Qed.

Lemma quiet_no_peer_count (w : list Effect) :
  forallb quiet w = true ->
  Forall (fun e => is_peerCountChanged e = false) w.
Proof.
  induction w as [| e w IH]; [constructor|]. cbn [forallb].
  intros H. apply andb_true_iff in H as [He Hw].
  constructor; [|exact (IH Hw)].
  destruct e as [[]| | | | |]; try discriminate He; reflexivity.
Qed.

Lemma still_intro (s s' : EtherIPC) (w : list Effect) :
  trace s' = trace s ++ w -> forallb quiet w = true ->
  sCallID s' = sCallID s -> fPeerCount s' = fPeerCount s -> still s s'.
Proof.
  intros H1 H2 H3 H4. exists w. repeat split; try assumption.
  apply List.Forall_forall. intros e He.
  apply (proj1 (forallb_forall quiet w) H2 e He).
Qed.

Lemma still_same (s s' : EtherIPC) :
  trace s' = trace s -> sCallID s' = sCallID s ->
  fPeerCount s' = fPeerCount s -> still s s'.
Proof.
  intros H1 H2 H3. apply (still_intro s s' []); try assumption.
  - rewrite app_nil_r. exact H1.
  - reflexivity.
Qed.

Lemma still_trans (a b c : EtherIPC) : still a b -> still b c -> still a c.
Proof.
  intros (w & W1 & W2 & W3 & W4) (v & V1 & V2 & V3 & V4).
  exists (w ++ v). rewrite V1, W1, V3, W3, V4, W4, app_assoc.
  repeat split. apply Forall_app. split; assumption.
Qed.

Ltac still_now :=
  first
    [ apply still_same; reflexivity
    | eapply still_intro;
      [ cbn; rewrite <- ?app_assoc; cbn; reflexivity | reflexivity.. ] ].

Lemma still_writeRequest (s : EtherIPC) : still s (snd (writeRequest s)).
Proof.
  unfold writeRequest. destruct (negb _); cbn; [still_now|].
  destruct (_ <=? 0); cbn; still_now.
Qed.

Lemma still_done (s : EtherIPC) : still s (done indet s).
Proof.
  unfold done. destruct (fRequestQueue s) as [| first rest].
  - still_now.
  - eapply still_trans; [|apply still_writeRequest]. still_now.
Qed.

Lemma still_bail (s : EtherIPC) : still s (bail indet s).
Proof.
  unfold bail. eapply still_trans; [|apply still_done]. still_now.
Qed.

Lemma still_readReply (data : Received) (s : EtherIPC) :
  still s (snd (readReply data s)).
Proof.
  unfold readReply. destruct data as [| e | doc]; cbn; try still_now.
  destruct (negb _); cbn; [still_now|].
  destruct (isUndefined _ || isNull _); cbn; [|still_now].
  destruct (contains _ "error"); cbn; [|still_now].
  destruct (contains _ "message"), (contains _ "code"); cbn; still_now.
Qed.

Lemma still_readNumber (data : Received) (s : EtherIPC) :
  still s (snd (readNumber data s)).
Proof.
  unfold readNumber. pose proof (still_readReply data s) as H.
  destruct (readReply data s) as [[[|] jv] s1]; exact H.
Qed.

Lemma tidy_still (id0 p0 : Z) (s s' : EtherIPC) :
  tidy id0 p0 s -> still s s' -> tidy id0 p0 s'.
Proof.
  intros (T1 & T2 & T3 & T4 & T5) (w & Hw & Hq & Hid & Hp).
  assert (Hb : forallb quiet w = true).
  { apply forallb_forall. intros e He.
    apply (proj1 (List.Forall_forall _ w) Hq e He). }
  unfold tidy.
  rewrite Hw, queued_app, (quiet_queued w Hb), app_nil_r, Hid, Hp.
  split; [|auto].
  apply Forall_app. split; [exact T1 | apply quiet_no_peer_count, Hb].
Qed.

(** [queueRequest] on the envelope that took the next call id. *)
Lemma tidy_queueRequest (id0 p0 : Z) (s s1 : EtherIPC) (r : RequestIPC) :
  tidy id0 p0 s -> envelope_ok r -> fCallID r = sCallID s ->
  trace s1 = trace s -> sCallID s1 = wrap_int (sCallID s + 1) ->
  fPeerCount s1 = fPeerCount s ->
  tidy id0 p0 (snd (queueRequest r s1)).
Proof.
  intros (T1 & T2 & T3 & T4 & T5) Hok Hid Ht Hs Hp.
  assert (Hq : tidy id0 p0 (effect (Queued r) s1)).
  { unfold tidy. cbn. rewrite Ht, queued_app, queued_one. cbn [queued_of].
    rewrite length_app, map_app. cbn [length map].
    rewrite Nat.add_1_r, ids_from_snoc, T3, Hid, T4, Hs, Hp, T4.
    repeat split; try assumption.
    - apply Forall_app. split; [exact T1 | repeat constructor].
    - apply Forall_app. split; [exact T2 | repeat constructor; apply Hok]. }
  unfold queueRequest. cbn.
  destruct (fEmpty (fActiveRequest s1)); cbn.
  - eapply tidy_still; [exact Hq|].
    eapply still_trans; [|apply still_writeRequest]. still_now.
  - eapply tidy_still; [exact Hq|]. still_now.
Qed.

Lemma request_of_ok (i : Input) (id : Z) (r : RequestIPC) :
  request_of i id = Some r -> envelope_ok r /\ fCallID r = id.
Proof.
  destruct i; cbn; try discriminate;
    try (intros H; injection H as <-; repeat split; reflexivity).
  destruct (_ <=? 0)%float; [discriminate|].
  intros H; injection H as <-; repeat split; reflexivity.
Qed.

Ltac still_chain :=
  repeat match goal with
  | H : still ?s ?s1 |- still ?s ?s1 => exact H
  | |- still ?s (done indet ?x) =>
      apply (still_trans s x); [|apply still_done]
  | |- still ?s (bail indet ?x) =>
      apply (still_trans s x); [|apply still_bail]
  | H : still ?s ?s1 |- still ?s ?x =>
      apply (still_trans s s1); [exact H | still_now]
  end.

Ltac after_reply data s :=
  let H := fresh "H" in
  pose proof (still_readReply data s) as H;
  destruct (readReply data s) as [[[|] ?jv] ?s1]; cbn in H |- *.

Ltac after_number data s :=
  let H := fresh "H" in
  pose proof (still_readNumber data s) as H;
  destruct (readNumber data s) as [[?n|] ?s1]; cbn in H |- *.

Lemma still_handleNewAccount data (s : EtherIPC) :
  still s (handleNewAccount indet data s).
Proof. unfold handleNewAccount. after_reply data s; still_chain. Qed.

Lemma still_handleDeleteAccount data (s : EtherIPC) :
  still s (handleDeleteAccount indet data s).
Proof. unfold handleDeleteAccount. after_reply data s; still_chain. Qed.

Lemma still_handleSendTransaction data (s : EtherIPC) :
  still s (handleSendTransaction indet data s).
Proof. unfold handleSendTransaction. after_reply data s; still_chain. Qed.

Lemma still_handleUnlockAccount data (s : EtherIPC) :
  still s (handleUnlockAccount indet data s).
Proof. unfold handleUnlockAccount. after_reply data s; still_chain. Qed.

Lemma still_handleGetGasPrice data (s : EtherIPC) :
  still s (handleGetGasPrice indet data s).
Proof. unfold handleGetGasPrice. after_reply data s; still_chain. Qed.

Lemma still_handleAccountBalance data (s : EtherIPC) :
  still s (handleAccountBalance indet data s).
Proof. unfold handleAccountBalance. after_reply data s; still_chain. Qed.

Lemma still_handleAccountTransactionCount data (s : EtherIPC) :
  still s (handleAccountTransactionCount indet data s).
Proof.
  unfold handleAccountTransactionCount. after_reply data s; [|still_chain].
  destruct (_ =? _); still_chain.
Qed.

Lemma still_handleGetBlockNumber data (s : EtherIPC) :
  still s (handleGetBlockNumber indet data s).
Proof. unfold handleGetBlockNumber. after_number data s; still_chain. Qed.

Lemma still_handleNewPendingTransactionFilter data (s : EtherIPC) :
  still s (handleNewPendingTransactionFilter indet data s).
Proof.
  unfold handleNewPendingTransactionFilter. after_number data s; still_chain.
Qed.

Lemma tidy_handleAccountDetails_loop (id0 p0 : Z) (refs : QJsonArray) :
  forall (i : Z) (s : EtherIPC),
    tidy id0 p0 s -> tidy id0 p0 (snd (handleAccountDetails_loop refs i s)).
Proof.
  induction refs as [| ref refs IH]; intros i s Ht; [exact Ht|].
  cbn [handleAccountDetails_loop RequestIPC_new].
  match goal with |- context [queueRequest ?q ?x] =>
    pose proof (tidy_queueRequest id0 p0 s x q Ht
                  (conj eq_refl eq_refl) eq_refl eq_refl eq_refl eq_refl)
      as H1;
    destruct (queueRequest q x) as [[|] s1]
  end; cbn in H1 |- *; [|exact H1].
  match goal with |- context [queueRequest ?q ?x] =>
    pose proof (tidy_queueRequest id0 p0 s1 x q H1
                  (conj eq_refl eq_refl) eq_refl eq_refl eq_refl eq_refl)
      as H2;
    destruct (queueRequest q x) as [[|] s2]
  end; cbn in H2 |- *; [|exact H2].
  apply IH, H2.
Qed.

Lemma tidy_handleAccountDetails (id0 p0 : Z) data (s : EtherIPC) :
  tidy id0 p0 s -> tidy id0 p0 (handleAccountDetails indet data s).
Proof.
  intros Ht. unfold handleAccountDetails.
  pose proof (still_readReply data s) as H.
  destruct (readReply data s) as [[[|] jv] s1]; cbn in H |- *.
  - pose proof (tidy_handleAccountDetails_loop id0 p0 (toArray jv) 0 s1
                  (tidy_still _ _ _ _ Ht H)) as HL.
    destruct (handleAccountDetails_loop (toArray jv) 0 s1) as [[|] s2];
      cbn in HL |- *.
    + eapply tidy_still; [exact HL | apply still_done].
    + eapply tidy_still; [exact HL | apply still_bail].
  - eapply tidy_still; [exact Ht|]. still_chain.
Qed.

Lemma tidy_onSocketReadyRead (id0 p0 : Z) data (s : EtherIPC) :
  tidy id0 p0 s -> tidy id0 p0 (onSocketReadyRead indet data s).
Proof.
  intros Ht. unfold onSocketReadyRead.
  destruct (fType (fActiveRequest s)).
  - eapply tidy_still; [exact Ht | apply still_handleNewAccount].
  - eapply tidy_still; [exact Ht | apply still_handleDeleteAccount].
  - eapply tidy_still; [exact Ht | apply still_handleGetBlockNumber].
  - apply tidy_handleAccountDetails, Ht.
  - eapply tidy_still; [exact Ht | apply still_handleAccountBalance].
  - eapply tidy_still; [exact Ht | apply still_handleAccountTransactionCount].
  - exact Ht.
  - eapply tidy_still; [exact Ht | apply still_handleSendTransaction].
  - eapply tidy_still; [exact Ht | apply still_handleUnlockAccount].
  - eapply tidy_still; [exact Ht | apply still_handleGetGasPrice].
  - eapply tidy_still;
      [exact Ht | apply still_handleNewPendingTransactionFilter].
Qed.

Lemma tidy_request (id0 p0 : Z) (i : Input) (s : EtherIPC) (r : RequestIPC) :
  request_of i (sCallID s) = Some r ->
  tidy id0 p0 s -> tidy id0 p0 (step indet s i).
Proof.
  intros Hr Ht. rewrite (step_request_of indet i s r Hr).
  destruct (request_of_ok i _ r Hr) as [Hok Hid].
  pose proof (tidy_queueRequest id0 p0 s
                (set_sCallID (wrap_int (sCallID s + 1)) s) r Ht Hok Hid
                eq_refl eq_refl eq_refl) as Hq.
  destruct (queueRequest r _) as [[|] s1]; cbn in Hq |- *; [exact Hq|].
  eapply tidy_still; [exact Hq | apply still_bail].
Qed.

Lemma still_disconnectedFromServer (s : EtherIPC) :
  still s (disconnectedFromServer indet s).
Proof.
  unfold disconnectedFromServer. destruct (LocalSocketState_eqb _ _).
  - eapply still_trans; [|apply still_bail]. still_now.
  - still_now.
Qed.

Lemma step_tidy (id0 p0 : Z) (s : EtherIPC) (i : Input) :
  tidy id0 p0 s -> tidy id0 p0 (step indet s i).
Proof.
  intros Ht.
  destruct (request_of i (sCallID s)) as [r|] eqn:Hr;
    [exact (tidy_request id0 p0 i s r Hr Ht)|].
  destruct i; try discriminate Hr; cbn [step].
  - eapply tidy_still; [exact Ht|]. unfold connectToServer.
    destruct (negb _).
    + eapply still_trans; [|apply still_bail]. still_now.
    + still_now.
  - unfold sendTransaction. cbn in Hr.
    destruct (_ <=? 0)%float; [|discriminate Hr].
    eapply tidy_still; [exact Ht|].
    eapply still_trans; [|apply still_bail]. still_now.
  - unfold connectedToServer, newPendingTransactionFilter.
    cbn [RequestIPC_new].
    assert (Hd : tidy id0 p0 (done indet (set_sock_state ConnectedState s))).
    { eapply tidy_still; [exact Ht|].
      eapply still_trans; [|apply still_done]. still_now. }
    match goal with |- context [queueRequest ?q ?x] =>
      pose proof (tidy_queueRequest id0 p0 _ x q Hd
                    (conj eq_refl eq_refl) eq_refl eq_refl eq_refl eq_refl)
        as Hq;
      destruct (queueRequest q x) as [[|] s1]
    end; cbn in Hq |- *.
    + eapply tidy_still; [exact Hq|]. still_now.
    + eapply tidy_still; [exact Hq|].
      apply (still_trans s1 (bail indet s1)); [apply still_bail | still_now].
  - eapply tidy_still; [exact Ht|].
    eapply still_trans; [|apply still_disconnectedFromServer]. still_now.
  - eapply tidy_still; [exact Ht|]. unfold onSocketError.
    destruct (LocalSocketState_eqb _ _); still_now.
  - apply tidy_onSocketReadyRead, Ht.
  - eapply tidy_still; [exact Ht | apply still_disconnectedFromServer].
Qed.

Lemma run_tidy (id0 p0 : Z) (inputs : list Input) : forall s : EtherIPC,
  tidy id0 p0 s -> tidy id0 p0 (run indet s inputs).
Proof.
  induction inputs as [| i inputs IH]; intros s Ht; [exact Ht|].
  apply (IH (step indet s i)), step_tidy, Ht.
Qed.

Lemma tidy_start (s : EtherIPC) :
  trace s = [] -> tidy (sCallID s) (fPeerCount s) s.
Proof.
  intros Ht. unfold tidy. rewrite Ht. cbn. repeat split; constructor.
Qed.

(** X11. Whatever reaches a client with an empty history, its stored peer count
    never changes and [peerCountChanged] is never emitted: the count read
    through [peerCount] is the one the client started with. *)
Theorem peer_count_is_never_updated (s : EtherIPC) (inputs : list Input) :
  trace s = [] ->
  peerCount (run indet s inputs) = peerCount s
  /\ forall n : Z,
       ~ In (peerCountChanged n) (emitted (trace (run indet s inputs))).
Proof.
  intros Hs.
  destruct (run_tidy _ _ inputs s (tidy_start s Hs)) as (T1 & _ & _ & _ & T5).
  split; [exact T5|].
  intros n Hin. unfold emitted in Hin.
  apply List.in_flat_map in Hin as (e & He & Hn).
  pose proof (proj1 (List.Forall_forall _ _) T1 e He) as Hq.
  destruct e as [sig| | | | |]; cbn in Hn; try contradiction.
  destruct Hn as [->|[]]. discriminate Hq.
Qed.

(** X12. Whatever reaches a client with an empty history, the envelopes handed
    to [queueRequest] carry the successive call ids, starting with the client's
    first and wrapping as [wrap_int] does, none is the empty sentinel, each is
    under the method of its type, and the next call id is the one after the
    last taken. *)
Theorem call_ids_are_taken_in_sequence (s : EtherIPC) (inputs : list Input) :
  trace s = [] ->
  map fCallID (queued (trace (run indet s inputs)))
  = ids_from (sCallID s) (length (queued (trace (run indet s inputs))))
  /\ sCallID (run indet s inputs)
     = next_id (length (queued (trace (run indet s inputs)))) (sCallID s)
  /\ Forall envelope_ok (queued (trace (run indet s inputs))).
Proof.
  intros Hs.
  destruct (run_tidy _ _ inputs s (tidy_start s Hs)) as (_ & T2 & T3 & T4 & _).
  auto.
Qed.

End Tidy.

(** ** The pending queue over a whole run *)

Section Pending.

Context {bigint : BigInt}.
Variable indet : Indeterminate.

(** X13. In every admissible run of a newly constructed client: an idle client
    has nothing pending and no call in flight; a call is in flight only on a
    connected socket; no pending envelope is the empty sentinel; and the
    pending queue is the tail end of the envelopes handed to [queueRequest]. *)
Theorem idle_client_has_nothing_pending (s : EtherIPC) (inputs : list Input) :
  fresh s ->
  admissible indet s inputs = true ->
  (getBusy (run indet s inputs) = false ->
   fRequestQueue (run indet s inputs) = []
   /\ in_flight (trace (run indet s inputs)) = false)
  /\ (in_flight (trace (run indet s inputs)) = true ->
      sock_state (fSocket (run indet s inputs)) = ConnectedState)
  /\ Forall (fun r => fEmpty r = false) (fRequestQueue (run indet s inputs))
  /\ exists taken : list RequestIPC,
       queued (trace (run indet s inputs))
       = taken ++ fRequestQueue (run indet s inputs).
Proof.
  intros Hf Ha.
  destruct (run_consistent indet inputs s (fresh_consistent s Hf) Ha)
    as (((taken & HE & _) & _ & Hne) & Hfl & Hidle).
  split; [|split; [|split]].
  - unfold getBusy. intros Hb. apply negb_false_iff in Hb.
    split; [exact (Hidle Hb)|].
    destruct (in_flight _) eqn:Hin; [|reflexivity].
    destruct (Hfl eq_refl) as [_ Hbusy]. congruence.
  - intros Hin. apply (Hfl Hin).
  - exact Hne.
  - exists taken. exact HE.
Qed.

(** X14. Once a peer-count call is the active call, neither data from the
    daemon nor further calls that build an envelope get the client past it:
    no data is read, nothing more is written, no signal is emitted, and the
    later calls only lengthen the pending queue. (The calls that build no
    envelope, [connectToServer] and a [sendTransaction] that refuses its
    value, bail and so drop the peer-count call; a change of state of the
    socket is not covered either.) *)
Theorem peer_count_call_blocks_the_queue (inputs : list Input) :
  forall s : EtherIPC,
    fType (fActiveRequest s) = GetPeerCount ->
    fEmpty (fActiveRequest s) = false ->
    forallb call_or_data inputs = true ->
    fActiveRequest (run indet s inputs) = fActiveRequest s
    /\ emitted (trace (run indet s inputs)) = emitted (trace s)
    /\ transport_operations (trace (run indet s inputs))
       = transport_operations (trace s)
    /\ fRequestQueue s `prefix_of` fRequestQueue (run indet s inputs)
    /\ peerCount (run indet s inputs) = peerCount s.
Proof.
  induction inputs as [| i inputs IH]; intros s Hty Hb Hin.
  - cbn. repeat split. reflexivity.
  - cbn [forallb] in Hin. apply andb_true_iff in Hin as [Hi Hin].
    change (run indet s (i :: inputs))
      with (run indet (step indet s i) inputs).
    unfold call_or_data in Hi. apply orb_true_iff in Hi as [Hi | Hi].
    + destruct (is_request_request_of i (sCallID s) Hi) as [r Hr].
      pose proof (step_while_busy indet i s r Hr Hb) as Hs.
      destruct (IH (step indet s i)) as (I1 & I2 & I3 & I4 & I5);
        try (rewrite Hs; assumption); [exact Hin|].
      rewrite I1, I2, I3, I5. rewrite Hs in I4 |- *. cbn in I4 |- *.
      unfold transport_operations.
      rewrite emitted_app, List.filter_app. cbn. rewrite !app_nil_r.
      repeat split.
      etransitivity; [|exact I4]. apply prefix_app_r. reflexivity.
    + destruct i; try discriminate Hi. cbn [step].
      unfold onSocketReadyRead. rewrite Hty. apply IH; assumption.
Qed.

End Pending.

(** ** The reply to a listing call *)

Section Listing.

Context {bigint : BigInt}.
Variable indet : Indeterminate.

Lemma emitted_map_Queued (rs : list RequestIPC) : emitted (map Queued rs) = [].
Proof. induction rs as [| r rs IH]; [reflexivity | exact IH]. Qed.

(** X15. When the reply to a listing call is accepted, whatever the number of
    entries of its result (none when the result is no array): a record with an
    empty balance and transaction count -1 is appended for each entry, after
    the records there already, under the entry's text or "INVALID"; a balance
    call and a count call per entry are queued behind the pending calls;
    [getAccountsDone] is not emitted; and [done] moves on to the oldest pending
    call, the client falling idle only when there is none. *)
Theorem listing_reply_appends_records_and_queues_follow_ups
    (data : Received) (s : EtherIPC) :
  fType (fActiveRequest s) = GetAccountRefs ->
  fEmpty (fActiveRequest s) = false ->
  fst (fst (readReply data s)) = true ->
  fAccountList (onSocketReadyRead indet data s)
  = fAccountList s
    ++ new_accounts (toArray (snd (fst (readReply data s))))
  /\ queued (trace (onSocketReadyRead indet data s))
     = queued (trace s)
       ++ follow_ups (toArray (snd (fst (readReply data s)))) 0 (sCallID s)
  /\ fActiveRequest (onSocketReadyRead indet data s)
     = hd (RequestIPC_none indet)
         (fRequestQueue s
          ++ follow_ups (toArray (snd (fst (readReply data s)))) 0
               (sCallID s))
  /\ fRequestQueue (onSocketReadyRead indet data s)
     = tl (fRequestQueue s
           ++ follow_ups (toArray (snd (fst (readReply data s)))) 0
                (sCallID s))
  /\ emitted (trace (onSocketReadyRead indet data s))
     = emitted (trace s)
       ++ match fRequestQueue s
                ++ follow_ups (toArray (snd (fst (readReply data s)))) 0
                     (sCallID s)
          with
          | [] => [busyChanged false]
          | _ => []
          end.
Proof.
  intros Hty Hb Hok. pose proof (readReply_accepted data s Hok) as Hr.
  set (v := snd (fst (readReply data s))) in *. clearbody v.
  unfold onSocketReadyRead. rewrite Hty. unfold handleAccountDetails.
  rewrite Hr. cbn [negb].
  destruct (handleAccountDetails_loop_spec (toArray v) 0
              (effect (SockRead data) s) Hb)
    as (L1 & L2 & L3 & L4 & L5 & L6).
  destruct (handleAccountDetails_loop (toArray v) 0 (effect (SockRead data) s))
    as [ok s1]. cbn in L1, L2, L3, L4, L5, L6. subst ok. cbn [negb].
  rewrite (done_emitted indet s1).
  destruct (done_next indet s1) as (D1 & D2 & D3 & _).
  rewrite D1, D2, D3, L3, L4, L2.
  assert (Hq : queued (trace (done indet s1)) = queued (trace s1)).
  { unfold done. destruct (fRequestQueue s1) as [| first rest]; cbn.
    - rewrite queued_app. cbn. apply app_nil_r.
    - match goal with |- context [writeRequest ?x] =>
        destruct (writeRequest_footprint x) as (_ & _ & _ & _ & _ & F & _)
      end.
      exact F. }
  rewrite Hq, L2. cbn.
  rewrite !emitted_app, !queued_app, emitted_map_Queued, queued_map_Queued.
  cbn. rewrite !app_nil_r. repeat split.
Qed.

End Listing.

(** ** A call and its reply *)

Section RoundTrip.

Context {bigint : BigInt}.
Variable indet : Indeterminate.

Lemma emitted_map_Emit (l : list Signal) : emitted (map Emit l) = l.
Proof.
  induction l as [| x l IH]; [reflexivity|].
  change (emitted (map Emit (x :: l))) with (x :: emitted (map Emit l)).
  rewrite IH. reflexivity.
Qed.

Lemma transport_operations_map_Emit (l : list Signal) :
  List.filter is_SockOp (map Emit l) = [].
Proof. induction l as [| x l IH]; [reflexivity | exact IH]. Qed.

(** The handler of a call that only reports the result, on an accepted
    reply with nothing pending. *)
Lemma plain_reply_idle (data : Received) (s : EtherIPC) (v : QJsonValue) :
  plain_call (fType (fActiveRequest s)) = true ->
  readReply data s = (true, v, effect (SockRead data) s) ->
  fRequestQueue s = [] ->
  trace (onSocketReadyRead indet data s)
  = trace s ++ SockRead data :: map Emit (reported s v)
    ++ [Emit (busyChanged false)]
  /\ fEmpty (fActiveRequest (onSocketReadyRead indet data s)) = true
  /\ fRequestQueue (onSocketReadyRead indet data s) = []
  /\ fError (onSocketReadyRead indet data s) = fError s
  /\ fCode (onSocketReadyRead indet data s) = fCode s
  /\ sCallID (onSocketReadyRead indet data s) = sCallID s.
Proof.
  intros Hplain Hr Hq.
  unfold onSocketReadyRead, reported.
  destruct (fType (fActiveRequest s)) eqn:Ht; try discriminate Hplain;
    unfold handleNewAccount, handleDeleteAccount, handleGetBlockNumber,
      handleSendTransaction, handleUnlockAccount, handleGetGasPrice,
      handleNewPendingTransactionFilter, readNumber;
    rewrite Hr; cbn; rewrite done_idle by exact Hq; cbn;
    rewrite <- ?app_assoc; cbn; rewrite ?Hq; repeat split.
Qed.

(** X16. A call of the interface on an idle, connected client, followed by the
    daemon's reply: for a call whose handler only reports the result, when the
    write is accepted and the reply carries a usable result, the client is busy
    in between and idle again afterwards, with exactly [busyChanged(true)], the
    signal of the call and [busyChanged(false)] emitted, one write and one read
    on the socket, the next call id one further, and the stored error as it
    was. *)
Theorem call_and_reply_round_trip
    (i : Input) (s : EtherIPC) (r : RequestIPC) (v : QJsonValue) :
  request_of i (sCallID s) = Some r ->
  plain_call (fType r) = true ->
  fEmpty (fActiveRequest s) = true ->
  fRequestQueue s = [] ->
  sock_state (fSocket s) = ConnectedState ->
  0 < sock_sent (fSocket s) (sock_writes (fSocket s)) ->
  in_int (sCallID s) = true ->
  usable v ->
  fActiveRequest (step indet s i) = r
  /\ emitted
       (trace (step indet (step indet s i)
                 (Sig_readyRead (reply_to (step indet s i) v))))
     = emitted (trace s)
       ++ busyChanged true :: reported (step indet s i) v
       ++ [busyChanged false]
  /\ transport_operations
       (trace (step indet (step indet s i)
                 (Sig_readyRead (reply_to (step indet s i) v))))
     = transport_operations (trace s)
       ++ [SockWrite (methodToJSON r)
             (sock_sent (fSocket s) (sock_writes (fSocket s)));
           SockRead (reply_to (step indet s i) v)]
  /\ getBusy (step indet (step indet s i)
                (Sig_readyRead (reply_to (step indet s i) v))) = false
  /\ fRequestQueue (step indet (step indet s i)
                      (Sig_readyRead (reply_to (step indet s i) v))) = []
  /\ sCallID (step indet (step indet s i)
                (Sig_readyRead (reply_to (step indet s i) v)))
     = wrap_int (sCallID s + 1)
  /\ getError (step indet (step indet s i)
                 (Sig_readyRead (reply_to (step indet s i) v)))
     = getError s
  /\ getCode (step indet (step indet s i)
                (Sig_readyRead (reply_to (step indet s i) v)))
     = getCode s.
Proof.
  intros Hr Hplain Hidle Hq Hconn Hsent Hid Hv.
  destruct (request_of_nonempty i _ r Hr) as [Hne Hrid].
  assert (Hle : (sock_sent (fSocket s) (sock_writes (fSocket s)) <=? 0) = false)
    by (apply Z.leb_gt; exact Hsent).
  assert (Hs1 : step indet s i
    = effect (SockWrite (methodToJSON r)
                (sock_sent (fSocket s) (sock_writes (fSocket s))))
        (set_fSocket
           (mkQLocalSocket (sock_state (fSocket s))
              (sock_errorString (fSocket s)) (sock_sent (fSocket s))
              (S (sock_writes (fSocket s))))
           (emit (busyChanged true)
              (set_fActiveRequest r
                 (effect (Queued r)
                    (set_sCallID (wrap_int (sCallID s + 1)) s)))))).
  { rewrite (step_request_of indet i s r Hr).
    unfold queueRequest. cbn. rewrite Hidle.
    unfold writeRequest, getBusy, isWritable. cbn.
    rewrite Hconn, Hne, Hle. reflexivity. }
  set (s1 := step indet s i) in *.
  assert (Ha1 : fActiveRequest s1 = r) by (rewrite Hs1; reflexivity).
  assert (Hok : readReply (reply_to s1 v) s1
                = (true, v, effect (SockRead (reply_to s1 v)) s1)).
  { apply readReply_reply_to; [|exact Hv]. rewrite Ha1, Hrid. exact Hid. }
  assert (Hq1 : fRequestQueue s1 = []) by (rewrite Hs1; exact Hq).
  cbn [step].
  destruct (plain_reply_idle (reply_to s1 v) s1 v)
    as (P1 & P2 & P3 & P4 & P5 & P6);
    [rewrite Ha1; exact Hplain | exact Hok | exact Hq1 |].
  unfold getBusy, getError, getCode, transport_operations.
  rewrite P1, P2, P3, P4, P5, P6.
  rewrite emitted_app, List.filter_app.
  cbn [emitted flat_map List.filter is_SockOp emitted_of app].
  rewrite emitted_app, List.filter_app.
  change (flat_map emitted_of (map Emit (reported s1 v)))
    with (emitted (map Emit (reported s1 v))).
  rewrite ?emitted_map_Emit, ?transport_operations_map_Emit.
  split; [exact Ha1|].
  rewrite Hs1. cbn. rewrite !emitted_app, !List.filter_app. cbn.
  rewrite ?app_nil_r, <- ?app_assoc. cbn. repeat split.
Qed.

End RoundTrip.

(** ** Losing the connection *)

Section Disconnecting.

Context {bigint : BigInt}.
Variable indet : Indeterminate.

(** X17. When the socket reports [disconnected], the pending calls and the
    active call are dropped without a write, and one [error] is emitted with
    the socket's error string and the code stored last, whatever it was for,
    followed by the two closing signals. A timer of an earlier
    [connectToServer] that fires afterwards repeats the same report. *)
Theorem disconnect_drops_calls_and_timer_repeats_report (s : EtherIPC) :
  emitted (trace (step indet s Sig_disconnected))
  = emitted (trace s)
    ++ [error (sock_errorString (fSocket s)) (getCode s);
        connectionStateChanged; busyChanged false]
  /\ transport_operations (trace (step indet s Sig_disconnected))
     = transport_operations (trace s)
  /\ getBusy (step indet s Sig_disconnected) = false
  /\ fRequestQueue (step indet s Sig_disconnected) = []
  /\ getError (step indet s Sig_disconnected) = sock_errorString (fSocket s)
  /\ getConnectionState (step indet s Sig_disconnected) = 0
  /\ emitted (trace (run indet s [Sig_disconnected; Sig_timeout]))
     = emitted (trace (step indet s Sig_disconnected))
       ++ [error (sock_errorString (fSocket s)) (getCode s);
           connectionStateChanged; busyChanged false].
Proof.
  unfold run. cbn [fold_left step].
  unfold disconnectedFromServer, bail, done, getBusy, getError, getCode,
    getConnectionState, transport_operations.
  cbn. rewrite !emitted_app, !List.filter_app. cbn.
  rewrite ?app_nil_r, <- ?app_assoc. cbn. repeat split.
Qed.

End Disconnecting.

(** * The further properties at concrete clients *)

(** The message of the sample envelope reads back its id; its echo is
    refused by a client awaiting the reply to another call. *)
Lemma message_reads_back_witness :
  in_int (fCallID sample_request) = true
  /\ usable (JString "0x5")
  /\ toInt (value (methodToJSON sample_request) "id") (-1) = 9
  /\ fst (fst (readReply (echo sample_request (JString "0x5"))
                 listing_client)) = false.
Proof.
  destruct (message_reads_back_and_echo_is_accepted sample_request
              listing_client (JString "0x5") eq_refl eq_refl)
    as (_ & _ & _ & Hid & _ & _ & Hne).
  split; [reflexivity|]. split; [reflexivity|]. split; [exact Hid|].
  apply Hne. vm_compute. discriminate.
Defined.

(** [done] on the client cut off from the daemon: the pending call is
    taken, and only the stored error tells that it was not written. *)
Lemma done_failed_write_witness :
  fRequestQueue cut_off_client
  = [mkRequestIPC 2 GetBlockNumber "eth_blockNumber" [] default_index false]
  /\ isWritable (fSocket cut_off_client) = false
  /\ getBusy (done sample_indet cut_off_client) = true
  /\ emitted (trace (done sample_indet cut_off_client))
     = emitted (trace cut_off_client)
  /\ fError (done sample_indet cut_off_client) = "Socket not writeable".
Proof.
  assert (Hq : fRequestQueue cut_off_client
               = [mkRequestIPC 2 GetBlockNumber "eth_blockNumber" []
                    default_index false])
    by (vm_compute; reflexivity).
  assert (Hw : isWritable (fSocket cut_off_client) = false)
    by (vm_compute; reflexivity).
  destruct (done_keeps_quiet_about_failed_write sample_indet cut_off_client
              _ _ Hq)
    as (_ & _ & Hb & He & _ & Hm & _).
  { rewrite Hw. reflexivity. }
  rewrite Hw in Hm.
  split; [exact Hq|]. split; [exact Hw|]. split; [exact Hb|].
  split; [exact He | exact Hm].
Defined.

(** An empty read while the listing call awaits its reply. *)
Lemma failed_reply_witness :
  fType (fActiveRequest listing_client) <> GetPeerCount
  /\ fst (fst (readReply RecvNothing listing_client)) = false
  /\ getBusy (@onSocketReadyRead SpecCodec.codec sample_indet RecvNothing
                listing_client) = false
  /\ fRequestQueue (@onSocketReadyRead SpecCodec.codec sample_indet
                      RecvNothing listing_client) = []
  /\ fError (snd (readReply RecvNothing listing_client))
     = String.append "Error on socket read: "
         (sock_errorString (fSocket listing_client)).
Proof.
  assert (Ht : fType (fActiveRequest listing_client) <> GetPeerCount)
    by (vm_compute; discriminate).
  assert (Hf : fst (fst (readReply RecvNothing listing_client)) = false)
    by reflexivity.
  destruct (@failed_reply_is_reported_once SpecCodec.codec sample_indet
              RecvNothing listing_client Ht Hf)
    as (_ & Hb & Hq & _ & Hn & _).
  split; [exact Ht|]. split; [exact Hf|]. split; [exact Hb|].
  split; [exact Hq | exact (proj1 (Hn eq_refl))].
Defined.

(** A block-number call while the gas-price call awaits its reply. *)
Lemma request_while_busy_witness :
  @request_of SpecCodec.codec Call_getBlockNumber (sCallID gas_price_client)
  = Some (mkRequestIPC 2 GetBlockNumber "eth_blockNumber" [] default_index
            false)
  /\ fEmpty (fActiveRequest gas_price_client) = false
  /\ emitted (trace (@step SpecCodec.codec sample_indet gas_price_client
                       Call_getBlockNumber))
     = emitted (trace gas_price_client)
  /\ transport_operations
       (trace (@step SpecCodec.codec sample_indet gas_price_client
                 Call_getBlockNumber))
     = transport_operations (trace gas_price_client).
Proof.
  assert (Hr : @request_of SpecCodec.codec Call_getBlockNumber
                 (sCallID gas_price_client)
               = Some (mkRequestIPC 2 GetBlockNumber "eth_blockNumber" []
                         default_index false))
    by (vm_compute; reflexivity).
  assert (Hb : fEmpty (fActiveRequest gas_price_client) = false)
    by (vm_compute; reflexivity).
  destruct (@request_while_busy_is_only_queued SpecCodec.codec sample_indet
              Call_getBlockNumber gas_price_client _ Hr Hb)
    as (_ & _ & He & Ht).
  split; [exact Hr|]. split; [exact Hb|]. split; [exact He | exact Ht].
Defined.

(** A gas-price call on the client that never connected. *)
Lemma request_unwritable_witness :
  @request_of SpecCodec.codec Call_getGasPrice (sCallID new_client)
  = Some (mkRequestIPC 0 GetGasPrice "eth_gasPrice" [] default_index false)
  /\ fEmpty (fActiveRequest new_client) = true
  /\ isWritable (fSocket new_client) = false
  /\ emitted (trace (@step SpecCodec.codec sample_indet new_client
                       Call_getGasPrice))
     = [busyChanged true; error "Socket not writeable" 0;
        connectionStateChanged; busyChanged false]
  /\ sCallID (@step SpecCodec.codec sample_indet new_client Call_getGasPrice)
     = 1.
Proof.
  destruct (@request_that_cannot_be_written_is_reported SpecCodec.codec
              sample_indet Call_getGasPrice new_client _ eq_refl eq_refl
              eq_refl)
    as (He & _ & _ & _ & _ & Hid).
  split; [reflexivity|]. split; [reflexivity|]. split; [reflexivity|].
  split; [exact He | exact Hid].
Defined.

(** The reply to the gas-price call, carrying one ether in wei. *)
Lemma accepted_reply_witness :
  plain_call (fType (fActiveRequest gas_price_client)) = true
  /\ fst (fst (readReply (reply 1 (JString "0xde0b6b3a7640000"))
                 gas_price_client)) = true
  /\ emitted
       (trace (@onSocketReadyRead SpecCodec.codec sample_indet
                 (reply 1 (JString "0xde0b6b3a7640000")) gas_price_client))
     = emitted (trace gas_price_client)
       ++ [getGasPriceDone "1.000000000000000000"; busyChanged false]
  /\ fError (@onSocketReadyRead SpecCodec.codec sample_indet
               (reply 1 (JString "0xde0b6b3a7640000")) gas_price_client)
     = fError gas_price_client.
Proof.
  assert (Hp : plain_call (fType (fActiveRequest gas_price_client)) = true)
    by (vm_compute; reflexivity).
  assert (Hk : fst (fst (readReply (reply 1 (JString "0xde0b6b3a7640000"))
                           gas_price_client)) = true)
    by (vm_compute; reflexivity).
  destruct (@accepted_reply_is_reported_once_and_error_is_kept
              SpecCodec.codec sample_indet
              (reply 1 (JString "0xde0b6b3a7640000")) gas_price_client Hp Hk)
    as (He & _ & _ & _ & _ & Hq).
  split; [exact Hp|]. split; [exact Hk|]. split.
  - rewrite He. vm_compute. reflexivity.
  - apply Hq. vm_compute. reflexivity.
Defined.

(** The socket connects with a gas-price call pending. *)
Lemma connected_witness :
  Forall (fun r => fEmpty r = false) (fRequestQueue connecting_client)
  /\ 0 < sock_sent (fSocket connecting_client)
           (sock_writes (fSocket connecting_client))
  /\ fActiveRequest (@step SpecCodec.codec sample_indet connecting_client
                       Sig_connected)
     = mkRequestIPC 0 GetGasPrice "eth_gasPrice" [] default_index false
  /\ fRequestQueue (@step SpecCodec.codec sample_indet connecting_client
                      Sig_connected)
     = [filter_request 1].
Proof.
  assert (Hq : Forall (fun r => fEmpty r = false)
                 (fRequestQueue connecting_client))
    by (repeat constructor).
  assert (Hs : 0 < sock_sent (fSocket connecting_client)
                     (sock_writes (fSocket connecting_client)))
    by (vm_compute; reflexivity).
  destruct (@connected_writes_oldest_call_and_queues_filter SpecCodec.codec
              sample_indet connecting_client Hq Hs)
    as (_ & Ha & Hr & _).
  split; [exact Hq|]. split; [exact Hs|]. split.
  - rewrite Ha. vm_compute. reflexivity.
  - rewrite Hr. vm_compute. reflexivity.
Defined.

(** A connect attempt on a path where no daemon listens, with two calls
    made before the socket gives up. *)
Lemma failed_connect_witness :
  sock_state (fSocket new_client) = UnconnectedState
  /\ Forall (fun i => @is_request SpecCodec.codec i = true)
       [Call_getGasPrice; Call_getAccounts]
  /\ emitted
       (trace (@run SpecCodec.codec sample_indet new_client
                 [Call_connectToServer "geth.ipc"; Call_getGasPrice;
                  Call_getAccounts; Sig_error "Invalid name" 2;
                  Sig_timeout]))
     = [busyChanged true; error "Invalid name" 2; connectionStateChanged;
        busyChanged false]
  /\ sCallID (@run SpecCodec.codec sample_indet new_client
                [Call_connectToServer "geth.ipc"; Call_getGasPrice;
                 Call_getAccounts; Sig_error "Invalid name" 2;
                 Sig_timeout])
     = 2.
Proof.
  assert (Hc : Forall (fun i => @is_request SpecCodec.codec i = true)
                 [Call_getGasPrice; Call_getAccounts])
    by (repeat constructor).
  destruct (@failed_connect_reports_once_and_drops_calls SpecCodec.codec
              sample_indet new_client "geth.ipc" "Invalid name" 2
              [Call_getGasPrice; Call_getAccounts] eq_refl Hc)
    as (He & _ & _ & _ & Hid & _).
  split; [reflexivity|]. split; [exact Hc|]. split; [exact He | exact Hid].
Defined.

(** A peer-count call and the daemon's reply to it. *)
Lemma peer_count_witness :
  trace new_client = []
  /\ peerCount
       (@run SpecCodec.codec sample_indet new_client
          [Call_connectToServer "geth.ipc"; Sig_connected;
           Sig_readyRead (reply 0 (JString "0x1"));
           Call_getPeerCount;
           Sig_readyRead (reply 1 (JString "0x19"))])
     = 0.
Proof.
  split; [reflexivity|].
  exact (proj1 (@peer_count_is_never_updated SpecCodec.codec sample_indet
                  new_client
                  [Call_connectToServer "geth.ipc"; Sig_connected;
                   Sig_readyRead (reply 0 (JString "0x1"));
                   Call_getPeerCount;
                   Sig_readyRead (reply 1 (JString "0x19"))] eq_refl)).
Defined.

(** The call ids of the first round of account listing. *)
Lemma call_ids_witness :
  trace new_client = []
  /\ map fCallID
       (queued (trace (@run SpecCodec.codec sample_indet new_client
                         first_round)))
     = ids_from 0 4
  /\ sCallID (@run SpecCodec.codec sample_indet new_client first_round) = 4.
Proof.
  destruct (@call_ids_are_taken_in_sequence SpecCodec.codec sample_indet
              new_client first_round eq_refl) as (Hm & Hn & _).
  assert (Hl : length (queued (trace (@run SpecCodec.codec sample_indet
                                        new_client first_round))) = 4%nat)
    by (vm_compute; reflexivity).
  rewrite Hl in Hm, Hn.
  split; [reflexivity|]. split; [exact Hm | exact Hn].
Defined.

(** The sample client after its first round of account listing. *)
Lemma idle_client_witness :
  fresh new_client
  /\ @admissible SpecCodec.codec sample_indet new_client first_round = true
  /\ getBusy (@run SpecCodec.codec sample_indet new_client first_round)
     = false
  /\ fRequestQueue (@run SpecCodec.codec sample_indet new_client first_round)
     = [].
Proof.
  assert (Hf : fresh new_client) by (repeat split).
  assert (Ha : @admissible SpecCodec.codec sample_indet new_client
                 first_round = true)
    by (vm_compute; reflexivity).
  assert (Hb : getBusy (@run SpecCodec.codec sample_indet new_client
                          first_round) = false)
    by (vm_compute; reflexivity).
  destruct (@idle_client_has_nothing_pending SpecCodec.codec sample_indet
              new_client first_round Hf Ha) as (Hidle & _).
  split; [exact Hf|]. split; [exact Ha|]. split; [exact Hb|].
  exact (proj1 (Hidle Hb)).
Defined.

(** Data and a further call while the peer-count call is active. *)
Lemma peer_count_blocks_witness :
  fType (fActiveRequest peer_count_client) = GetPeerCount
  /\ fEmpty (fActiveRequest peer_count_client) = false
  /\ fActiveRequest
       (@run SpecCodec.codec sample_indet peer_count_client
          [Sig_readyRead (reply 1 (JString "0x19")); Call_getGasPrice;
           Sig_readyRead (reply 1 (JString "0x19"))])
     = fActiveRequest peer_count_client
  /\ emitted
       (trace (@run SpecCodec.codec sample_indet peer_count_client
                 [Sig_readyRead (reply 1 (JString "0x19")); Call_getGasPrice;
                  Sig_readyRead (reply 1 (JString "0x19"))]))
     = emitted (trace peer_count_client).
Proof.
  assert (Ht : fType (fActiveRequest peer_count_client) = GetPeerCount)
    by (vm_compute; reflexivity).
  assert (Hb : fEmpty (fActiveRequest peer_count_client) = false)
    by (vm_compute; reflexivity).
  destruct (@peer_count_call_blocks_the_queue SpecCodec.codec sample_indet
              [Sig_readyRead (reply 1 (JString "0x19")); Call_getGasPrice;
               Sig_readyRead (reply 1 (JString "0x19"))]
              peer_count_client Ht Hb eq_refl)
    as (Ha & He & _).
  split; [exact Ht|]. split; [exact Hb|]. split; [exact Ha | exact He].
Defined.

(** The reply to the listing call, with two accounts. *)
Lemma listing_reply_witness :
  fType (fActiveRequest listing_client) = GetAccountRefs
  /\ fEmpty (fActiveRequest listing_client) = false
  /\ fst (fst (readReply (reply 1 (JArray [JString "0xA"; JString "0xB"]))
                 listing_client)) = true
  /\ fAccountList
       (@onSocketReadyRead SpecCodec.codec sample_indet
          (reply 1 (JArray [JString "0xA"; JString "0xB"])) listing_client)
     = [mkAccountInfo "0xA" "" (-1); mkAccountInfo "0xB" "" (-1)]
  /\ length
       (fRequestQueue
          (@onSocketReadyRead SpecCodec.codec sample_indet
             (reply 1 (JArray [JString "0xA"; JString "0xB"]))
             listing_client))
     = 3%nat.
Proof.
  assert (Ht : fType (fActiveRequest listing_client) = GetAccountRefs)
    by (vm_compute; reflexivity).
  assert (Hb : fEmpty (fActiveRequest listing_client) = false)
    by (vm_compute; reflexivity).
  assert (Hk : fst (fst (readReply
                           (reply 1 (JArray [JString "0xA"; JString "0xB"]))
                           listing_client)) = true)
    by (vm_compute; reflexivity).
  destruct (@listing_reply_appends_records_and_queues_follow_ups
              SpecCodec.codec sample_indet
              (reply 1 (JArray [JString "0xA"; JString "0xB"]))
              listing_client Ht Hb Hk)
    as (Ha & _ & _ & Hq & _).
  split; [exact Ht|]. split; [exact Hb|]. split; [exact Hk|]. split.
  - rewrite Ha. vm_compute. reflexivity.
  - rewrite Hq. vm_compute. reflexivity.
Defined.

(** A gas-price call on the idle connected client, and its reply. *)
Lemma round_trip_witness :
  @request_of SpecCodec.codec Call_getGasPrice (sCallID ready_client)
  = Some (mkRequestIPC 1 GetGasPrice "eth_gasPrice" [] default_index false)
  /\ fEmpty (fActiveRequest ready_client) = true
  /\ fRequestQueue ready_client = []
  /\ sock_state (fSocket ready_client) = ConnectedState
  /\ 0 < sock_sent (fSocket ready_client) (sock_writes (fSocket ready_client))
  /\ in_int (sCallID ready_client) = true
  /\ emitted
       (trace
          (@step SpecCodec.codec sample_indet
             (@step SpecCodec.codec sample_indet ready_client
                Call_getGasPrice)
             (Sig_readyRead
                (reply_to
                   (@step SpecCodec.codec sample_indet ready_client
                      Call_getGasPrice)
                   (JString "0xde0b6b3a7640000")))))
     = emitted (trace ready_client)
       ++ [busyChanged true; getGasPriceDone "1.000000000000000000";
           busyChanged false].
Proof.
  assert (H1 : @request_of SpecCodec.codec Call_getGasPrice
                 (sCallID ready_client)
               = Some (mkRequestIPC 1 GetGasPrice "eth_gasPrice" []
                         default_index false))
    by (vm_compute; reflexivity).
  assert (H3 : fEmpty (fActiveRequest ready_client) = true)
    by (vm_compute; reflexivity).
  assert (H4 : fRequestQueue ready_client = []) by (vm_compute; reflexivity).
  assert (H5 : sock_state (fSocket ready_client) = ConnectedState)
    by (vm_compute; reflexivity).
  assert (H6 : 0 < sock_sent (fSocket ready_client)
                     (sock_writes (fSocket ready_client)))
    by (vm_compute; reflexivity).
  assert (H7 : in_int (sCallID ready_client) = true)
    by (vm_compute; reflexivity).
  destruct (@call_and_reply_round_trip SpecCodec.codec sample_indet
              Call_getGasPrice ready_client _ (JString "0xde0b6b3a7640000")
              H1 eq_refl H3 H4 H5 H6 H7 eq_refl)
    as (_ & He & _).
  split; [exact H1|]. split; [exact H3|]. split; [exact H4|].
  split; [exact H5|]. split; [exact H6|]. split; [exact H7|].
  rewrite He. vm_compute. reflexivity.
Defined.
